(** * pyHanko core: the revision-aware xref cache and the encryption engine

    A shallow embedding of [pyhanko/pdf_utils/reader.py] (class [XRefCache],
    [convert_to_int], the xref part of [PdfFileReader], the reading of the
    end of the file) and of
    [pyhanko/pdf_utils/crypt.py] (key derivation, crypt filters, the standard
    security handler), with the properties that the specification states
    about them.

    Conventions.
    - Python [int] is [Z]; [bytes] is [list byte]; a [dict] is a [gmap], a
      [set] a [gset]; a [defaultdict] is read with the default of its factory.
    - A Python exception is a value of [exn]; code that may raise returns a
      [result].  Methods of a mutable object thread the object explicitly.
    - Third-party primitives ([hashlib], [oscrypto.symmetric]) are the fields
      of the class [Primitives]; what the proofs use of them is [PrimitiveLaws].

    The file has two parts: the model (modules [Py], [Reader], [Crypt]),
    then the properties (modules [PyFacts], [ReaderFacts], [CryptFacts]). *)

From Stdlib Require Import ZArith NArith List Lia Bool.
From Stdlib.Strings Require Import Byte.
From Equations Require Import Equations.
From stdpp Require Import base option list sorting gmap.

Open Scope Z_scope.

(** ** Exceptions and results *)

(** The messages of [misc.PdfReadError] that the modelled code raises, with
    the values each message is formatted from. *)
Inductive read_error :=
| OccursAfterFreed (conflicting_gen idnum prev_generation : Z)
| FreeingMismatch (next_generation idnum expected_generation : Z)
| NeverFreedButReused (generation idnum : Z)
| IllegalGeneration (generation idnum : Z)
| OrphanedHigherGenerations (orphans : list (Z * Z))
| NotInHistory (idnum generation revision : Z)
| XrefTableReadError
| XrefTableNotFound
| AuthenticationFailed
| NoKeyAvailable.

(** The messages of [misc.PdfError] that the modelled code raises. *)
Inductive pdf_error :=
| PermsTampered
| KeyLengthOutOfRange
| NoCryptFilterConfiguration
| BadEntryLength.

Inductive exn :=
| PdfReadError (msg : read_error)
| PdfError (msg : pdf_error)
| AssertionError
| IndexError
| StructError
| ValueError
| TypeError
| AttributeError
| NotImplementedError.

Inductive result (A : Type) :=
| Ok (a : A)
| Raise (e : exn).
Arguments Ok {A} a.
Arguments Raise {A} e.

#[global] Instance read_error_eq_dec : EqDecision read_error.
Proof. solve_decision. Defined.
#[global] Instance pdf_error_eq_dec : EqDecision pdf_error.
Proof. solve_decision. Defined.
#[global] Instance exn_eq_dec : EqDecision exn.
Proof. solve_decision. Defined.
#[global] Instance result_eq_dec {A} `{EqDecision A} : EqDecision (result A).
Proof. solve_decision. Defined.

#[global] Instance result_ret : MRet result := @Ok.
#[global] Instance result_bind : MBind result :=
  λ A B f r, match r with Ok a => f a | Raise e => Raise e end.

Definition is_Ok {A} (r : result A) : Prop := ∃ a, r = Ok a.
Definition is_Raise {A} (r : result A) : Prop := ∃ e, r = Raise e.

(** ** Python sequences *)

Module Py.

Abbreviation bytes := (list byte).

#[global] Instance byte_eq_decision : EqDecision byte := Byte.byte_eq_dec.

(** The value of a byte, between 0 and 255. *)
Definition byte_val (b : byte) : Z := Z.of_N (Byte.to_N b).

(** [l[:n]]: a negative bound counts from the end. *)
Definition slice_to {A} (l : list A) (n : Z) : list A :=
  if 0 <=? n then take (Z.to_nat n) l
  else take (Z.to_nat (Z.of_nat (length l) + n)) l.

(** [l[n:]] for a bound [n >= 0] (the only use in the modelled code). *)
Definition slice_from {A} (l : list A) (n : nat) : list A := drop n l.

(** [l[a:b]] for constant bounds [0 <= a <= b]. *)
Definition slice {A} (l : list A) (a b : nat) : list A := take (b - a) (drop a l).

(** [l[i]]: a negative index counts from the end; out of range raises. *)
Definition index {A} (l : list A) (i : Z) : result A :=
  let j := if 0 <=? i then i else Z.of_nat (length l) + i in
  if 0 <=? j then
    match l !! Z.to_nat j with Some x => Ok x | None => Raise IndexError end
  else Raise IndexError.

(** [l * n] on sequences. *)
Fixpoint repeat_seq {A} (l : list A) (n : nat) : list A :=
  match n with O => [] | S n' => l ++ repeat_seq l n' end.

End Py.
Import Py.

(** ** reader.py: the xref cache *)

Module Reader.

(** [generic.Reference]: equality and hashing are by object id and
    generation. *)
Record Reference := mkReference { idnum : Z; generation : Z }.

#[global] Instance Reference_eq_dec : EqDecision Reference.
Proof. solve_decision. Defined.

#[global] Instance Reference_countable : Countable Reference.
Proof.
  refine (inj_countable' (λ r, (idnum r, generation r))
                         (λ p, mkReference p.1 p.2) _).
  intros []. reflexivity.
Defined.

(** What the cache stores for an object: a byte offset ([put_ref]), or the
    object stream and the index in it ([put_obj_stream_ref]). *)
Inductive marker :=
| Offset (start : Z)
| InObjStm (obj_stream_num obj_stream_ix : Z).

(** A value of [standard_xrefs]: an offset, or [generic.NullObject()] for a
    freed object. *)
Inductive xref_value :=
| XOffset (start : Z)
| XNull.

(** An element of [xref_container_info]. *)
Inductive container_info :=
| TableSpan (xref_start xref_end : Z)
| StreamSpan (xrefstream_ref : Reference) (stream_end : Z).

(** The fields of [XRefCache.__init__], without the back pointer to the
    reader.  Keys of [standard_xrefs] and [history] are
    [(generation, idnum)], as in the source. *)
Record XRefCache := mkXRefCache {
  xref_sections : Z;
  xref_locations : list Z;
  in_obj_stream : gmap Z (Z * Z);
  standard_xrefs : gmap (Z * Z) xref_value;
  last_change : gmap Z Z;
  history : gmap (Z * Z) (list (Z * marker));
  _current_section_ids : gset Reference;
  _current_section_freed : gset Reference;
  _refs_by_section : list (gset Reference);
  _freed_by_section : list (gset Reference);
  _generations : gmap Z (gset Z);
  _previous_expected_free : gmap Z Z;
  xref_container_info : list container_info;
  _obj_streams_by_revision : gmap Z (gset Reference)
}.

Definition XRefCache_init : XRefCache :=
  {| xref_sections := 0; xref_locations := []; in_obj_stream := ∅;
     standard_xrefs := ∅; last_change := ∅; history := ∅;
     _current_section_ids := ∅; _current_section_freed := ∅;
     _refs_by_section := []; _freed_by_section := [];
     _generations := ∅; _previous_expected_free := ∅;
     xref_container_info := []; _obj_streams_by_revision := ∅ |}.

(** Assignments to one attribute. *)
Definition set_xref_sections (v : Z) (c : XRefCache) : XRefCache :=
  mkXRefCache v (xref_locations c) (in_obj_stream c) (standard_xrefs c)
    (last_change c) (history c) (_current_section_ids c)
    (_current_section_freed c) (_refs_by_section c) (_freed_by_section c)
    (_generations c) (_previous_expected_free c) (xref_container_info c)
    (_obj_streams_by_revision c).

Definition set_xref_locations (v : list Z) (c : XRefCache) : XRefCache :=
  mkXRefCache (xref_sections c) v (in_obj_stream c) (standard_xrefs c)
    (last_change c) (history c) (_current_section_ids c)
    (_current_section_freed c) (_refs_by_section c) (_freed_by_section c)
    (_generations c) (_previous_expected_free c) (xref_container_info c)
    (_obj_streams_by_revision c).

Definition set_in_obj_stream (v : gmap Z (Z * Z)) (c : XRefCache) : XRefCache :=
  mkXRefCache (xref_sections c) (xref_locations c) v (standard_xrefs c)
    (last_change c) (history c) (_current_section_ids c)
    (_current_section_freed c) (_refs_by_section c) (_freed_by_section c)
    (_generations c) (_previous_expected_free c) (xref_container_info c)
    (_obj_streams_by_revision c).

Definition set_standard_xrefs (v : gmap (Z * Z) xref_value) (c : XRefCache) : XRefCache :=
  mkXRefCache (xref_sections c) (xref_locations c) (in_obj_stream c) v
    (last_change c) (history c) (_current_section_ids c)
    (_current_section_freed c) (_refs_by_section c) (_freed_by_section c)
    (_generations c) (_previous_expected_free c) (xref_container_info c)
    (_obj_streams_by_revision c).

Definition set_last_change (v : gmap Z Z) (c : XRefCache) : XRefCache :=
  mkXRefCache (xref_sections c) (xref_locations c) (in_obj_stream c)
    (standard_xrefs c) v (history c) (_current_section_ids c)
    (_current_section_freed c) (_refs_by_section c) (_freed_by_section c)
    (_generations c) (_previous_expected_free c) (xref_container_info c)
    (_obj_streams_by_revision c).

Definition set_history (v : gmap (Z * Z) (list (Z * marker))) (c : XRefCache) : XRefCache :=
  mkXRefCache (xref_sections c) (xref_locations c) (in_obj_stream c)
    (standard_xrefs c) (last_change c) v (_current_section_ids c)
    (_current_section_freed c) (_refs_by_section c) (_freed_by_section c)
    (_generations c) (_previous_expected_free c) (xref_container_info c)
    (_obj_streams_by_revision c).

Definition set_current_section_ids (v : gset Reference) (c : XRefCache) : XRefCache :=
  mkXRefCache (xref_sections c) (xref_locations c) (in_obj_stream c)
    (standard_xrefs c) (last_change c) (history c) v
    (_current_section_freed c) (_refs_by_section c) (_freed_by_section c)
    (_generations c) (_previous_expected_free c) (xref_container_info c)
    (_obj_streams_by_revision c).

Definition set_current_section_freed (v : gset Reference) (c : XRefCache) : XRefCache :=
  mkXRefCache (xref_sections c) (xref_locations c) (in_obj_stream c)
    (standard_xrefs c) (last_change c) (history c) (_current_section_ids c)
    v (_refs_by_section c) (_freed_by_section c)
    (_generations c) (_previous_expected_free c) (xref_container_info c)
    (_obj_streams_by_revision c).

Definition set_refs_by_section (v : list (gset Reference)) (c : XRefCache) : XRefCache :=
  mkXRefCache (xref_sections c) (xref_locations c) (in_obj_stream c)
    (standard_xrefs c) (last_change c) (history c) (_current_section_ids c)
    (_current_section_freed c) v (_freed_by_section c)
    (_generations c) (_previous_expected_free c) (xref_container_info c)
    (_obj_streams_by_revision c).

Definition set_freed_by_section (v : list (gset Reference)) (c : XRefCache) : XRefCache :=
  mkXRefCache (xref_sections c) (xref_locations c) (in_obj_stream c)
    (standard_xrefs c) (last_change c) (history c) (_current_section_ids c)
    (_current_section_freed c) (_refs_by_section c) v
    (_generations c) (_previous_expected_free c) (xref_container_info c)
    (_obj_streams_by_revision c).

Definition set_generations (v : gmap Z (gset Z)) (c : XRefCache) : XRefCache :=
  mkXRefCache (xref_sections c) (xref_locations c) (in_obj_stream c)
    (standard_xrefs c) (last_change c) (history c) (_current_section_ids c)
    (_current_section_freed c) (_refs_by_section c) (_freed_by_section c)
    v (_previous_expected_free c) (xref_container_info c)
    (_obj_streams_by_revision c).

Definition set_previous_expected_free (v : gmap Z Z) (c : XRefCache) : XRefCache :=
  mkXRefCache (xref_sections c) (xref_locations c) (in_obj_stream c)
    (standard_xrefs c) (last_change c) (history c) (_current_section_ids c)
    (_current_section_freed c) (_refs_by_section c) (_freed_by_section c)
    (_generations c) v (xref_container_info c)
    (_obj_streams_by_revision c).

Definition set_xref_container_info (v : list container_info) (c : XRefCache) : XRefCache :=
  mkXRefCache (xref_sections c) (xref_locations c) (in_obj_stream c)
    (standard_xrefs c) (last_change c) (history c) (_current_section_ids c)
    (_current_section_freed c) (_refs_by_section c) (_freed_by_section c)
    (_generations c) (_previous_expected_free c) v
    (_obj_streams_by_revision c).

Definition set_obj_streams_by_revision (v : gmap Z (gset Reference)) (c : XRefCache) : XRefCache :=
  mkXRefCache (xref_sections c) (xref_locations c) (in_obj_stream c)
    (standard_xrefs c) (last_change c) (history c) (_current_section_ids c)
    (_current_section_freed c) (_refs_by_section c) (_freed_by_section c)
    (_generations c) (_previous_expected_free c) (xref_container_info c) v.

(** [self.history[ix]] on the [defaultdict(list)]: a missing key reads as
    the empty list. *)
Definition history_at (c : XRefCache) (ix : Z * Z) : list (Z * marker) :=
  default [] (history c !! ix).

(** [XRefCache._next_section] *)
Definition _next_section (c : XRefCache) : XRefCache :=
  let c := set_xref_sections (xref_sections c + 1) c in
  let c := set_refs_by_section (_refs_by_section c ++ [_current_section_ids c]) c in
  let c := set_current_section_ids ∅ c in
  let c := set_freed_by_section (_freed_by_section c ++ [_current_section_freed c]) c in
  set_current_section_freed ∅ c.

(** [XRefCache.used_later] *)
Definition used_later (c : XRefCache) (idnum generation : Z) : bool :=
  match _generations c !! idnum with
  | Some gens => bool_decide (generation ∈ gens)
  | None => false
  end.

(** [XRefCache.free_ref].  The generator expression picks a generation of
    the set that is at most [prev_generation]; which one it meets first only
    shows in the message. *)
Definition free_ref (idnum next_generation : Z) (c : XRefCache) : result XRefCache :=
  if bool_decide (idnum = 0) then Ok c
  else
    let prev_generation :=
      if bool_decide (next_generation ≠ 0) then next_generation - 1 else 0xffff in
    let c := set_standard_xrefs (<[(prev_generation, idnum) := XNull]> (standard_xrefs c)) c in
    let null_ref := mkReference idnum prev_generation in
    let c := set_current_section_freed ({[null_ref]} ∪ _current_section_freed c) c in
    let c := set_current_section_ids ({[null_ref]} ∪ _current_section_ids c) c in
    c ← match _generations c !! idnum with
        | None => Ok (set_generations (<[idnum := {[prev_generation]}]> (_generations c)) c)
        | Some gens =>
            match find (λ gen, bool_decide (gen ≤ prev_generation)) (elements gens) with
            | Some conflicting_gen =>
                Raise (PdfReadError (OccursAfterFreed conflicting_gen idnum prev_generation))
            | None =>
                Ok (set_generations (<[idnum := {[prev_generation]} ∪ gens]> (_generations c)) c)
            end
        end;
    let c :=
      if bool_decide (is_Some (last_change c !! idnum)) then c
      else set_last_change (<[idnum := xref_sections c]> (last_change c)) c in
    match _previous_expected_free c !! idnum with
    | Some expected_generation =>
        let c := set_previous_expected_free (delete idnum (_previous_expected_free c)) c in
        if bool_decide (expected_generation ≠ next_generation) then
          Raise (PdfReadError (FreeingMismatch next_generation idnum expected_generation))
        else Ok c
    | None => Ok c
    end.

(** [XRefCache.put_ref] *)
Definition put_ref (idnum generation start : Z) (c : XRefCache) : result XRefCache :=
  if bool_decide (is_Some (_previous_expected_free c !! idnum)) then
    Raise (PdfReadError (NeverFreedButReused generation idnum))
  else
    c ← (if bool_decide (generation > 0xffff) then
           Raise (PdfReadError (IllegalGeneration generation idnum))
         else if bool_decide (generation > 0) then
           Ok (set_previous_expected_free
                 (<[idnum := generation]> (_previous_expected_free c)) c)
         else Ok c);
    let c :=
      if negb (used_later c idnum generation) then
        let c := set_standard_xrefs (<[(generation, idnum) := XOffset start]> (standard_xrefs c)) c in
        let c := set_last_change (<[idnum := xref_sections c]> (last_change c)) c in
        set_generations (<[idnum := {[generation]}]> (_generations c)) c
      else
        set_generations
          (<[idnum := {[generation]} ∪ default ∅ (_generations c !! idnum)]> (_generations c)) c in
    let c :=
      set_history
        (<[(generation, idnum) :=
             history_at c (generation, idnum) ++ [(xref_sections c, Offset start)]]> (history c)) c in
    Ok (set_current_section_ids ({[mkReference idnum generation]} ∪ _current_section_ids c) c).

(** [XRefCache.put_obj_stream_ref] *)
Definition put_obj_stream_ref (idnum obj_stream_num obj_stream_ix : Z) (c : XRefCache) : XRefCache :=
  let c :=
    set_obj_streams_by_revision
      (<[xref_sections c :=
           {[mkReference obj_stream_num 0]}
             ∪ default ∅ (_obj_streams_by_revision c !! xref_sections c)]>
         (_obj_streams_by_revision c)) c in
  let c :=
    if negb (used_later c idnum 0) then
      let c := set_in_obj_stream (<[idnum := (obj_stream_num, obj_stream_ix)]> (in_obj_stream c)) c in
      let c := set_last_change (<[idnum := xref_sections c]> (last_change c)) c in
      set_generations (<[idnum := {[0]}]> (_generations c)) c
    else c in
  let c :=
    set_history
      (<[(0, idnum) :=
           history_at c (0, idnum)
             ++ [(xref_sections c, InObjStm obj_stream_num obj_stream_ix)]]> (history c)) c in
  set_current_section_ids ({[mkReference idnum 0]} ∪ _current_section_ids c) c.

(** [XRefCache.total_revisions] *)
Definition total_revisions (c : XRefCache) : Z := xref_sections c.

(** The loop of [get_historical_ref] over one history record. *)
Fixpoint scan_history (max_index revision : Z) (h : list (Z * marker)) : option marker :=
  match h with
  | [] => None
  | (rev_index, m) :: h' =>
      if bool_decide (revision >= max_index - rev_index) then Some m
      else scan_history max_index revision h'
  end.

(** [XRefCache.get_historical_ref] *)
Definition get_historical_ref (c : XRefCache) (ref : Reference) (revision : Z) : result marker :=
  let max_index := xref_sections c - 1 in
  let ix := (generation ref, idnum ref) in
  match scan_history max_index revision (history_at c ix) with
  | Some m => Ok m
  | None => Raise (PdfReadError (NotInHistory (idnum ref) (generation ref) revision))
  end.

(** *** Decoding the fields of an xref stream *)

(** The big-endian unsigned integer that a byte string denotes. *)
Definition be_unsigned (d : bytes) : Z :=
  fold_left (λ acc b, acc * 256 + byte_val b) d 0.

(** [struct.unpack(">q", d)[0]]: exactly eight bytes, read as a signed
    (two's complement) big-endian integer. *)
Definition struct_unpack_q_be (d : bytes) : result Z :=
  if bool_decide (length d = 8%nat) then
    let u := be_unsigned d in
    Ok (if bool_decide (u < 2 ^ 63) then u else u - 2 ^ 64)
  else Raise StructError.

(** [sum(digit ** (size - ix - 1) for ix, digit in enumerate(d))], with
    [ix] the index of the head of [d]. *)
Fixpoint sum_digit_powers (size ix : Z) (d : bytes) : Z :=
  match d with
  | [] => 0
  | digit :: d' => byte_val digit ^ (size - ix - 1) + sum_digit_powers size (ix + 1) d'
  end.

(** [convert_to_int] *)
Definition convert_to_int (d : bytes) (size : Z) : result Z :=
  if bool_decide (size ≤ 8) then
    let padding := replicate (Z.to_nat (8 - size)) x00 in
    struct_unpack_q_be (padding ++ d)
  else Ok (sum_digit_powers size 0 d).

(** The closure [get_entry] of [read_xref_stream]: [stream_data] is what is
    left to read of the [BytesIO]; [read(n)] takes up to [n] bytes of it. *)
Definition get_entry (entry_sizes : list Z) (ix : Z) (stream_data : bytes) : result (Z * bytes) :=
  w ← Py.index entry_sizes ix;
  if bool_decide (w > 0) then
    let d := take (Z.to_nat w) stream_data in
    v ← convert_to_int d w;
    Ok (v, drop (Z.to_nat w) stream_data)
  else if bool_decide (ix = 0) then Ok (1, stream_data)
  else Ok (0, stream_data).

(** One turn of the inner loop of [read_xref_stream], for object [num]. *)
Definition read_stream_entry (entry_sizes : list Z) (num : Z)
    (st : bytes * XRefCache) : result (bytes * XRefCache) :=
  let '(stream_data, c) := st in
  '(xref_type, stream_data) ← get_entry entry_sizes 0 stream_data;
  if bool_decide (xref_type = 1) then
    '(byte_offset, stream_data) ← get_entry entry_sizes 1 stream_data;
    '(generation, stream_data) ← get_entry entry_sizes 2 stream_data;
    c ← put_ref num generation byte_offset c;
    Ok (stream_data, c)
  else if bool_decide (xref_type = 2) then
    '(objstr_num, stream_data) ← get_entry entry_sizes 1 stream_data;
    '(objstr_idx, stream_data) ← get_entry entry_sizes 2 stream_data;
    Ok (stream_data, put_obj_stream_ref num objstr_num objstr_idx c)
  else if bool_decide (xref_type = 0) then
    '(_, stream_data) ← get_entry entry_sizes 1 stream_data;
    '(next_generation, stream_data) ← get_entry entry_sizes 2 stream_data;
    c ← free_ref num next_generation c;
    Ok (stream_data, c)
  else
    '(_, stream_data) ← get_entry entry_sizes 1 stream_data;
    '(_, stream_data) ← get_entry entry_sizes 2 stream_data;
    Ok (stream_data, c).

(** A [for] loop whose body may raise. *)
Fixpoint for_each {A S} (body : A → S → result S) (l : list A) (s : S) : result S :=
  match l with
  | [] => Ok s
  | x :: l' => s' ← body x s; for_each body l' s'
  end.

(** The outer loop of [read_xref_stream] over the pairs of [/Index]. *)
Fixpoint read_stream_subsections (entry_sizes : list Z) (idx_pairs : list (Z * Z))
    (last_end : Z) (st : bytes * XRefCache) : result (bytes * XRefCache) :=
  match idx_pairs with
  | [] => Ok st
  | (start, size) :: idx_pairs' =>
      if bool_decide (start >= last_end) then
        st ← for_each (read_stream_entry entry_sizes) (seqZ start size) st;
        read_stream_subsections entry_sizes idx_pairs' (start + size) st
      else Raise AssertionError
  end.

(** [XRefCache.read_xref_stream], on the decoded data, the pairs of [/Index]
    and the array [/W] of the stream. *)
Definition read_xref_stream (stream_data : bytes) (idx_pairs : list (Z * Z))
    (entry_sizes : list Z) (c : XRefCache) : result XRefCache :=
  '(_, c) ← read_stream_subsections entry_sizes idx_pairs 0 (stream_data, c);
  Ok (_next_section c).

(** *** Reading an xref table *)

(** The marker that ends a line of an xref table. *)
Inductive line_marker := MarkerN | MarkerF | MarkerOther.

(** A 20-byte line, split into its fields. *)
Record xref_line := mkLine {
  line_offset : Z;
  line_generation : Z;
  line_mark : line_marker
}.

(** A subsection: the first object number and the lines that follow. *)
Record subsection := mkSubsection { first_num : Z; lines : list xref_line }.

Definition read_table_line (num : Z) (ln : xref_line) (c : XRefCache) : result XRefCache :=
  match line_mark ln with
  | MarkerN => put_ref num (line_generation ln) (line_offset ln) c
  | MarkerF => free_ref num (line_generation ln) c
  | MarkerOther => Ok c
  end.

Fixpoint read_table_lines (num : Z) (lns : list xref_line) (c : XRefCache) : result XRefCache :=
  match lns with
  | [] => Ok c
  | ln :: lns' => c ← read_table_line num ln c; read_table_lines (num + 1) lns' c
  end.

(** [XRefCache.read_xref_table], on the subsections as tokenised. *)
Definition read_xref_table (subsections : list subsection) (c : XRefCache) : result XRefCache :=
  c ← for_each (λ ss c, read_table_lines (first_num ss) (lines ss) c) subsections c;
  Ok (_next_section c).

(** *** The chain of xref sections *)

(** What a turn of the [while] loop of [_read_xrefs] finds at the pointer
    [startxref]: an xref table (the keyword [xref]), an xref stream (a
    digit), or neither.  In the last case the loop looks around the pointer:
    when it finds the keyword or a digit nearby it adjusts the pointer and
    goes on to the next turn without having read a section
    ([MisplacedPointer]); otherwise it raises ([NoXrefNearby]).  An [x] that
    [ref] does not follow raises as well ([BadTableKeyword]).  A file is the
    list of the turns in the order the loop takes them (sections come newest
    first, following [/Prev]), each with its pointer. *)
Inductive xref_section :=
| XrefTable (xref_start xref_end : Z) (subsections : list subsection)
| XrefStream (xrefstream_ref : Reference) (stream_end : Z)
    (stream_data : bytes) (idx_pairs : list (Z * Z)) (entry_sizes : list Z)
| MisplacedPointer
| BadTableKeyword
| NoXrefNearby.

(** The branches of the body of the loop: [PdfFileReader._read_xref_table]
    and [_read_xref_stream], as far as the cache is concerned, and the
    branch of a bad character at the pointer, which leaves the cache as it
    is or raises. *)
Definition read_section (sec : xref_section) (c : XRefCache) : result XRefCache :=
  match sec with
  | XrefTable xref_start xref_end subsections =>
      c ← read_xref_table subsections c;
      Ok (set_xref_container_info
            (xref_container_info c ++ [TableSpan xref_start xref_end]) c)
  | XrefStream ref stream_end stream_data idx_pairs entry_sizes =>
      let c := set_xref_container_info
                 (xref_container_info c ++ [StreamSpan ref stream_end]) c in
      read_xref_stream stream_data idx_pairs entry_sizes c
  | MisplacedPointer => Ok c
  | BadTableKeyword => Raise (PdfReadError XrefTableReadError)
  | NoXrefNearby => Raise (PdfReadError XrefTableNotFound)
  end.

(** The body of the [while] loop of [_read_xrefs]: the pointer is logged on
    every turn, before anything is read. *)
Definition read_located_section (sec : Z * xref_section) (c : XRefCache) : result XRefCache :=
  let c := set_xref_locations (xref_locations c ++ [sec.1]) c in
  read_section sec.2 c.

(** The check that ends [_read_xrefs]. *)
Definition check_orphans (c : XRefCache) : result XRefCache :=
  if bool_decide (_previous_expected_free c ≠ ∅) then
    Raise (PdfReadError (OrphanedHigherGenerations (map_to_list (_previous_expected_free c))))
  else Ok c.

(** [PdfFileReader._read_xrefs], from a fresh cache. *)
Definition _read_xrefs (sections : list (Z * xref_section)) : result XRefCache :=
  c ← for_each read_located_section sections XRefCache_init;
  check_orphans c.

(** [PdfFileReader.read]: [preamble] is the outcome of reading the header
    and of [process_data_at_eof] (the last [startxref], or the exception
    raised on the way); the xref sections are read last. *)
Definition read (preamble : result Z) (sections : list (Z * xref_section)) : result XRefCache :=
  _ ← preamble;
  _read_xrefs sections.

(** *** Notions that the properties are stated with *)

(** The oldest-first revision number of the section that the cache counts
    as [section] (sections are counted in reading order, newest first). *)
Definition revision_of (c : XRefCache) (section : Z) : Z :=
  total_revisions c - 1 - section.

(** Stated from the specification: the first entry of a newest-first
    history whose section index is at least [threshold]. *)
Definition first_at_or_after (threshold : Z) (h : list (Z * marker)) : option (Z * marker) :=
  find (λ e, bool_decide (threshold ≤ e.1)) h.

(** The section indices of every history record increase (weakly) along the
    record, and none exceeds the section counter. *)
Definition history_ordered (c : XRefCache) : Prop :=
  ∀ ix, StronglySorted Z.le ((history_at c ix).*1 ++ [xref_sections c]).

(** A property of the cache that every call the parser makes on it keeps. *)
Record preserved_by_calls (P : XRefCache → Prop) : Prop := {
  keeps_put_ref : ∀ idnum generation start c c',
    P c → put_ref idnum generation start c = Ok c' → P c';
  keeps_free_ref : ∀ idnum next_generation c c',
    P c → free_ref idnum next_generation c = Ok c' → P c';
  keeps_put_obj_stream_ref : ∀ idnum n i c,
    P c → P (put_obj_stream_ref idnum n i c);
  keeps_next_section : ∀ c, P c → P (_next_section c);
  keeps_container_info : ∀ v c, P c → P (set_xref_container_info v c);
  keeps_locations : ∀ v c, P c → P (set_xref_locations v c)
}.

(** [XRefCache.refs_freed_in_revision] *)
Definition refs_freed_in_revision (c : XRefCache) (revision : Z) : result (gset Reference) :=
  Py.index (_freed_by_section c) (xref_sections c - 1 - revision).

(** The freed sets by section index: the flushed ones, then the one of the
    section being read. *)
Definition freed_sets (c : XRefCache) : list (gset Reference) :=
  _freed_by_section c ++ [_current_section_freed c].

(** The section counter counts the flushed sets. *)
Definition sections_counted (c : XRefCache) : Prop :=
  0 ≤ xref_sections c ∧ length (_freed_by_section c) = Z.to_nat (xref_sections c).

(** Every in-use entry of generation [g > 0] in the history either still
    waits for its freeing instruction, or a free event of next generation
    [g] (recorded as the freed reference of generation [g - 1]) was met in
    the same section or in one read after it. *)
Definition frees_matched (c : XRefCache) : Prop :=
  ∀ idnum g section m, 0 < g → (section, m) ∈ history_at c (g, idnum) →
    _previous_expected_free c !! idnum = Some g
    ∨ ∃ section' F, section ≤ section' ∧ 0 ≤ section'
        ∧ freed_sets c !! Z.to_nat section' = Some F
        ∧ mkReference idnum (g - 1) ∈ F.

Definition cache_consistent (c : XRefCache) : Prop :=
  sections_counted c ∧ history_ordered c ∧ frees_matched c.

(** *** Sample files *)

(** A file with two incremental updates: object 5 is written in the
    original file (offset 100) and again in the second update (offset 300);
    the first update only adds object 6.  Sections come newest first. *)
Definition sample_sections : list (Z * xref_section) :=
  [ (900, XrefTable 900 940 [mkSubsection 5 [mkLine 300 0 MarkerN]]);
    (600, XrefTable 600 640 [mkSubsection 6 [mkLine 400 0 MarkerN]]);
    (200, XrefTable 200 260
            [mkSubsection 0 [mkLine 0 65535 MarkerF];
             mkSubsection 5 [mkLine 100 0 MarkerN]]) ].

Definition sample_cache : XRefCache :=
  match _read_xrefs sample_sections with
  | Ok c => c
  | Raise _ => XRefCache_init
  end.

(** A nine-byte field holding 256, and an eight-byte field with the top
    bit set. *)
Definition wide_field : bytes := [x00; x00; x00; x00; x00; x00; x00; x01; x00].
Definition high_field : bytes := [x80; x00; x00; x00; x00; x00; x00; x00].

(** Object 7 is in use with generation 1 and no section frees it. *)
Definition orphan_sections : list (Z * xref_section) :=
  [ (300, XrefTable 300 340 [mkSubsection 7 [mkLine 500 1 MarkerN]]) ].

(** Object 7 is written, freed in the first update and reused with
    generation 1 in the second.  Sections come newest first. *)
Definition reuse_sections : list (Z * xref_section) :=
  [ (900, XrefTable 900 940 [mkSubsection 7 [mkLine 500 1 MarkerN]]);
    (600, XrefTable 600 640 [mkSubsection 7 [mkLine 0 1 MarkerF]]);
    (200, XrefTable 200 260
            [mkSubsection 0 [mkLine 0 65535 MarkerF];
             mkSubsection 7 [mkLine 100 0 MarkerN]]) ].

Definition reuse_cache : XRefCache :=
  match _read_xrefs reuse_sections with
  | Ok c => c
  | Raise _ => XRefCache_init
  end.

(** A file of one section, a table that lists object 7 twice: in use with
    generation 1, then free with next generation 1. *)
Definition same_section_sections : list (Z * xref_section) :=
  [ (300, XrefTable 300 360
            [mkSubsection 7 [mkLine 500 1 MarkerN];
             mkSubsection 7 [mkLine 0 1 MarkerF]]) ].

Definition same_section_cache : XRefCache :=
  match _read_xrefs same_section_sections with
  | Ok c => c
  | Raise _ => XRefCache_init
  end.

(** *** Queries on the cache *)

(** [XRefCache.get_last_change]; [None] is the [KeyError] of an object id
    that no section lists. *)
Definition get_last_change (c : XRefCache) (idnum : Z) : option Z :=
  section ← last_change c !! idnum; Some (xref_sections c - 1 - section).

(** [XRefCache.object_streams_used_in], on the [defaultdict(set)] *)
Definition object_streams_used_in (c : XRefCache) (revision : Z) : gset Reference :=
  default ∅ (_obj_streams_by_revision c !! (xref_sections c - 1 - revision)).

(** [XRefCache.get_introducing_revision] *)
Definition get_introducing_revision (c : XRefCache) (ref : Reference) : result Z :=
  let ref_hist := history_at c (generation ref, idnum ref) in
  '(section, _) ← Py.index ref_hist (Z.of_nat (length ref_hist) - 1);
  Ok (xref_sections c - 1 - section).

(** [XRefCache.get_xref_container_info] *)
Definition get_xref_container_info (c : XRefCache) (revision : Z) : result container_info :=
  Py.index (xref_container_info c) (xref_sections c - 1 - revision).

(** [XRefCache.explicit_refs_in_revision] *)
Definition explicit_refs_in_revision (c : XRefCache) (revision : Z) : result (gset Reference) :=
  let rbs := _refs_by_section c in
  Py.index rbs (xref_sections c - 1 - revision).

(** [XRefCache.get_startxref_for_revision] *)
Definition get_startxref_for_revision (c : XRefCache) (revision : Z) : result Z :=
  Py.index (xref_locations c) (xref_sections c - 1 - revision).

(** What [XRefCache.__getitem__] returns: a marker, or the
    [generic.NullObject()] of a freed object. *)
Inductive xref_entry :=
| Marker (m : marker)
| NullObject.

(** [XRefCache.__getitem__]; [None] is the
    [PdfReadError("Could not find object.")]. *)
Definition __getitem__ (c : XRefCache) (ref : Reference) : option xref_entry :=
  if bool_decide (generation ref = 0)
     && bool_decide (is_Some (in_obj_stream c !! idnum ref)) then
    '(obj_stream_num, obj_stream_ix) ← in_obj_stream c !! idnum ref;
    Some (Marker (InObjStm obj_stream_num obj_stream_ix))
  else
    match standard_xrefs c !! (generation ref, idnum ref) with
    | Some (XOffset start) => Some (Marker (Offset start))
    | Some XNull => Some NullObject
    | None => None
    end.

(** [HistoricalResolver.is_ref_available], for the resolver of [revision];
    only a [PdfReadError] is caught. *)
Definition is_ref_available (c : XRefCache) (revision : Z) (ref : Reference) : result bool :=
  match get_historical_ref c ref revision with
  | Ok _ => Ok false
  | Raise (PdfReadError _) => Ok true
  | Raise e => Raise e
  end.

(** The pair that [_read_xref_table] or [_read_xref_stream] appends to
    [xref_container_info]; a turn that reads no section appends nothing. *)
Definition container_info_of (sec : xref_section) : option container_info :=
  match sec with
  | XrefTable xref_start xref_end _ => Some (TableSpan xref_start xref_end)
  | XrefStream xrefstream_ref stream_end _ _ _ => Some (StreamSpan xrefstream_ref stream_end)
  | _ => None
  end.

(** The containers of the sections that the turns read, in reading order. *)
Definition containers_of (turns : list (Z * xref_section)) : list container_info :=
  omap (λ turn, container_info_of turn.2) turns.

(** The sets of references by section index: the flushed ones, then the one
    of the section being read. *)
Definition ids_sets (c : XRefCache) : list (gset Reference) :=
  _refs_by_section c ++ [_current_section_ids c].

(** A property that the calls made while one section is read keep. *)
Record preserved_in_section (P : XRefCache → Prop) : Prop := {
  in_section_put_ref : ∀ idnum generation start c c',
    P c → put_ref idnum generation start c = Ok c' → P c';
  in_section_free_ref : ∀ idnum next_generation c c',
    P c → free_ref idnum next_generation c = Ok c' → P c';
  in_section_put_obj_stream_ref : ∀ idnum n i c,
    P c → P (put_obj_stream_ref idnum n i c)
}.

(** The fields that only [_next_section] and the reader itself write. *)
Definition section_tables (c : XRefCache) :=
  (xref_sections c, xref_locations c, xref_container_info c,
   _refs_by_section c, _freed_by_section c).

(** [ref] is in the set that the list [flushed ++ [current]] holds at
    index [section]. *)
Definition listed_at (flushed : list (gset Reference)) (current : gset Reference)
    (section : nat) (ref : Reference) : Prop :=
  ∃ S, (flushed ++ [current]) !! section = Some S ∧ ref ∈ S.

(** The section counter counts the flushed sets, and bounds the section
    indices of the history. *)
Definition tables_counted (c : XRefCache) : Prop :=
  0 ≤ xref_sections c
  ∧ length (_refs_by_section c) = Z.to_nat (xref_sections c)
  ∧ length (_freed_by_section c) = Z.to_nat (xref_sections c)
  ∧ ∀ ix section m, (section, m) ∈ history_at c ix → 0 ≤ section ≤ xref_sections c.

(** The references of a section are those it writes and those it frees. *)
Definition refs_listed (c : XRefCache) : Prop :=
  ∀ section ref,
    listed_at (_refs_by_section c) (_current_section_ids c) section ref
    ↔ (∃ m, (Z.of_nat section, m) ∈ history_at c (generation ref, idnum ref))
      ∨ listed_at (_freed_by_section c) (_current_section_freed c) section ref.

(** The cache holds an entry for [ref]: what [__getitem__] looks for. *)
Definition stored (c : XRefCache) (ref : Reference) : Prop :=
  is_Some (standard_xrefs c !! (generation ref, idnum ref))
  ∨ (generation ref = 0 ∧ is_Some (in_obj_stream c !! idnum ref)).

(** The generations on record are stored; what is stored is what the
    sections list; and every stored entry was written or freed by a
    section. *)
Definition entries_found (c : XRefCache) : Prop :=
  (∀ idnum g gens, _generations c !! idnum = Some gens → g ∈ gens →
     stored c (mkReference idnum g))
  ∧ (∀ ref, stored c ref
       ↔ ∃ section, listed_at (_refs_by_section c) (_current_section_ids c) section ref)
  ∧ (∀ g idnum start, standard_xrefs c !! (g, idnum) = Some (XOffset start) →
       ∃ section, (section, Offset start) ∈ history_at c (g, idnum))
  ∧ (∀ idnum n i, in_obj_stream c !! idnum = Some (n, i) →
       ∃ section, (section, InObjStm n i) ∈ history_at c (0, idnum))
  ∧ (∀ g idnum, standard_xrefs c !! (g, idnum) = Some XNull →
       ∃ section,
         listed_at (_freed_by_section c) (_current_section_freed c) section
           (mkReference idnum g)).

(** Every object with generations on record, and every object that a
    section lists, has a last change; and the section on record as the last
    change of an object lists it. *)
Definition last_change_listed (c : XRefCache) : Prop :=
  (∀ idnum, is_Some (_generations c !! idnum) → is_Some (last_change c !! idnum))
  ∧ (∀ idnum g section,
       listed_at (_refs_by_section c) (_current_section_ids c) section (mkReference idnum g) →
       is_Some (last_change c !! idnum))
  ∧ (∀ idnum section, last_change c !! idnum = Some section →
       0 ≤ section
       ∧ ∃ g, listed_at (_refs_by_section c) (_current_section_ids c)
                (Z.to_nat section) (mkReference idnum g)).

(** The object streams on record for a section are those that its entries
    place objects in. *)
Definition obj_streams_listed (c : XRefCache) : Prop :=
  ∀ section ref,
    ref ∈ default ∅ (_obj_streams_by_revision c !! section)
    ↔ generation ref = 0
      ∧ ∃ idnum obj_stream_ix,
          (section, InObjStm (Reader.idnum ref) obj_stream_ix) ∈ history_at c (0, idnum).

(** A file whose only section is an xref stream (object 4) with [/W [1 2 1]]
    and [/Index [0 4]]: object 1 is an object stream at offset 16, objects 2
    and 3 are kept in it. *)
Definition stream_sections : list (Z * xref_section) :=
  [ (500, XrefStream (mkReference 4 0) 640
            [x00; x00; x00; xff;  x01; x00; x10; x00;
             x02; x00; x01; x00;  x02; x00; x01; x01]
            [(0, 4)] [1; 2; 1]) ].

Definition stream_cache : XRefCache :=
  match _read_xrefs stream_sections with
  | Ok c => c
  | Raise _ => XRefCache_init
  end.

(** The file of [sample_sections] with a pointer to the newest table that
    is one byte early: the loop spends a turn on adjusting it. *)
Definition recovered_sections : list (Z * xref_section) :=
  (899, MisplacedPointer) :: sample_sections.

Definition recovered_cache : XRefCache :=
  match _read_xrefs recovered_sections with
  | Ok c => c
  | Raise _ => XRefCache_init
  end.

(** *** Reading the end of a file backwards *)

(** What [read_next_end_line] and [process_data_at_eof] raise: the
    messages of their [PdfReadError] ("Could not read malformed PDF file",
    "EOL marker not found", "EOF marker not found", "startxref not found"),
    the [TypeError] of [ord(b'')], the [ValueError] of [int], and the error
    of a [seek] to before the start of the stream. *)
Inductive line_exn :=
| MalformedFile
| EOLMarkerNotFound
| EOFMarkerNotFound
| StartxrefNotFound
| OrdOfNoByte
| IntValueError
| SeekBeforeStart.

(** A seekable binary stream: its bytes, and the position that [tell()]
    returns. *)
Record stream := mkStream { contents : bytes; position : nat }.

(** [stream.read(1)]: the byte at the position, which moves on, or [b'']
    at the end. *)
Definition read1 (s : stream) : option byte * stream :=
  match contents s !! position s with
  | Some b => (Some b, mkStream (contents s) (S (position s)))
  | None => (None, s)
  end.

(** [stream.seek(offset, os.SEEK_CUR)] *)
Definition seek_cur (offset : Z) (s : stream) : line_exn + stream :=
  if bool_decide (0 ≤ Z.of_nat (position s) + offset) then
    inr (mkStream (contents s) (Z.to_nat (Z.of_nat (position s) + offset)))
  else inl SeekBeforeStart.

(** [x == b'\n' or x == b'\r'] *)
Definition is_eol (x : option byte) : bool :=
  bool_decide (x = Some x0a ∨ x = Some x0d).

(** One turn of the first loop of [_build]: it raises, breaks on the end of
    line [x], or yields a byte. *)
Inductive build_turn :=
| Throw (e : line_exn)
| Break (x : option byte) (s : stream)
| Yield (digit : byte) (s : stream).

Definition build_step (s : stream) : build_turn :=
  if bool_decide (position s = 0%nat) then Throw MalformedFile
  else
    let '(x, s) := read1 s in
    if bool_decide (position s < 2)%nat then Throw EOLMarkerNotFound
    else
      match seek_cur (-2) s with
      | inl e => Throw e
      | inr s =>
          if is_eol x then Break x s
          else
            match x with
            | Some digit => Yield digit s
            | None => Throw OrdOfNoByte
            end
      end.

Definition inspect {A} (a : A) : {b | a = b} := exist _ a eq_refl.

(** The first loop of [_build]: what it has yielded, the end of line it
    stopped on, and the stream. *)
Equations? build_loop (s : stream) (yielded : bytes)
    : line_exn + (bytes * option byte * stream)
    by wf (position s) lt :=
build_loop s yielded with inspect (build_step s) := {
  | exist _ (Throw e) _ => inl e
  | exist _ (Break x s') _ => inr (yielded, x, s')
  | exist _ (Yield digit s') Hstep => build_loop s' (yielded ++ [digit]) }.
Proof.
  clear build_loop. revert Hstep. unfold build_step, read1, seek_cur.
  case_bool_decide; [done |].
  destruct (contents s !! position s) as [b|]; simpl;
    repeat (case_bool_decide; simpl; try done);
    try destruct (is_eol (Some b)); try destruct (is_eol None); try done;
    intros [= _ <-]; simpl; lia.
Qed.

(** One turn of the second loop. *)
Definition skip_step (crlf : bool) (s : stream) : line_exn + (option byte * bool * stream) :=
  let '(x, s) := read1 s in
  match (if is_eol x then
           match seek_cur (-1) s with
           | inl e => inl e
           | inr s => inr (true, s)
           end
         else inr (crlf, s)) with
  | inl e => inl e
  | inr (crlf, s) =>
      if bool_decide (position s < 2)%nat then inl EOLMarkerNotFound
      else
        match seek_cur (-2) s with
        | inl e => inl e
        | inr s => inr (x, crlf, s)
        end
  end.

(** The second loop of [_build]: [crlf] and the stream when it ends. *)
Equations? skip_loop (x : option byte) (crlf : bool) (s : stream)
    : line_exn + (bool * stream)
    by wf (position s) lt :=
skip_loop x crlf s with is_eol x := {
  | false => inr (crlf, s)
  | true with inspect (skip_step crlf s) := {
      | exist _ (inl e) _ => inl e
      | exist _ (inr (x', crlf', s')) Hstep => skip_loop x' crlf' s' } }.
Proof.
  clear skip_loop. revert Hstep. unfold skip_step, read1, seek_cur.
  destruct (contents s !! position s) as [b|]; simpl;
    try destruct (is_eol (Some b)); try destruct (is_eol None); simpl;
    repeat (case_bool_decide; simpl; try done);
    intros [= _ _ <-]; simpl; lia.
Qed.

(** [read_next_end_line]: the line, and the stream afterwards. *)
Definition read_next_end_line (s : stream) : line_exn + (bytes * stream) :=
  match build_loop s [] with
  | inl e => inl e
  | inr (yielded, x, s) =>
      match skip_loop x false s with
      | inl e => inl e
      | inr (crlf, s) =>
          match seek_cur (if crlf then 2 else 1) s with
          | inl e => inl e
          | inr s => inr (reverse yielded, s)
          end
      end
  end.

(** [b"%%EOF"] and [b"startxref"] *)
Definition eof_marker : bytes := [x25; x25; x45; x4f; x46].
Definition startxref_word : bytes := [x73; x74; x61; x72; x74; x78; x72; x65; x66].

(** [bytes.strip()]: ASCII white space is taken off both ends. *)
Definition is_space (b : byte) : bool :=
  bool_decide (b ∈ [x20; x09; x0a; x0d; x0b; x0c]).

Fixpoint lstrip (l : bytes) : bytes :=
  match l with
  | b :: l' => if is_space b then lstrip l' else l
  | [] => []
  end.

Definition strip (l : bytes) : bytes := reverse (lstrip (reverse (lstrip l))).

(** [line.startswith(prefix)] *)
Definition startswith (line prefix : bytes) : bool :=
  bool_decide (take (length prefix) line = prefix).

Section eof.

(** [int(line)] on bytes; [None] is its [ValueError]. *)
Variable int_of_bytes : bytes → option Z.

(** The loop of [process_data_at_eof] that looks for the EOF marker, for
    at most [turns] turns; [None] when they do not suffice. *)
Fixpoint find_eof_marker (turns : nat) (last_1k : Z) (line : bytes) (s : stream)
    : option (line_exn + stream) :=
  if bool_decide (Py.slice_to line 5 ≠ eof_marker) then
    match turns with
    | O => None
    | S turns =>
        if bool_decide (Z.of_nat (position s) < last_1k) then Some (inl EOFMarkerNotFound)
        else
          match read_next_end_line s with
          | inl e => Some (inl e)
          | inr (line, s) => find_eof_marker turns last_1k line s
          end
    end
  else Some (inr s).

(** [process_data_at_eof]: the value of [startxref] and the stream
    afterwards.  Every line read moves the stream back, so one turn per
    byte before the position, and one more, are enough for the loop. *)
Definition process_data_at_eof (s : stream) : option (line_exn + Z * stream) :=
  let last_1k := Z.of_nat (position s) - 1024 + 1 in
  match find_eof_marker (S (position s)) last_1k [] s with
  | None => None
  | Some (inl e) => Some (inl e)
  | Some (inr s) =>
      Some
        match read_next_end_line s with
        | inl e => inl e
        | inr (line, s) =>
            match int_of_bytes line with
            | Some startxref =>
                match read_next_end_line s with
                | inl e => inl e
                | inr (line, s) =>
                    if bool_decide (Py.slice_to line 9 ≠ startxref_word)
                    then inl StartxrefNotFound
                    else inr (startxref, s)
                end
            | None =>
                if negb (startswith line startxref_word) then inl StartxrefNotFound
                else
                  match int_of_bytes (strip (drop 9 line)) with
                  | Some startxref => inr (startxref, s)
                  | None => inl IntValueError
                  end
            end
        end
  end.

End eof.

(** The end of a sample file, [b"%a\nstartxref\n12\n%%EOF\n"], and the same
    with CR and LF after the number. *)
Definition sample_tail : bytes :=
  [x25; x61; x0a] ++ startxref_word ++ [x0a; x31; x32; x0a] ++ eof_marker ++ [x0a].

Definition sample_tail_crlf : bytes :=
  [x25; x61; x0a] ++ startxref_word ++ [x0a; x31; x32; x0d; x0a] ++ eof_marker.

(** A stand-in for [int] to run the model on: decimal digits only. *)
Definition decimal_int (line : bytes) : option Z :=
  if bool_decide (line ≠ [] ∧ Forall (λ b, 0x30 ≤ byte_val b ≤ 0x39) line) then
    Some (fold_left (λ acc b, 10 * acc + (byte_val b - 0x30)) line 0)
  else None.

End Reader.

(** ** crypt.py: key derivation, crypt filters, the standard handler *)

Module Crypt.

(** *** Bytes *)

Definition byte_of_N (n : N) : byte := default x00 (Byte.of_N n).

(** The byte of value [z mod 256]. *)
Definition byte_of_Z (z : Z) : byte := byte_of_N (Z.to_N (z mod 256)).

(** [a ^ b] on two bytes. *)
Definition byte_xor (a b : byte) : byte :=
  byte_of_N (N.lxor (Byte.to_N a) (Byte.to_N b)).

(** Byte-wise xor of two strings, as long as the shorter one. *)
Fixpoint xor_bytes (a b : bytes) : bytes :=
  match a, b with
  | x :: a', y :: b' => byte_xor x y :: xor_bytes a' b'
  | _, _ => []
  end.

(** [struct.pack('<i', p)]: four bytes, low-order first, two's complement;
    [struct.error] outside the signed 32-bit range. *)
Definition struct_pack_i_le (p : Z) : result bytes :=
  if bool_decide (- 2 ^ 31 ≤ p < 2 ^ 31) then
    let u := p mod 2 ^ 32 in
    Ok [byte_of_Z u; byte_of_Z (u / 2 ^ 8); byte_of_Z (u / 2 ^ 16); byte_of_Z (u / 2 ^ 24)]
  else Raise StructError.

(** [struct.unpack('<i', d)[0]] *)
Definition struct_unpack_i_le (d : bytes) : result Z :=
  match d with
  | [b0; b1; b2; b3] =>
      let u := byte_val b0 + 2 ^ 8 * byte_val b1 + 2 ^ 16 * byte_val b2
               + 2 ^ 24 * byte_val b3 in
      Ok (if bool_decide (u < 2 ^ 31) then u else u - 2 ^ 32)
  | _ => Raise StructError
  end.

(** *** The primitives of [hashlib] and of [oscrypto] *)

(** A Python [str], by code points. *)
Abbreviation str := (list Z).

(** The hash functions, the block cipher under [oscrypto.symmetric]'s AES
    functions, RC4, and the two text encoders of the password
    normalisation ([saslprep(...).encode('utf-8')] and
    [generic.encode_pdfdocencoding]). *)
Class Primitives := {
  md5 : bytes → bytes;
  sha256 : bytes → bytes;
  sha384 : bytes → bytes;
  sha512 : bytes → bytes;
  aes_encrypt_block : bytes → bytes → bytes;
  aes_decrypt_block : bytes → bytes → bytes;
  rc4_encrypt : bytes → bytes → bytes;
  saslprep_utf8 : str → result bytes;
  encode_pdfdocencoding : str → result bytes
}.

(** AES takes keys of 16, 24 or 32 bytes. *)
Definition aes_key_ok (key : bytes) : bool :=
  bool_decide (length key = 16 ∨ length key = 24 ∨ length key = 32)%nat.

(** What the proofs use of the primitives: the digest sizes, and that AES
    under a key is a permutation of the 16-byte blocks. *)
Class PrimitiveLaws (P : Primitives) : Prop := {
  md5_length : ∀ m, length (md5 m) = 16%nat;
  sha256_length : ∀ m, length (sha256 m) = 32%nat;
  sha384_length : ∀ m, length (sha384 m) = 48%nat;
  sha512_length : ∀ m, length (sha512 m) = 64%nat;
  aes_encrypt_block_length : ∀ key b,
    aes_key_ok key = true → length b = 16%nat →
    length (aes_encrypt_block key b) = 16%nat;
  aes_decrypt_block_length : ∀ key b,
    aes_key_ok key = true → length b = 16%nat →
    length (aes_decrypt_block key b) = 16%nat;
  aes_decrypt_encrypt_block : ∀ key b,
    aes_key_ok key = true → length b = 16%nat →
    aes_decrypt_block key (aes_encrypt_block key b) = b
}.

Section crypt.
Context {P : Primitives}.

(** *** [oscrypto.symmetric]: AES in CBC mode *)

(** CBC over [n] blocks of [data], chained from [prev]. *)
Fixpoint cbc_encrypt_blocks (n : nat) (key prev data : bytes) : bytes :=
  match n with
  | O => []
  | S n' =>
      let c := aes_encrypt_block key (xor_bytes (take 16 data) prev) in
      c ++ cbc_encrypt_blocks n' key c (drop 16 data)
  end.

Fixpoint cbc_decrypt_blocks (n : nat) (key prev data : bytes) : bytes :=
  match n with
  | O => []
  | S n' =>
      let c := take 16 data in
      xor_bytes (aes_decrypt_block key c) prev
        ++ cbc_decrypt_blocks n' key c (drop 16 data)
  end.

(** PKCS#7: one to sixteen bytes, each holding their number. *)
Definition pkcs7_pad (data : bytes) : bytes :=
  let n := (16 - length data mod 16)%nat in
  data ++ replicate n (byte_of_N (N.of_nat n)).

Definition pkcs7_unpad (padded : bytes) : result bytes :=
  match last padded with
  | None => Raise ValueError
  | Some b =>
      let n := N.to_nat (Byte.to_N b) in
      if bool_decide (1 ≤ n ≤ 16 ∧ n ≤ length padded)%nat
         && bool_decide (drop (length padded - n) padded = replicate n b)
      then Ok (take (length padded - n) padded)
      else Raise ValueError
  end.

(** The checks that the four AES functions share.  (With an empty [iv] the
    encrypting functions draw a random one; every call in [crypt.py] passes
    sixteen bytes.) *)
Definition cbc_arguments_ok (key data iv : bytes) : bool :=
  aes_key_ok key && bool_decide (length iv = 16%nat)
  && bool_decide (length data mod 16 = 0)%nat.

(** [symmetric.aes_cbc_no_padding_encrypt]: the pair of the IV and the
    ciphertext. *)
Definition aes_cbc_no_padding_encrypt (key data iv : bytes) : result (bytes * bytes) :=
  if cbc_arguments_ok key data iv then
    Ok (iv, cbc_encrypt_blocks (length data / 16) key iv data)
  else Raise ValueError.

(** [symmetric.aes_cbc_no_padding_decrypt] *)
Definition aes_cbc_no_padding_decrypt (key data iv : bytes) : result bytes :=
  if cbc_arguments_ok key data iv then
    Ok (cbc_decrypt_blocks (length data / 16) key iv data)
  else Raise ValueError.

(** [symmetric.aes_cbc_pkcs7_encrypt] *)
Definition aes_cbc_pkcs7_encrypt (key data iv : bytes) : result (bytes * bytes) :=
  aes_cbc_no_padding_encrypt key (pkcs7_pad data) iv.

(** [symmetric.aes_cbc_pkcs7_decrypt] *)
Definition aes_cbc_pkcs7_decrypt (key data iv : bytes) : result bytes :=
  padded ← aes_cbc_no_padding_decrypt key data iv;
  pkcs7_unpad padded.

(** *** [AESCryptFilterMixin] *)

Inductive cfm_name := CFM_None | CFM_V2 | CFM_AESV2 | CFM_AESV3.

Record AESCryptFilter := mkAESCryptFilter { aes_keylen : Z; aes_method : cfm_name }.

(** [AESCryptFilterMixin.__init__] *)
Definition AESCryptFilterMixin_init (keylen : Z) : result AESCryptFilter :=
  if bool_decide (keylen = 16 ∨ keylen = 32) then
    Ok (mkAESCryptFilter keylen (if bool_decide (keylen = 16) then CFM_AESV2 else CFM_AESV3))
  else Raise NotImplementedError.

(** [AESCryptFilterMixin.encrypt]; [token_bytes_16] is what
    [secrets.token_bytes(16)] returns in the call. *)
Definition aes_filter_encrypt (self : AESCryptFilter) (token_bytes_16 : bytes)
    (key plaintext : bytes) : result bytes :=
  '(iv, ciphertext) ← aes_cbc_pkcs7_encrypt key plaintext token_bytes_16;
  Ok (iv ++ ciphertext).

(** [AESCryptFilterMixin.decrypt] *)
Definition aes_filter_decrypt (self : AESCryptFilter) (key ciphertext : bytes) : result bytes :=
  let iv := Py.slice_to ciphertext 16 in
  let data := Py.slice_from ciphertext 16 in
  aes_cbc_pkcs7_decrypt key data iv.

(** *** Legacy key derivation *)

Definition _encryption_padding : bytes :=
  [x28; xbf; x4e; x5e; x4e; x75; x8a; x41; x64; x00; x4e; x56;
   xff; xfa; x01; x08; x2e; x2e; x00; xb6; xd0; x68; x3e; x80; x2f; x0c;
   xa9; xfe; x64; x53; x69; x7a].

(** A [hashlib] object is the input it has been fed: [update] appends,
    [digest] hashes the whole. *)
Definition hash_update (m data : bytes) : bytes := m ++ data.

(** [for i in range(n): x = step(x)] *)
Definition repeat_times {A} (n : nat) (step : A → A) (x : A) : A :=
  fold_left (λ x _, step x) (seq 0 n) x.

(** [_derive_legacy_file_key] (algorithm 3.2) *)
Definition _derive_legacy_file_key (password : bytes) (rev keylen : Z)
    (owner_entry : bytes) (p_entry : Z) (id1_entry : bytes)
    (metadata_encrypt : bool) : result bytes :=
  let password := Py.slice_to (password ++ _encryption_padding) 32 in
  let m := password in
  let m := hash_update m owner_entry in
  p_entry ← struct_pack_i_le p_entry;
  let m := hash_update m p_entry in
  let m := hash_update m id1_entry in
  let m :=
    if bool_decide (rev >= 4) && negb metadata_encrypt
    then hash_update m [xff; xff; xff; xff] else m in
  let md5_hash := md5 m in
  let md5_hash :=
    if bool_decide (rev >= 3)
    then repeat_times 50 (λ md5_hash, md5 (Py.slice_to md5_hash keylen)) md5_hash
    else md5_hash in
  Ok (Py.slice_to md5_hash keylen).

(** [symmetric.rc4_encrypt]: keys of 5 to 16 bytes. *)
Definition symmetric_rc4_encrypt (key data : bytes) : result bytes :=
  if bool_decide (5 ≤ length key ≤ 16)%nat then Ok (rc4_encrypt key data)
  else Raise ValueError.

(** [bytes(b ^ i for b in key)] *)
Definition xor_key (key : bytes) (i : Z) : bytes :=
  map (λ b, byte_xor b (byte_of_Z i)) key.

(** A [for] loop over [indices] whose body may raise. *)
Definition rc4_rounds (key : bytes) (indices : list Z) (val : bytes) : result bytes :=
  Reader.for_each (λ i val, symmetric_rc4_encrypt (xor_key key i) val) indices val.

(** [_compute_o_value_legacy_prep] (steps 1 to 4 of algorithm 3.3) *)
Definition _compute_o_value_legacy_prep (password : bytes) (rev keylen : Z) : bytes :=
  let password := Py.slice_to (password ++ _encryption_padding) 32 in
  let md5_hash := md5 password in
  let md5_hash :=
    if bool_decide (rev >= 3) then repeat_times 50 md5 md5_hash else md5_hash in
  Py.slice_to md5_hash keylen.

(** [_compute_u_value_r2] (algorithm 3.4); the metadata flag of
    [_derive_legacy_file_key] is left at its default. *)
Definition _compute_u_value_r2 (password owner_entry : bytes) (p_entry : Z)
    (id1_entry : bytes) : result (bytes * bytes) :=
  key ← _derive_legacy_file_key password 2 5 owner_entry p_entry id1_entry true;
  u ← symmetric_rc4_encrypt key _encryption_padding;
  Ok (u, key).

(** [_compute_u_value_r34] (algorithm 3.5) *)
Definition _compute_u_value_r34 (password : bytes) (rev keylen : Z)
    (owner_entry : bytes) (p_entry : Z) (id1_entry : bytes) : result (bytes * bytes) :=
  key ← _derive_legacy_file_key password rev keylen owner_entry p_entry id1_entry true;
  let m := hash_update [] _encryption_padding in
  let m := hash_update m id1_entry in
  let md5_hash := md5 m in
  val ← symmetric_rc4_encrypt key md5_hash;
  val ← rc4_rounds key (seqZ 1 19) val;
  Ok (val ++ replicate 16 x00, key).

(** *** Revision 6 *)

Record _R6KeyEntry := mkR6KeyEntry {
  hash_value : bytes;
  validation_salt : bytes;
  key_salt : bytes
}.

(** [_R6KeyEntry.from_bytes] *)
Definition _R6KeyEntry_from_bytes (entry : bytes) : result _R6KeyEntry :=
  if bool_decide (length entry = 48%nat) then
    Ok (mkR6KeyEntry (Py.slice_to entry 32) (Py.slice entry 32 40) (Py.slice entry 40 48))
  else Raise AssertionError.

(** A password as the caller gives it. *)
Inductive credential :=
| CredStr (s : str)
| CredBytes (b : bytes).

(** [_legacy_normalise_pw] *)
Definition _legacy_normalise_pw (password : credential) : result bytes :=
  match password with
  | CredStr s => encode_pdfdocencoding (Py.slice_to s 32)
  | CredBytes b => Ok (Py.slice_to b 32)
  end.

(** [_r6_normalise_pw] *)
Definition _r6_normalise_pw (password : credential) : result bytes :=
  password ← match password with
             | CredStr s => saslprep_utf8 s
             | CredBytes b => Ok b
             end;
  Ok (Py.slice_to password 127).

(** [_bytes_mod_3] *)
Definition _bytes_mod_3 (input_bytes : bytes) : Z :=
  fold_right (λ b acc, byte_val b mod 3 + acc) 0 input_bytes mod 3.

(** [u_entry or b''] *)
Definition or_empty (u_entry : option bytes) : bytes := default [] u_entry.

(** The body of the loop of [_r6_hash_algo]: the next [k], and the last
    byte of [e]. *)
Definition r6_round (pw_bytes : bytes) (u_entry : option bytes) (k : bytes) : result (bytes * byte) :=
  let k1 := Py.repeat_seq (pw_bytes ++ k ++ or_empty u_entry) 64 in
  '(_, e) ← aes_cbc_no_padding_encrypt (Py.slice_to k 16) k1 (Py.slice k 16 32);
  next_hash ← Py.index [sha256; sha384; sha512] (_bytes_mod_3 (Py.slice_to e 16));
  let k := next_hash e in
  last_byte_val ← Py.index e (Z.of_nat (length e) - 1);
  Ok (k, last_byte_val).

(** The [while] loop of [_r6_hash_algo].  A byte is at most 255, so the
    condition fails from round 287 on: the rounds left up to 288 decrease. *)
Equations? r6_loop (pw_bytes : bytes) (u_entry : option bytes) (k : bytes)
    (round_no : Z) (last_byte_val : byte) : result bytes
    by wf (Z.to_nat (288 - round_no)) lt :=
r6_loop pw_bytes u_entry k round_no last_byte_val
    with decide (round_no < 64 ∨ byte_val last_byte_val > round_no - 32) := {
  | left Hcond with r6_round pw_bytes u_entry k := {
      | Ok (k', last_byte_val') =>
          r6_loop pw_bytes u_entry k' (round_no + 1) last_byte_val'
      | Raise e => Raise e };
  | right _ => Ok (Py.slice_to k 32) }.
Proof.
  unfold byte_val in *. pose proof (Byte.to_N_bounded last_byte_val). lia.
Qed.

(** [_r6_hash_algo] (algorithm 2.B of ISO 32000-2) *)
Definition _r6_hash_algo (pw_bytes current_salt : bytes) (u_entry : option bytes) : result bytes :=
  let initial_hash := pw_bytes in
  if bool_decide (length current_salt ≠ 8%nat) then Raise AssertionError
  else
    let initial_hash := hash_update initial_hash current_salt in
    initial_hash ←
      match u_entry with
      | Some (b :: u') =>
          if bool_decide (length (b :: u') ≠ 48%nat) then Raise AssertionError
          else Ok (hash_update initial_hash (b :: u'))
      | _ => Ok initial_hash
      end;
    let k := sha256 initial_hash in
    r6_loop pw_bytes u_entry k 0 x00.

(** [_r6_password_authenticate] *)
Definition _r6_password_authenticate (pw_bytes : bytes) (entry : _R6KeyEntry)
    (u_entry : option bytes) : result bool :=
  purported_hash ← _r6_hash_algo pw_bytes (validation_salt entry) u_entry;
  Ok (bool_decide (purported_hash = hash_value entry)).

(** [_r6_derive_file_key] *)
Definition _r6_derive_file_key (pw_bytes : bytes) (entry : _R6KeyEntry)
    (e_entry : bytes) (u_entry : option bytes) : result bytes :=
  interm_key ← _r6_hash_algo pw_bytes (key_salt entry) u_entry;
  if bool_decide (length e_entry = 32%nat) then
    aes_cbc_no_padding_decrypt interm_key e_entry (replicate 16 x00)
  else Raise AssertionError.

(** [_EXPECTED_PERMS_8]: the lookup raises [KeyError] on other bytes. *)
Definition _EXPECTED_PERMS_8 (b : byte) : option bool :=
  if bool_decide (byte_val b = 0x54) then Some true
  else if bool_decide (byte_val b = 0x46) then Some false
  else None.

(** *** The standard security handler *)

Inductive AuthResult := FAILED | USER | OWNER.

Inductive StandardSecuritySettingsRevision :=
| RC4_BASIC | RC4_EXTENDED | RC4_OR_AES128 | AES256.

Definition revision_value (r : StandardSecuritySettingsRevision) : Z :=
  match r with RC4_BASIC => 2 | RC4_EXTENDED => 3 | RC4_OR_AES128 => 4 | AES256 => 6 end.

Inductive SecurityHandlerVersion :=
| V_RC4_40 | V_RC4_LONGER_KEYS | V_RC4_OR_AES128 | V_AES256 | V_OTHER.

(** The attributes of a [StandardSecurityHandler] that authentication reads
    and writes.  [oeseed], [ueseed] and [encrypted_perms] are [None] in a
    legacy handler. *)
Record StandardSecurityHandler := mkHandler {
  version : SecurityHandlerVersion;
  revision : StandardSecuritySettingsRevision;
  keylen : Z;
  perms : Z;
  odata : bytes;
  udata : bytes;
  oeseed : option bytes;
  ueseed : option bytes;
  encrypted_perms : option bytes;
  encrypt_metadata : bool;
  _shared_key : option bytes;
  _auth_failed : bool
}.

Definition set_shared_key (key : option bytes) (self : StandardSecurityHandler) : StandardSecurityHandler :=
  mkHandler (version self) (revision self) (keylen self) (perms self)
    (odata self) (udata self) (oeseed self) (ueseed self)
    (encrypted_perms self) (encrypt_metadata self) key (_auth_failed self).

Definition set_auth_failed (flag : bool) (self : StandardSecurityHandler) : StandardSecurityHandler :=
  mkHandler (version self) (revision self) (keylen self) (perms self)
    (odata self) (udata self) (oeseed self) (ueseed self)
    (encrypted_perms self) (encrypt_metadata self) (_shared_key self) flag.

(** An attribute that holds bytes or [None], where bytes are needed. *)
Definition required (attr : option bytes) : result bytes :=
  match attr with Some b => Ok b | None => Raise TypeError end.

(** [StandardSecurityHandler._auth_user_password_legacy] *)
Definition _auth_user_password_legacy (self : StandardSecurityHandler)
    (id1 password : bytes) : result (bool * bytes) :=
  let rev := revision self in
  let user_token := udata self in
  match rev with
  | RC4_BASIC =>
      '(user_tok_supplied, key) ←
        _compute_u_value_r2 password (odata self) (perms self) id1;
      Ok (bool_decide (user_tok_supplied = user_token), key)
  | _ =>
      '(user_tok_supplied, key) ←
        _compute_u_value_r34 password (revision_value rev) (keylen self)
          (odata self) (perms self) id1;
      let user_tok_supplied := Py.slice_to user_tok_supplied 16 in
      let user_token := Py.slice_to user_token 16 in
      Ok (bool_decide (user_tok_supplied = user_token), key)
  end.

(** [StandardSecurityHandler._authenticate_legacy] *)
Definition _authenticate_legacy (self : StandardSecurityHandler)
    (id1 password : bytes) : result (AuthResult * option bytes) :=
  '(user_password, key) ← _auth_user_password_legacy self id1 password;
  if (user_password : bool) then Ok (USER, Some key)
  else
    let rev := revision self in
    let key := _compute_o_value_legacy_prep password (revision_value rev) (keylen self) in
    userpass ←
      match rev with
      | RC4_BASIC => symmetric_rc4_encrypt key (odata self)
      | _ => rc4_rounds key (reverse (seqZ 0 20)) (odata self)
      end;
    '(owner_password, key) ← _auth_user_password_legacy self id1 userpass;
    if (owner_password : bool) then Ok (OWNER, Some key)
    else Ok (FAILED, None).

(** The check of [/Perms] in [_authenticate_r6]: the value of [perms_ok]. *)
Definition perms_ok (self : StandardSecurityHandler) (decrypted_p_entry : bytes) : result bool :=
  let perms_ok := bool_decide (Py.slice decrypted_p_entry 9 12 = [x61; x64; x62]) in
  unpacked ← struct_unpack_i_le (Py.slice_to decrypted_p_entry 4);
  let perms_ok := perms_ok && bool_decide (perms self = unpacked) in
  byte8 ← Py.index decrypted_p_entry 8;
  Ok match _EXPECTED_PERMS_8 byte8 with
     | Some decr_metadata_flag =>
         perms_ok && bool_decide (decr_metadata_flag = encrypt_metadata self)
     | None => false
     end.

(** [StandardSecurityHandler._authenticate_r6] (algorithm 2.A) *)
Definition _authenticate_r6 (self : StandardSecurityHandler)
    (password : credential) : result (AuthResult * option bytes) :=
  pw_bytes ← _r6_normalise_pw password;
  o_entry_split ← _R6KeyEntry_from_bytes (odata self);
  u_entry_split ← _R6KeyEntry_from_bytes (udata self);
  owner_matches ← _r6_password_authenticate pw_bytes o_entry_split (Some (udata self));
  found ←
    (if (owner_matches : bool) then
       oeseed ← required (oeseed self);
       key ← _r6_derive_file_key pw_bytes o_entry_split oeseed (Some (udata self));
       Ok (Some (OWNER, key))
     else
       user_matches ← _r6_password_authenticate pw_bytes u_entry_split None;
       if (user_matches : bool) then
         ueseed ← required (ueseed self);
         key ← _r6_derive_file_key pw_bytes u_entry_split ueseed None;
         Ok (Some (USER, key))
       else Ok None);
  match found with
  | None => Ok (FAILED, None)
  | Some (auth_result, key) =>
      encrypted_perms ← required (encrypted_perms self);
      decrypted_p_entry ←
        aes_cbc_no_padding_decrypt key encrypted_perms (replicate 16 x00);
      perms_ok ← perms_ok self decrypted_p_entry;
      if negb perms_ok then Raise (PdfError PermsTampered)
      else Ok (auth_result, Some key)
  end.

(** [StandardSecurityHandler.authenticate]: the value returned or the
    exception raised, and the handler afterwards. *)
Definition authenticate (self : StandardSecurityHandler) (credential : credential)
    (id1 : option bytes) : result AuthResult * StandardSecurityHandler :=
  let outcome :=
    match revision self with
    | AES256 => _authenticate_r6 self credential
    | _ =>
        match id1 with
        | None => Raise ValueError
        | Some id1 =>
            credential ← _legacy_normalise_pw credential;
            _authenticate_legacy self id1 credential
        end
    end in
  match outcome with
  | Raise e => (Raise e, self)
  | Ok (res, Some key) => (Ok res, set_shared_key (Some key) self)
  | Ok (res, None) => (Ok res, set_auth_failed true self)
  end.

(** [StandardSecurityHandler.get_file_encryption_key] *)
Definition get_file_encryption_key (self : StandardSecurityHandler) : result bytes :=
  match _shared_key self with
  | Some key => Ok key
  | None =>
      Raise (PdfReadError (if _auth_failed self then AuthenticationFailed else NoKeyAvailable))
  end.

End crypt.

(** *** Crypt filters: the lazily derived shared key *)

(** The two members that [CryptFilter] leaves to its subclasses, as
    functions of what they read ([E]: the handler the filter is tied to, or
    the filter's own attributes). *)
Class CryptFilterMethods (E : Type) := {
  cf_auth_failed : E → result bool;
  derive_shared_encryption_key : E → result bytes
}.

(** The attribute [_shared_key] of a crypt filter, and a count, kept for
    the statements only, of the calls of [derive_shared_encryption_key]
    that accesses to [shared_key] have made. *)
Record CryptFilter := mkCryptFilter {
  cf_shared_key : option bytes;
  derivations : nat
}.

(** [CryptFilter._set_security_handler], on the key *)
Definition _set_security_handler (self : CryptFilter) : CryptFilter :=
  mkCryptFilter None (derivations self).

(** [CryptFilter.shared_key]: the value or the exception, and the filter
    afterwards. *)
Definition shared_key {E} `{CryptFilterMethods E} (env : E) (self : CryptFilter)
    : result bytes * CryptFilter :=
  match cf_shared_key self with
  | Some key => (Ok key, self)
  | None =>
      match cf_auth_failed env with
      | Raise e => (Raise e, self)
      | Ok true => (Raise (PdfReadError AuthenticationFailed), self)
      | Ok false =>
          let self := mkCryptFilter (cf_shared_key self) (S (derivations self)) in
          match derive_shared_encryption_key env with
          | Ok key => (Ok key, mkCryptFilter (Some key) (derivations self))
          | Raise e => (Raise e, self)
          end
      end
  end.

(** [StandardCryptFilter]: both members defer to the handler, if it is a
    [StandardSecurityHandler]. *)
#[global] Instance StandardCryptFilter `{Primitives}
    : CryptFilterMethods (option StandardSecurityHandler) := {
  cf_auth_failed handler :=
    match handler with
    | Some h => Ok (_auth_failed h)
    | None => Raise NotImplementedError
    end;
  derive_shared_encryption_key handler :=
    match handler with
    | Some h => get_file_encryption_key h
    | None => Raise AttributeError
    end
}.

(** [IdentityCryptFilter] *)
#[global] Instance IdentityCryptFilter : CryptFilterMethods unit := {
  cf_auth_failed _ := Ok false;
  derive_shared_encryption_key _ := Ok []
}.

(** A handler and a [StandardCryptFilter] tied to it. *)
Record Session := mkSession {
  handler : StandardSecurityHandler;
  std_filter : CryptFilter
}.

(** The calls that a reader makes on them. *)
Inductive call :=
| Authenticate (cred : credential) (id1 : option bytes)
| GetFileEncryptionKey
| SharedKey.

Definition run_call `{Primitives} (s : Session) (c : call) : Session :=
  match c with
  | Authenticate cred id1 =>
      mkSession (authenticate (handler s) cred id1).2 (std_filter s)
  | GetFileEncryptionKey => s
  | SharedKey =>
      mkSession (handler s) (shared_key (Some (handler s)) (std_filter s)).2
  end.

(** The state [(k, last_byte_val)] of the loop after [n] more rounds. *)
Fixpoint r6_rounds_from `{Primitives} (pw_bytes : bytes) (u_entry : option bytes)
    (n : nat) (st : bytes * byte) : result (bytes * byte) :=
  match n with
  | O => Ok st
  | S n' => st' ← r6_round pw_bytes u_entry st.1; r6_rounds_from pw_bytes u_entry n' st'
  end.

(** The condition of the [while] loop of [_r6_hash_algo]. *)
Definition r6_continues (round_no : Z) (last_byte_val : byte) : Prop :=
  round_no < 64 ∨ byte_val last_byte_val > round_no - 32.

(** *** Building a revision 6 handler *)

Section r6_handler.
Context `{P : Primitives}.

(** [value <= SecurityHandlerVersion.RC4_OR_AES128] on the ordered enum
    (the values are 1, 2, 4 and 5). *)
Definition version_le_RC4_OR_AES128 (v : SecurityHandlerVersion) : bool :=
  match v with V_RC4_40 | V_RC4_LONGER_KEYS | V_RC4_OR_AES128 => true | _ => false end.

(** [not b] on bytes or [None]. *)
Definition is_falsy (attr : option bytes) : bool :=
  match attr with Some (_ :: _) => false | _ => true end.

Definition length_is (n : nat) (attr : option bytes) : bool :=
  match attr with Some b => bool_decide (length b = n) | None => false end.

(** [StandardSecurityHandler.__init__], with [has_config] telling whether a
    crypt filter configuration is passed; the configuration itself is not
    part of the model. *)
Definition StandardSecurityHandler_init (version : SecurityHandlerVersion)
    (revision : StandardSecuritySettingsRevision) (legacy_keylen perm_flags : Z)
    (odata udata : bytes) (oeseed ueseed encrypted_perms : option bytes)
    (encrypt_metadata has_config : bool) : result StandardSecurityHandler :=
  let has_config :=
    has_config
    || match version with V_RC4_40 | V_RC4_LONGER_KEYS | V_AES256 => true | _ => false end in
  legacy_keylen ←
    match version with
    | V_RC4_40 => Ok 5
    | _ =>
        if negb (bool_decide (5 ≤ legacy_keylen ≤ 16)) && version_le_RC4_OR_AES128 version
        then Raise (PdfError KeyLengthOutOfRange)
        else match version with V_AES256 => Ok 32 | _ => Ok legacy_keylen end
    end;
  if negb has_config then Raise (PdfError NoCryptFilterConfiguration)
  else
    match revision with
    | AES256 =>
        if negb (bool_decide (length udata = 48%nat ∧ length odata = 48%nat)) then
          Raise (PdfError BadEntryLength)
        else if is_falsy oeseed || is_falsy ueseed
                || negb (length_is 32 oeseed && length_is 32 ueseed) then
          Raise (PdfError BadEntryLength)
        else if is_falsy encrypted_perms || negb (length_is 16 encrypted_perms) then
          Raise (PdfError BadEntryLength)
        else
          Ok (mkHandler version revision legacy_keylen perm_flags odata udata
                oeseed ueseed encrypted_perms encrypt_metadata None false)
    | _ =>
        if negb (bool_decide (length udata = 32%nat ∧ length odata = 32%nat)) then
          Raise (PdfError BadEntryLength)
        else
          Ok (mkHandler version revision legacy_keylen perm_flags odata udata
                None None None encrypt_metadata None false)
    end.

(** What [build_from_pw] draws from [secrets.token_bytes]. *)
Record build_tokens := mkTokens {
  tok_encryption_key : bytes;
  tok_u_validation_salt : bytes;
  tok_u_key_salt : bytes;
  tok_o_validation_salt : bytes;
  tok_o_key_salt : bytes;
  tok_perms_tail : bytes
}.

(** [StandardSecurityHandler.build_from_pw] *)
Definition build_from_pw (tok : build_tokens) (desired_owner_pass : credential)
    (desired_user_pass : option credential) : result StandardSecurityHandler :=
  owner_pw_bytes ← _r6_normalise_pw desired_owner_pass;
  user_pw_bytes ←
    match desired_user_pass with
    | Some pw => _r6_normalise_pw pw
    | None => Ok owner_pw_bytes
    end;
  let encryption_key := tok_encryption_key tok in
  let u_validation_salt := tok_u_validation_salt tok in
  let u_key_salt := tok_u_key_salt tok in
  u_hash ← _r6_hash_algo user_pw_bytes u_validation_salt None;
  let u_entry := u_hash ++ u_validation_salt ++ u_key_salt in
  u_interm_key ← _r6_hash_algo user_pw_bytes u_key_salt None;
  '(_, ue_seed) ← aes_cbc_no_padding_encrypt u_interm_key encryption_key (replicate 16 x00);
  if negb (bool_decide (length ue_seed = 32%nat)) then Raise AssertionError
  else
    let o_validation_salt := tok_o_validation_salt tok in
    let o_key_salt := tok_o_key_salt tok in
    o_hash ← _r6_hash_algo owner_pw_bytes o_validation_salt (Some u_entry);
    let o_entry := o_hash ++ o_validation_salt ++ o_key_salt in
    o_interm_key ← _r6_hash_algo owner_pw_bytes o_key_salt (Some u_entry);
    '(_, oe_seed) ← aes_cbc_no_padding_encrypt o_interm_key encryption_key (replicate 16 x00);
    if negb (bool_decide (length oe_seed = 32%nat)) then Raise AssertionError
    else
      let perms_bytes := [xfc; xff; xff; xff] in
      let extd_perms_bytes :=
        perms_bytes ++ replicate 4 xff ++ [x54; x61; x64; x62] ++ tok_perms_tail tok in
      perms ← struct_unpack_i_le perms_bytes;
      '(_, encrypted_perms) ←
        aes_cbc_pkcs7_encrypt encryption_key extd_perms_bytes (replicate 16 x00);
      let encrypted_perms := Py.slice_to encrypted_perms 16 in
      sh ← StandardSecurityHandler_init V_AES256 AES256 32 perms o_entry u_entry
             (Some oe_seed) (Some ue_seed) (Some encrypted_perms) true false;
      Ok (set_shared_key (Some encryption_key) sh).

(** What [__init__] checks of a revision 6 handler. *)
Definition r6_handler_wf (self : StandardSecurityHandler) : Prop :=
  length (odata self) = 48%nat ∧ length (udata self) = 48%nat
  ∧ length_is 32 (oeseed self) = true ∧ length_is 32 (ueseed self) = true
  ∧ length_is 16 (encrypted_perms self) = true.

(** *** The check of [/Perms], stated from the specification *)

(** Bytes 9 to 11 are "adb"; the first four bytes, little-endian and
    signed, are the stored permission flags; byte 8 is 'T' when metadata is
    encrypted and 'F' when it is not. *)
Definition perms_entry_valid (self : StandardSecurityHandler) (d : bytes) : bool :=
  bool_decide
    (d !! 9%nat = Some x61 ∧ d !! 10%nat = Some x64 ∧ d !! 11%nat = Some x62
     ∧ struct_unpack_i_le (take 4 d) = Ok (perms self)
     ∧ d !! 8%nat = Some (if encrypt_metadata self then x54 else x46)).

End r6_handler.

(** *** The legacy file key, stated from the specification *)

(** The four bytes of [p] as a 32-bit two's complement integer, low-order
    byte first. *)
Definition le32_signed (p : Z) : bytes :=
  [byte_of_Z p; byte_of_Z (p / 2 ^ 8); byte_of_Z (p / 2 ^ 16); byte_of_Z (p / 2 ^ 24)].

(** MD5 of the padded password, the [/O] entry, the permissions, the first
    ID element and, for revision 4 and up with metadata left in the clear,
    four bytes [0xFF]; for revision 3 and up, fifty more rounds of MD5 over
    the first [keylen] bytes of the digest; the first [keylen] bytes of the
    last digest. *)
Definition legacy_file_key_spec `{Primitives} (padded_password : bytes) (rev : Z)
    (keylen : nat) (o_entry : bytes) (p : Z) (id1 : bytes)
    (metadata_encrypt : bool) : bytes :=
  let tail :=
    if bool_decide (4 ≤ rev) && negb metadata_encrypt then [xff; xff; xff; xff] else [] in
  let digest := md5 (padded_password ++ o_entry ++ le32_signed p ++ id1 ++ tail) in
  let digest :=
    if bool_decide (3 ≤ rev) then Nat.iter 50 (λ d, md5 (take keylen d)) digest
    else digest in
  take keylen digest.

(** What the proofs use of RC4: under a key that [oscrypto] accepts it
    keeps the length of the data and is its own inverse. *)
Class RC4Laws (P : Primitives) : Prop := {
  rc4_encrypt_length : ∀ key data,
    (5 ≤ length key ≤ 16)%nat → length (rc4_encrypt key data) = length data;
  rc4_encrypt_involutive : ∀ key data,
    (5 ≤ length key ≤ 16)%nat → rc4_encrypt key (rc4_encrypt key data) = data
}.

Section legacy.
Context `{P : Primitives}.

(** *** The [/O] entry and the keys of objects *)

(** [_compute_o_value_legacy] (algorithm 3.3) *)
Definition _compute_o_value_legacy (owner_pwd user_pwd : bytes) (rev keylen : Z) : result bytes :=
  let key := _compute_o_value_legacy_prep owner_pwd rev keylen in
  let user_pwd := Py.slice_to (user_pwd ++ _encryption_padding) 32 in
  val ← symmetric_rc4_encrypt key user_pwd;
  if bool_decide (rev >= 3) then rc4_rounds key (seqZ 1 19) val else Ok val.

(** [legacy_derive_object_key] *)
Definition legacy_derive_object_key (shared_key : bytes) (idnum generation : Z)
    (use_aes : bool) : result bytes :=
  pack1 ← struct_pack_i_le idnum;
  let pack1 := Py.slice_to pack1 3 in
  pack2 ← struct_pack_i_le generation;
  let pack2 := Py.slice_to pack2 2 in
  let key := shared_key ++ pack1 ++ pack2 in
  if negb (bool_decide (length key = (length shared_key + 5)%nat)) then Raise AssertionError
  else
    let key := if use_aes then key ++ [x73; x41; x6c; x54] else key in
    let md5_hash := md5 key in
    Ok (Py.slice_to md5_hash (Z.min 16 (Z.of_nat (length shared_key) + 5))).

(** *** [RC4CryptFilterMixin] *)

(** [RC4CryptFilterMixin.encrypt] *)
Definition rc4_filter_encrypt (key plaintext : bytes) : result bytes :=
  symmetric_rc4_encrypt key plaintext.

(** [RC4CryptFilterMixin.decrypt] *)
Definition rc4_filter_decrypt (key ciphertext : bytes) : result bytes :=
  symmetric_rc4_encrypt key ciphertext.

(** [RC4CryptFilterMixin.derive_object_key]: the key or the exception, and
    the filter after the access to [shared_key]. *)
Definition rc4_derive_object_key {E} `{CryptFilterMethods E} (env : E) (self : CryptFilter)
    (idnum generation : Z) : result bytes * CryptFilter :=
  let '(key, self) := shared_key env self in
  (key ← key; legacy_derive_object_key key idnum generation false, self).

(** *** Building a legacy handler *)

(** [ALL_PERMS] *)
Definition ALL_PERMS : Z := -4.

(** [StandardSecurityHandler.build_from_pw_legacy]; [crypt_filter_config]
    tells whether a configuration is passed. *)
Definition build_from_pw_legacy (rev : StandardSecuritySettingsRevision) (id1 : bytes)
    (desired_owner_pass : credential) (desired_user_pass : option credential)
    (keylen_bytes : Z) (use_aes128 crypt_filter_config : bool)
    : result StandardSecurityHandler :=
  desired_owner_pass ← _legacy_normalise_pw desired_owner_pass;
  desired_user_pass ←
    match desired_user_pass with
    | Some pw => _legacy_normalise_pw pw
    | None => Ok desired_owner_pass
    end;
  match rev with
  | AES256 => Raise ValueError
  | _ =>
      let keylen_bytes :=
        match rev with
        | RC4_BASIC => 5
        | RC4_OR_AES128 => if use_aes128 then 16 else keylen_bytes
        | _ => keylen_bytes
        end in
      o_entry ← _compute_o_value_legacy desired_owner_pass desired_user_pass
                  (revision_value rev) keylen_bytes;
      let perms := ALL_PERMS in
      '(u_entry, key) ←
        match rev with
        | RC4_BASIC => _compute_u_value_r2 desired_user_pass o_entry perms id1
        | _ => _compute_u_value_r34 desired_user_pass (revision_value rev) keylen_bytes
                 o_entry perms id1
        end;
      let version :=
        match rev with
        | RC4_OR_AES128 => V_RC4_OR_AES128
        | RC4_BASIC => V_RC4_40
        | _ => V_RC4_LONGER_KEYS
        end in
      let crypt_filter_config :=
        match rev with RC4_OR_AES128 => true | _ => crypt_filter_config end in
      sh ← StandardSecurityHandler_init version rev keylen_bytes perms o_entry u_entry
             None None None true crypt_filter_config;
      Ok (set_shared_key (Some key) sh)
  end.

(** The handler with another value of [encrypt_metadata]. *)
Definition set_encrypt_metadata (flag : bool) (self : StandardSecurityHandler)
    : StandardSecurityHandler :=
  mkHandler (version self) (revision self) (keylen self) (perms self)
    (odata self) (udata self) (oeseed self) (ueseed self)
    (encrypted_perms self) flag (_shared_key self) (_auth_failed self).

(** The token of algorithm 3.4 or 3.5 that the handler compares with
    [/U], and the key that comes with it. *)
Definition user_token (self : StandardSecurityHandler) (id1 password : bytes)
    : result (bytes * bytes) :=
  match revision self with
  | RC4_BASIC => _compute_u_value_r2 password (odata self) (perms self) id1
  | _ => _compute_u_value_r34 password (revision_value (revision self)) (keylen self)
           (odata self) (perms self) id1
  end.

End legacy.

(** The sizes that [build_from_pw] asks of [secrets.token_bytes]. *)
Definition tokens_sized (tok : build_tokens) : Prop :=
  length (tok_encryption_key tok) = 32%nat
  ∧ length (tok_u_validation_salt tok) = 8%nat ∧ length (tok_u_key_salt tok) = 8%nat
  ∧ length (tok_o_validation_salt tok) = 8%nat ∧ length (tok_o_key_salt tok) = 8%nat
  ∧ length (tok_perms_tail tok) = 4%nat.

(** *** An instance of the primitives to run the model on

    Stand-ins with the sizes of the real functions: a digest is the head of
    its input, AES xors the block with the head of the key, RC4 xors every
    byte with the first byte of the key, text is encoded code point by code
    point. *)

Definition toy_digest (n : nat) (m : bytes) : bytes := take n (m ++ replicate n x00).

Definition toy_block (key b : bytes) : bytes := xor_bytes b (take 16 key).

#[local] Instance toy_primitives : Primitives := {
  md5 := toy_digest 16;
  sha256 := toy_digest 32;
  sha384 := toy_digest 48;
  sha512 := toy_digest 64;
  aes_encrypt_block := toy_block;
  aes_decrypt_block := toy_block;
  rc4_encrypt key data := map (λ b, byte_xor b (hd x00 key)) data;
  saslprep_utf8 s := Ok (map byte_of_Z s);
  encode_pdfdocencoding s := Ok (map byte_of_Z s)
}.

(** *** Sample handlers *)

(** A revision 2 handler for the user password "user", on the stand-in
    primitives: [/U] is what algorithm 3.4 computes for that password. *)
Definition demo_id1 : bytes := [x00; x11; x22; x33; x44; x55; x66; x77].
Definition demo_odata : bytes := replicate 32 x01.
Definition demo_user_pw : bytes := [x75; x73; x65; x72].
Definition demo_wrong_pw : bytes := [x6e; x6f; x70; x65].

Definition demo_udata : bytes :=
  match _compute_u_value_r2 demo_user_pw demo_odata (-4) demo_id1 with
  | Ok (u, _) => u
  | Raise _ => []
  end.

Definition demo_handler : StandardSecurityHandler :=
  mkHandler V_RC4_40 RC4_BASIC 5 (-4) demo_odata demo_udata None None None true
    None false.

Definition demo_after_failure : StandardSecurityHandler :=
  (authenticate demo_handler (CredBytes demo_wrong_pw) (Some demo_id1)).2.

Definition demo_after_success : StandardSecurityHandler :=
  (authenticate demo_after_failure (CredBytes demo_user_pw) (Some demo_id1)).2.

(** The handler after a first authentication with the user password. *)
Definition demo_authenticated : StandardSecurityHandler :=
  (authenticate demo_handler (CredBytes demo_user_pw) (Some demo_id1)).2.

(** The file key of the sample handler. *)
Definition demo_file_key : bytes := [x75; x73; x65; x72; x28].

(** A revision 6 handler built for the user password "pass" and the owner
    password "owner", on the stand-in primitives. *)
Definition demo_tokens : build_tokens :=
  mkTokens (replicate 32 x5a) (replicate 8 x11) (replicate 8 x22)
    (replicate 8 x33) (replicate 8 x44) (replicate 4 x99).

Definition demo_pass : bytes := [x70; x61; x73; x73].
Definition demo_owner : bytes := [x6f; x77; x6e; x65; x72].

Definition demo_r6_handler : StandardSecurityHandler :=
  Eval vm_compute in
    match build_from_pw demo_tokens (CredBytes demo_owner) (Some (CredBytes demo_pass)) with
    | Ok sh => sh
    | Raise _ =>
        mkHandler V_OTHER AES256 0 0 [] [] None None None true None false
    end.

(** The same handler with the first byte of [/Perms] changed. *)
Definition demo_r6_tampered : StandardSecurityHandler :=
  mkHandler (version demo_r6_handler) (revision demo_r6_handler)
    (keylen demo_r6_handler) (perms demo_r6_handler) (odata demo_r6_handler)
    (udata demo_r6_handler) (oeseed demo_r6_handler) (ueseed demo_r6_handler)
    (match encrypted_perms demo_r6_handler with
     | Some (b :: ep) => Some (byte_xor b x01 :: ep)
     | other => other
     end)
    (encrypt_metadata demo_r6_handler) None false.

(** A revision 3 handler built for the user password "pass" and the owner
    password "owner", with a key of 16 bytes, on the stand-in primitives. *)
Definition demo_legacy_handler : StandardSecurityHandler :=
  Eval vm_compute in
    match build_from_pw_legacy RC4_EXTENDED demo_id1 (CredBytes demo_owner)
            (Some (CredBytes demo_pass)) 16 false false with
    | Ok sh => sh
    | Raise _ =>
        mkHandler V_OTHER RC4_EXTENDED 0 0 [] [] None None None true None false
    end.

End Crypt.

(** * Properties *)

Lemma is_Ok_not_Raise {A} (r : result A) : is_Ok r → ¬ is_Raise r.
Proof. intros [a ->] [e He]. discriminate. Qed.

Lemma result_bind_ret {A B} (a : A) (f : A → result B) : Ok a ≫= f = f a.
Proof. reflexivity. Qed.

Lemma result_bind_Ok {A B} (f : A → result B) (r : result A) (b : B) :
  r ≫= f = Ok b → ∃ a, r = Ok a ∧ f a = Ok b.
Proof. destruct r as [a|e]; simpl; [eauto | discriminate]. Qed.

(** ** Python sequences *)

Module PyFacts.

Lemma byte_val_range (b : byte) : 0 ≤ byte_val b ≤ 255.
Proof.
  unfold byte_val. pose proof (Byte.to_N_bounded b) as Hb.
  split; [apply N2Z.is_nonneg |]. change 255 with (Z.of_N 255).
  apply N2Z.inj_le. exact Hb.
Qed.

Lemma slice_to_nonneg {A} (l : list A) (n : Z) :
  0 ≤ n → slice_to l n = take (Z.to_nat n) l.
Proof. intros Hn. unfold slice_to. destruct (Z.leb_spec 0 n); [done | lia]. Qed.

Lemma length_repeat_seq {A} (l : list A) (n : nat) :
  length (repeat_seq l n) = (n * length l)%nat.
Proof. induction n as [|n IH]; simpl; [done |]. rewrite length_app, IH. lia. Qed.

Lemma index_nonneg {A} (l : list A) (i : Z) (x : A) :
  0 ≤ i → l !! Z.to_nat i = Some x → index l i = Ok x.
Proof.
  intros Hi Hl. unfold index.
  assert (Hb : (0 <=? i) = true) by lia.
  rewrite Hb. cbv zeta. rewrite Hb. by rewrite Hl.
Qed.

End PyFacts.
Import PyFacts.

(** ** The xref cache *)

Module ReaderFacts.
Import Reader.

(** *** The history of an object *)

Lemma scan_history_find max_index revision h :
  scan_history max_index revision h
  = snd <$> first_at_or_after (max_index - revision) h.
Proof.
  induction h as [|[rev_index m] h IH]; simpl; [done |].
  unfold first_at_or_after in *. simpl.
  destruct (decide (revision >= max_index - rev_index)) as [Hge | Hlt].
  - rewrite bool_decide_eq_true_2 by done.
    rewrite bool_decide_eq_true_2 by lia. done.
  - rewrite bool_decide_eq_false_2 by done.
    rewrite bool_decide_eq_false_2 by lia. exact IH.
Qed.

Lemma first_at_or_after_Some threshold h e :
  first_at_or_after threshold h = Some e → e ∈ h ∧ threshold ≤ e.1.
Proof.
  unfold first_at_or_after. intros Hf.
  apply find_some in Hf as [Hin Hb].
  apply bool_decide_eq_true_1 in Hb. split; [by apply list_elem_of_In | done].
Qed.

Lemma first_at_or_after_None threshold h e :
  first_at_or_after threshold h = None → e ∈ h → e.1 < threshold.
Proof.
  unfold first_at_or_after. intros Hf Hin.
  apply list_elem_of_In in Hin.
  pose proof (find_none _ _ Hf e Hin) as Hb. simpl in Hb.
  apply bool_decide_eq_false_1 in Hb. lia.
Qed.

(** In a sorted record the first entry at or after the threshold is the
    one with the least section index among those at or after it. *)
Lemma first_at_or_after_least threshold h e :
  StronglySorted Z.le (h.*1) →
  first_at_or_after threshold h = Some e →
  ∀ e', e' ∈ h → threshold ≤ e'.1 → e.1 ≤ e'.1.
Proof.
  unfold first_at_or_after.
  induction h as [|a h IH]; simpl; [done |].
  intros Hs Hf e' Hin Hthr.
  apply StronglySorted_inv in Hs as [Hs Hall].
  destruct (decide (threshold ≤ a.1)) as [Ha | Ha].
  - rewrite bool_decide_eq_true_2 in Hf by done. simplify_eq.
    apply elem_of_cons in Hin as [-> | Hin]; [lia |].
    rewrite List.Forall_forall in Hall. apply Hall.
    apply list_elem_of_In. apply list_elem_of_fmap. eauto.
  - rewrite bool_decide_eq_false_2 in Hf by done.
    apply elem_of_cons in Hin as [-> | Hin]; [lia |]. by apply IH.
Qed.

Lemma StronglySorted_app_inv_l {A} (R : A → A → Prop) (l1 l2 : list A) :
  StronglySorted R (l1 ++ l2) → StronglySorted R l1.
Proof.
  induction l1 as [|a l1 IH]; simpl; [constructor |].
  intros Hs. apply StronglySorted_inv in Hs as [Hs Hall].
  constructor; [by apply IH |].
  apply List.Forall_app in Hall. tauto.
Qed.

Lemma StronglySorted_snoc_le (l : list Z) (a b : Z) :
  StronglySorted Z.le (l ++ [a]) → a ≤ b → StronglySorted Z.le (l ++ [a; b]).
Proof.
  induction l as [|x l IH]; simpl; intros Hs Hab.
  - repeat constructor. done.
  - apply StronglySorted_inv in Hs as [Hs Hall].
    constructor; [by apply IH |].
    apply List.Forall_app in Hall as [Hl Ha].
    apply List.Forall_app. split; [done |].
    apply List.Forall_inv in Ha. repeat constructor; lia.
Qed.

Lemma StronglySorted_last_le (l : list Z) (a b : Z) :
  StronglySorted Z.le (l ++ [a]) → a ≤ b → StronglySorted Z.le (l ++ [b]).
Proof.
  induction l as [|x l IH]; simpl; intros Hs Hab.
  - repeat constructor.
  - apply StronglySorted_inv in Hs as [Hs Hall].
    constructor; [by apply IH |].
    apply List.Forall_app in Hall as [Hl Ha].
    apply List.Forall_app. split; [done |].
    apply List.Forall_inv in Ha. repeat constructor; lia.
Qed.

Lemma history_ordered_init : history_ordered XRefCache_init.
Proof.
  intros ix. unfold history_at. simpl. rewrite lookup_empty. simpl.
  repeat constructor.
Qed.

(** Appending an entry for the current section to one record keeps the
    order of all of them. *)
Lemma history_ordered_append c ix m :
  history_ordered c →
  ∀ ix', StronglySorted Z.le
    ((default [] (<[ix := history_at c ix ++ [(xref_sections c, m)]]> (history c) !! ix')).*1
       ++ [xref_sections c]).
Proof.
  intros Hc ix'. destruct (decide (ix = ix')) as [<- | Hne].
  - rewrite lookup_insert_eq. simpl. rewrite fmap_app. simpl.
    rewrite <- app_assoc. simpl. apply StronglySorted_snoc_le; [apply Hc | lia].
  - rewrite lookup_insert_ne by done. apply Hc.
Qed.

Lemma history_ordered_next_section c :
  history_ordered c → history_ordered (_next_section c).
Proof.
  intros Hc ix. unfold history_at. simpl.
  eapply StronglySorted_last_le; [apply Hc | lia].
Qed.

Lemma free_ref_history idnum next_generation c c' :
  free_ref idnum next_generation c = Ok c' →
  history c' = history c ∧ xref_sections c' = xref_sections c.
Proof.
  unfold free_ref. case_bool_decide; [intros; by simplify_eq |].
  simpl. intros Hfree.
  repeat (match type of Hfree with
          | context [match ?x with _ => _ end] => destruct x eqn:?
          end; simpl in Hfree; try discriminate);
    simplify_eq; done.
Qed.

Lemma free_ref_history_ordered idnum next_generation c c' :
  history_ordered c → free_ref idnum next_generation c = Ok c' → history_ordered c'.
Proof.
  intros Hc Hf. apply free_ref_history in Hf as [Hh Hs].
  intros ix. unfold history_at. rewrite Hh, Hs. apply Hc.
Qed.

Lemma put_ref_history_ordered idnum generation start c c' :
  history_ordered c → put_ref idnum generation start c = Ok c' → history_ordered c'.
Proof.
  intros Hc. unfold put_ref.
  case_bool_decide; [discriminate |].
  case_bool_decide; [discriminate |].
  intros Hput; case_bool_decide; simpl in Hput; destruct (used_later _ _ _);
    simpl in Hput; simplify_eq; intros ix; unfold history_at at 1; simpl;
    apply (history_ordered_append c _ _ Hc).
Qed.

Lemma put_obj_stream_ref_history_ordered idnum n i c :
  history_ordered c → history_ordered (put_obj_stream_ref idnum n i c).
Proof.
  intros Hc ix. unfold put_obj_stream_ref.
  destruct (used_later _ _ _); unfold history_at at 1; simpl;
    apply (history_ordered_append c _ _ Hc).
Qed.

Lemma for_each_invariant {A S} (P : S → Prop) (body : A → S → result S) l :
  (∀ x s s', P s → body x s = Ok s' → P s') →
  ∀ s s', P s → for_each body l s = Ok s' → P s'.
Proof.
  intros Hbody. induction l as [|x l IH]; simpl; intros s s' Hs Hrun.
  - by simplify_eq.
  - apply result_bind_Ok in Hrun as (s1 & H1 & H2). eauto.
Qed.

Section parser_invariant.
Context (P : XRefCache → Prop) (HP : preserved_by_calls P).

Lemma read_table_lines_invariant lns : ∀ num c c',
  P c → read_table_lines num lns c = Ok c' → P c'.
Proof.
  induction lns as [|ln lns IH]; simpl; intros num c c' Hc Hrun.
  - by simplify_eq.
  - apply result_bind_Ok in Hrun as (c1 & H1 & H2).
    eapply IH; [| exact H2].
    unfold read_table_line in H1. destruct (line_mark ln).
    + eapply keeps_put_ref; eauto.
    + eapply keeps_free_ref; eauto.
    + by simplify_eq.
Qed.

Lemma read_xref_table_invariant subsections c c' :
  P c → read_xref_table subsections c = Ok c' → P c'.
Proof.
  unfold read_xref_table. intros Hc Hrun.
  apply result_bind_Ok in Hrun as (c1 & H1 & H2). simplify_eq.
  apply keeps_next_section; [done |].
  eapply (for_each_invariant P); [| exact Hc | exact H1].
  intros ss s s' Hs. apply read_table_lines_invariant. done.
Qed.

Lemma read_stream_entry_invariant entry_sizes num st st' :
  P st.2 → read_stream_entry entry_sizes num st = Ok st' → P st'.2.
Proof.
  destruct st as [stream_data c]. unfold read_stream_entry. simpl.
  intros Hc Hrun.
  apply result_bind_Ok in Hrun as ([xref_type d0] & _ & Hrun).
  repeat case_bool_decide;
    apply result_bind_Ok in Hrun as ([f1 d1] & _ & Hrun);
    apply result_bind_Ok in Hrun as ([f2 d2] & _ & Hrun).
  - apply result_bind_Ok in Hrun as (c1 & Hcall & Heq). simplify_eq. simpl.
    eapply keeps_put_ref; eauto.
  - simplify_eq. simpl. by apply keeps_put_obj_stream_ref.
  - apply result_bind_Ok in Hrun as (c1 & Hcall & Heq). simplify_eq. simpl.
    eapply keeps_free_ref; eauto.
  - by simplify_eq.
Qed.

Lemma read_stream_subsections_invariant entry_sizes idx_pairs :
  ∀ last_end st st',
  P st.2 → read_stream_subsections entry_sizes idx_pairs last_end st = Ok st' → P st'.2.
Proof.
  induction idx_pairs as [|[start size] idx_pairs IH]; simpl;
    intros last_end st st' Hc Hrun.
  - by simplify_eq.
  - case_bool_decide; [| discriminate].
    apply result_bind_Ok in Hrun as (st1 & H1 & H2).
    eapply IH; [| exact H2].
    eapply (for_each_invariant (λ st, P st.2)); [| exact Hc | exact H1].
    intros x s s'. apply read_stream_entry_invariant.
Qed.

Lemma read_xref_stream_invariant stream_data idx_pairs entry_sizes c c' :
  P c → read_xref_stream stream_data idx_pairs entry_sizes c = Ok c' → P c'.
Proof.
  unfold read_xref_stream. intros Hc Hrun.
  apply result_bind_Ok in Hrun as ([d c1] & H1 & H2). simplify_eq.
  apply keeps_next_section; [done |].
  by apply (read_stream_subsections_invariant _ _ _ (stream_data, c) (d, c1) Hc H1).
Qed.

Lemma read_located_section_invariant sec c c' :
  P c → read_located_section sec c = Ok c' → P c'.
Proof.
  unfold read_located_section, read_section. intros Hc Hrun.
  destruct sec as [startxref [xs xe subs | ref se data idx w | | |]]; simpl in Hrun;
    try discriminate Hrun.
  - apply result_bind_Ok in Hrun as (c1 & H1 & H2). simplify_eq.
    apply keeps_container_info; [done |].
    eapply read_xref_table_invariant; [| exact H1].
    by apply keeps_locations.
  - eapply read_xref_stream_invariant; [| exact Hrun].
    apply keeps_container_info; [done |]. by apply keeps_locations.
  - injection Hrun as <-. by apply keeps_locations.
Qed.

(** What holds of a fresh cache and is kept by every call holds of the
    cache after any number of sections. *)
Lemma read_sections_invariant sections c :
  P XRefCache_init →
  for_each read_located_section sections XRefCache_init = Ok c → P c.
Proof.
  intros Hinit. apply (for_each_invariant P); [| done].
  intros x s s'. apply read_located_section_invariant.
Qed.

End parser_invariant.

Lemma history_ordered_preserved : preserved_by_calls history_ordered.
Proof.
  split.
  - intros. by eapply put_ref_history_ordered.
  - intros. by eapply free_ref_history_ordered.
  - intros. by apply put_obj_stream_ref_history_ordered.
  - apply history_ordered_next_section.
  - intros v c Hc ix. apply Hc.
  - intros v c Hc ix. apply Hc.
Qed.

Lemma _read_xrefs_history_ordered sections c :
  _read_xrefs sections = Ok c → history_ordered c.
Proof.
  unfold _read_xrefs. intros Hrun.
  apply result_bind_Ok in Hrun as (c1 & H1 & H2).
  unfold check_orphans in H2. case_bool_decide; simplify_eq.
  eapply read_sections_invariant;
    [apply history_ordered_preserved | apply history_ordered_init | exact H1].
Qed.

(** C1. On the cache that [_read_xrefs] builds, [get_historical_ref ref r]
    returns the marker of the first entry of the newest-first history of
    [ref] whose section index is at least [total - 1 - r], and raises the
    read error when there is none; that entry is the most recent write at or
    before revision [r]: its revision is at most [r] and no entry of the
    history with a revision at most [r] has a later one. *)
Theorem get_historical_ref_most_recent sections c ref r :
  _read_xrefs sections = Ok c →
  let h := history_at c (generation ref, idnum ref) in
  get_historical_ref c ref r
  = match first_at_or_after (total_revisions c - 1 - r) h with
    | Some e => Ok e.2
    | None => Raise (PdfReadError (NotInHistory (idnum ref) (generation ref) r))
    end
  ∧ (∀ m, get_historical_ref c ref r = Ok m →
       ∃ section, (section, m) ∈ h ∧ revision_of c section ≤ r
         ∧ ∀ section' m', (section', m') ∈ h → revision_of c section' ≤ r →
             revision_of c section' ≤ revision_of c section)
  ∧ (is_Raise (get_historical_ref c ref r)
     ↔ ∀ section m, (section, m) ∈ h → r < revision_of c section).
Proof.
  intros Hread h.
  assert (Hspec : get_historical_ref c ref r
    = match first_at_or_after (total_revisions c - 1 - r) h with
      | Some e => Ok e.2
      | None => Raise (PdfReadError (NotInHistory (idnum ref) (generation ref) r))
      end).
  { unfold get_historical_ref. rewrite scan_history_find.
    fold h. unfold total_revisions.
    destruct (first_at_or_after _ h); reflexivity. }
  assert (Hsorted : StronglySorted Z.le (h.*1)).
  { eapply StronglySorted_app_inv_l.
    apply (_read_xrefs_history_ordered _ _ Hread). }
  split; [exact Hspec |]. rewrite Hspec. unfold revision_of. split.
  - intros m Hm.
    destruct (first_at_or_after _ h) as [[section m0]|] eqn:Hfirst;
      [| discriminate].
    simpl in Hm. simplify_eq. exists section.
    pose proof (first_at_or_after_Some _ _ _ Hfirst) as [Hin Hthr].
    simpl in Hthr. split; [done |]. split; [lia |].
    intros section' m' Hin' Hrev.
    pose proof (first_at_or_after_least _ _ _ Hsorted Hfirst (section', m') Hin')
      as Hleast.
    simpl in Hleast. lia.
  - destruct (first_at_or_after _ h) as [[section m0]|] eqn:Hfirst; split.
    + intros [e He]. discriminate.
    + intros Hall.
      pose proof (first_at_or_after_Some _ _ _ Hfirst) as [Hin Hthr].
      specialize (Hall _ _ Hin). simpl in Hthr. lia.
    + intros _ section m Hin.
      pose proof (first_at_or_after_None _ _ (section, m) Hfirst Hin) as Hlt.
      simpl in Hlt. lia.
    + intros _. by eexists.
Qed.

Lemma get_historical_ref_most_recent_witness :
  _read_xrefs sample_sections = Ok sample_cache
  ∧ get_historical_ref sample_cache (mkReference 5 0) 1 = Ok (Offset 100)
  ∧ get_historical_ref sample_cache (mkReference 5 0) 2 = Ok (Offset 300)
  ∧ is_Raise (get_historical_ref sample_cache (mkReference 6 0) 0).
Proof.
  assert (Hread : _read_xrefs sample_sections = Ok sample_cache)
    by (vm_compute; reflexivity).
  split; [exact Hread |].
  pose proof (get_historical_ref_most_recent sample_sections sample_cache) as Hspec.
  split; [| split].
  - destruct (Hspec (mkReference 5 0) 1 Hread) as [-> _].
    vm_compute; reflexivity.
  - destruct (Hspec (mkReference 5 0) 2 Hread) as [-> _].
    vm_compute; reflexivity.
  - destruct (Hspec (mkReference 6 0) 0 Hread) as [-> _].
    eexists. vm_compute. reflexivity.
Defined.

(** C10. [free_ref(0, g)] returns at once and leaves the cache as it was,
    whatever [g] is; so the line for object 0 that heads the free list of an
    xref table changes nothing in the cache. *)
Theorem free_ref_object_zero_noop (g : Z) (c : XRefCache) :
  free_ref 0 g c = Ok c
  ∧ ∀ offset, read_table_line 0 (mkLine offset g MarkerF) c = Ok c.
Proof. split; [reflexivity | intros offset; reflexivity]. Qed.

(** *** Field decoding *)

Lemma fold_left_be_acc (d : bytes) (acc : Z) :
  fold_left (λ acc b, acc * 256 + byte_val b) d acc
  = acc * 256 ^ Z.of_nat (length d) + be_unsigned d.
Proof.
  unfold be_unsigned. revert acc.
  induction d as [|b d IH]; intros acc; simpl fold_left.
  - simpl. lia.
  - rewrite IH. rewrite (IH (0 * 256 + byte_val b)).
    rewrite length_cons, Nat2Z.inj_succ, Z.pow_succ_r by lia. lia.
Qed.

Lemma be_unsigned_cons (b : byte) (d : bytes) :
  be_unsigned (b :: d) = byte_val b * 256 ^ Z.of_nat (length d) + be_unsigned d.
Proof.
  unfold be_unsigned at 1. simpl fold_left. rewrite fold_left_be_acc. lia.
Qed.

Lemma be_unsigned_bounds (d : bytes) :
  0 ≤ be_unsigned d < 256 ^ Z.of_nat (length d).
Proof.
  induction d as [|b d IH].
  - unfold be_unsigned. simpl. lia.
  - rewrite be_unsigned_cons, length_cons, Nat2Z.inj_succ, Z.pow_succ_r by lia.
    pose proof (byte_val_range b) as Hb.
    set (p := 256 ^ Z.of_nat (length d)) in *.
    assert (0 ≤ byte_val b * p) by (apply Z.mul_nonneg_nonneg; lia).
    assert (byte_val b * p ≤ 255 * p) by (apply Z.mul_le_mono_nonneg_r; lia).
    clearbody p. lia.
Qed.

Lemma be_unsigned_zero_padding (k : nat) (d : bytes) :
  be_unsigned (replicate k x00 ++ d) = be_unsigned d.
Proof.
  induction k as [|k IH]; simpl; [done |].
  rewrite be_unsigned_cons, IH. change (byte_val x00) with 0. lia.
Qed.

(** What [convert_to_int] gets right: a field of one to seven bytes, and a
    field of eight bytes below [2 ^ 63], is read as the big-endian unsigned
    integer. *)
Lemma convert_to_int_narrow (d : bytes) (size : Z) :
  0 < size ≤ 8 → Z.of_nat (length d) = size → be_unsigned d < 2 ^ 63 →
  convert_to_int d size = Ok (be_unsigned d).
Proof.
  intros Hsize Hlen Hsmall. unfold convert_to_int.
  rewrite bool_decide_eq_true_2 by lia.
  unfold struct_unpack_q_be.
  rewrite bool_decide_eq_true_2
    by (rewrite length_app, length_replicate; lia).
  rewrite be_unsigned_zero_padding.
  by rewrite bool_decide_eq_true_2.
Qed.

Lemma convert_to_int_upto_seven (d : bytes) (size : Z) :
  0 < size ≤ 7 → Z.of_nat (length d) = size →
  convert_to_int d size = Ok (be_unsigned d).
Proof.
  intros Hsize Hlen. apply convert_to_int_narrow; [lia | done |].
  pose proof (be_unsigned_bounds d) as [_ Hlt]. rewrite Hlen in Hlt.
  assert (256 ^ size ≤ 256 ^ 7) by (apply Z.pow_le_mono_r; lia).
  change (256 ^ 7) with 72057594037927936 in *.
  change (2 ^ 63) with 9223372036854775808. lia.
Qed.

(** A field of width zero takes its default: 1 for the type field, 0 for
    the other two; nothing is read. *)
Lemma get_entry_zero_width (entry_sizes : list Z) (ix : Z) (stream_data : bytes) :
  Py.index entry_sizes ix = Ok 0 →
  get_entry entry_sizes ix stream_data
  = Ok (if bool_decide (ix = 0) then 1 else 0, stream_data).
Proof.
  intros Hw. unfold get_entry. rewrite Hw.
  change (Ok 0 ≫= ?f) with (f 0). cbv beta.
  rewrite (bool_decide_eq_false_2 (0 > 0)) by lia. by case_bool_decide.
Qed.

(** A field of one to seven bytes that the stream still holds is read as
    the big-endian unsigned integer of these bytes, which are consumed. *)
Lemma get_entry_narrow (entry_sizes : list Z) (ix w : Z) (stream_data : bytes) :
  Py.index entry_sizes ix = Ok w → 0 < w ≤ 7 → w ≤ Z.of_nat (length stream_data) →
  get_entry entry_sizes ix stream_data
  = Ok (be_unsigned (take (Z.to_nat w) stream_data), drop (Z.to_nat w) stream_data).
Proof.
  intros Hw Hrange Hlen. unfold get_entry. rewrite Hw, result_bind_ret.
  rewrite bool_decide_eq_true_2 by lia.
  rewrite convert_to_int_upto_seven; [done | done |].
  rewrite length_take. lia.
Qed.

(** C7.  The fields of an xref stream entry are not read as big-endian
    unsigned integers at every width.  With [/W [1 9 1]] the
    second field of an entry is nine bytes wide; on the bytes of 256 the
    reader returns 2, the sum of the powers [digit ** (size - ix - 1)], and
    not 256.  With a width of eight and the top bit set it returns a
    negative number, the bytes being unpacked as a signed integer. *)
Theorem convert_to_int_wide_field_wrong :
  get_entry [1; 9; 1] 1 wide_field = Ok (2, [])
  ∧ be_unsigned wide_field = 256
  ∧ get_entry [1; 8; 1] 1 high_field = Ok (- 2 ^ 63, [])
  ∧ be_unsigned high_field = 2 ^ 63.
Proof. repeat split; vm_compute; reflexivity. Qed.

(** *** Free events and the generations that wait for them *)

(** The effect of a [put_ref] that returns. *)
Lemma put_ref_Ok idnum generation start c c' :
  put_ref idnum generation start c = Ok c' →
  _previous_expected_free c !! idnum = None
  ∧ generation ≤ 0xffff
  ∧ _previous_expected_free c'
    = (if bool_decide (generation > 0)
       then <[idnum := generation]> (_previous_expected_free c)
       else _previous_expected_free c)
  ∧ history c'
    = <[(generation, idnum) :=
          history_at c (generation, idnum) ++ [(xref_sections c, Offset start)]]> (history c)
  ∧ xref_sections c' = xref_sections c
  ∧ _freed_by_section c' = _freed_by_section c
  ∧ _current_section_freed c' = _current_section_freed c.
Proof.
  unfold put_ref. intros Hput.
  destruct (decide (is_Some (_previous_expected_free c !! idnum))) as [Hin | Hnot].
  { rewrite bool_decide_eq_true_2 in Hput by done. discriminate. }
  rewrite bool_decide_eq_false_2 in Hput by done.
  apply eq_None_not_Some in Hnot. split; [done |].
  destruct (decide (generation > 0xffff)) as [Hbig | Hsmall].
  { rewrite bool_decide_eq_true_2 in Hput by done. discriminate. }
  rewrite bool_decide_eq_false_2 in Hput by done.
  split; [lia |].
  destruct (bool_decide (generation > 0)); simpl in Hput;
    destruct (used_later _ _ _); simpl in Hput; simplify_eq; done.
Qed.

(** The effect of a [free_ref] that returns, for an object other than 0. *)
Lemma free_ref_Ok idnum next_generation c c' :
  free_ref idnum next_generation c = Ok c' → idnum ≠ 0 →
  history c' = history c
  ∧ xref_sections c' = xref_sections c
  ∧ _freed_by_section c' = _freed_by_section c
  ∧ _current_section_freed c'
    = {[mkReference idnum
          (if bool_decide (next_generation ≠ 0) then next_generation - 1 else 0xffff)]}
        ∪ _current_section_freed c
  ∧ _previous_expected_free c' = delete idnum (_previous_expected_free c)
  ∧ ∀ g, _previous_expected_free c !! idnum = Some g → g = next_generation.
Proof.
  unfold free_ref. intros Hfree Hid.
  rewrite bool_decide_eq_false_2 in Hfree by done. simpl in Hfree.
  apply result_bind_Ok in Hfree as (c1 & Hgen & Hfree).
  assert (Hc1 : history c1 = history c ∧ xref_sections c1 = xref_sections c
    ∧ _freed_by_section c1 = _freed_by_section c
    ∧ _current_section_freed c1
      = {[mkReference idnum
            (if bool_decide (next_generation ≠ 0) then next_generation - 1 else 0xffff)]}
          ∪ _current_section_freed c
    ∧ _previous_expected_free c1 = _previous_expected_free c
    ∧ last_change c1 = last_change c).
  { destruct (_generations c !! idnum) as [gens|]; simpl in Hgen.
    - destruct (find _ _); simplify_eq. done.
    - simplify_eq. done. }
  destruct Hc1 as (Hh & Hs & Hfb & Hcur & Hexp & Hlc).
  cbv zeta in Hfree.
  set (c2 := if bool_decide (is_Some (last_change c1 !! idnum)) then c1
             else set_last_change (<[idnum := xref_sections c1]> (last_change c1)) c1)
    in Hfree.
  assert (Hc2 : history c2 = history c1 ∧ xref_sections c2 = xref_sections c1
    ∧ _freed_by_section c2 = _freed_by_section c1
    ∧ _current_section_freed c2 = _current_section_freed c1
    ∧ _previous_expected_free c2 = _previous_expected_free c1).
  { subst c2. destruct (bool_decide (is_Some _)); simpl; done. }
  clearbody c2. destruct Hc2 as (Hh2 & Hs2 & Hfb2 & Hcur2 & Hexp2).
  rewrite <- Hexp, <- Hexp2.
  destruct (_previous_expected_free c2 !! idnum) as [expected|] eqn:Hlook.
  - destruct (decide (expected ≠ next_generation)) as [Hne | Heq].
    { rewrite bool_decide_eq_true_2 in Hfree by done. discriminate. }
    rewrite bool_decide_eq_false_2 in Hfree by done. simplify_eq. simpl.
    repeat split; try congruence.
    intros g Hg. simplify_eq. destruct (decide (g = next_generation)); [done |].
    by destruct Heq.
  - simplify_eq.
    repeat split; try congruence.
    symmetry. by apply delete_id.
Qed.

Lemma StronglySorted_snoc_bound (l : list Z) (a x : Z) :
  StronglySorted Z.le (l ++ [a]) → x ∈ l → x ≤ a.
Proof.
  induction l as [|y l IH]; simpl; intros Hs Hin.
  - by apply elem_of_nil in Hin.
  - apply StronglySorted_inv in Hs as [Hs Hall].
    apply elem_of_cons in Hin as [-> | Hin]; [| by apply IH].
    apply List.Forall_app in Hall as [_ Ha]. by apply List.Forall_inv in Ha.
Qed.

Lemma history_entry_section_bound c ix section m :
  history_ordered c → (section, m) ∈ history_at c ix → section ≤ xref_sections c.
Proof.
  intros Hc Hin. eapply StronglySorted_snoc_bound; [apply Hc |].
  apply list_elem_of_fmap. by exists (section, m).
Qed.

Lemma freed_sets_lookup_mono c c' i F :
  _freed_by_section c' = _freed_by_section c →
  _current_section_freed c ⊆ _current_section_freed c' →
  freed_sets c !! i = Some F →
  ∃ F', freed_sets c' !! i = Some F' ∧ F ⊆ F'.
Proof.
  unfold freed_sets. intros -> Hsub Hlook.
  apply lookup_app_Some in Hlook as [Hl | [Hge Hl]].
  - exists F. split; [by apply lookup_app_l_Some | done].
  - apply list_lookup_singleton_Some in Hl as [Hi <-].
    exists (_current_section_freed c'). split; [| done].
    rewrite lookup_app_r by done. by rewrite Hi.
Qed.

Lemma sections_counted_preserved : preserved_by_calls sections_counted.
Proof.
  split.
  - intros idnum generation start c c' Hc Hput.
    apply put_ref_Ok in Hput as (_ & _ & _ & _ & Hs & Hfb & _).
    unfold sections_counted. by rewrite Hs, Hfb.
  - intros idnum next_generation c c' Hc Hfree.
    destruct (decide (idnum = 0)) as [-> | Hid].
    + unfold free_ref in Hfree. simpl in Hfree. by simplify_eq.
    + apply free_ref_Ok in Hfree as (_ & Hs & Hfb & _); [| done].
      unfold sections_counted. by rewrite Hs, Hfb.
  - intros idnum n i c Hc. unfold put_obj_stream_ref.
    destruct (negb _); exact Hc.
  - intros c [Hnn Hlen]. unfold sections_counted. simpl.
    rewrite length_app. simpl. split; [lia |]. rewrite Hlen. lia.
  - intros v c Hc. exact Hc.
  - intros v c Hc. exact Hc.
Qed.

Lemma cache_consistent_put_ref idnum generation start c c' :
  cache_consistent c → put_ref idnum generation start c = Ok c' → cache_consistent c'.
Proof.
  intros (Hcount & Hord & Hmatch) Hput.
  split; [by eapply (keeps_put_ref _ sections_counted_preserved) |].
  split; [by eapply put_ref_history_ordered |].
  apply put_ref_Ok in Hput as (Hnone & _ & Hexp & Hh & Hs & Hfb & Hcur).
  intros id g section m Hg Hin. unfold history_at in Hin. rewrite Hh in Hin.
  destruct (decide ((generation, idnum) = (g, id))) as [Heq | Hne].
  - simplify_eq. left. rewrite Hexp.
    rewrite bool_decide_eq_true_2 by lia. apply lookup_insert_eq.
  - rewrite lookup_insert_ne in Hin by done.
    destruct (Hmatch id g section m Hg Hin) as [Hwait | (section' & F & Hle & Hnn & Hlook & HF)].
    + left. rewrite Hexp. assert (idnum ≠ id) by congruence.
      destruct (bool_decide (generation > 0)); [| done].
      by rewrite lookup_insert_ne.
    + right. exists section', F. unfold freed_sets. rewrite Hfb, Hcur. done.
Qed.

Lemma cache_consistent_free_ref idnum next_generation c c' :
  cache_consistent c → free_ref idnum next_generation c = Ok c' → cache_consistent c'.
Proof.
  intros (Hcount & Hord & Hmatch) Hfree.
  split; [by eapply (keeps_free_ref _ sections_counted_preserved) |].
  split; [by eapply free_ref_history_ordered |].
  destruct (decide (idnum = 0)) as [-> | Hid].
  { unfold free_ref in Hfree. simpl in Hfree. by simplify_eq. }
  apply free_ref_Ok in Hfree as (Hh & Hs & Hfb & Hcur & Hexp & Hsame); [| done].
  intros id g section m Hg Hin. unfold history_at in Hin. rewrite Hh in Hin.
  destruct (Hmatch id g section m Hg Hin) as [Hwait | (section' & F & Hle & Hnn & Hlook & HF)].
  - destruct (decide (idnum = id)) as [<- | Hne].
    + right. pose proof (Hsame _ Hwait) as ->.
      exists (xref_sections c), (_current_section_freed c').
      destruct Hcount as [Hnonneg Hlen].
      split; [by eapply history_entry_section_bound |]. split; [done |].
      split.
      * unfold freed_sets. rewrite lookup_app_r by (rewrite Hfb; lia).
        rewrite Hfb, Hlen, Nat.sub_diag. done.
      * rewrite Hcur. rewrite bool_decide_eq_true_2 by lia.
        apply elem_of_union_l. by apply elem_of_singleton.
    + left. rewrite Hexp. by rewrite lookup_delete_ne.
  - right.
    destruct (freed_sets_lookup_mono c c' (Z.to_nat section') F Hfb) as (F' & Hlook' & Hsub);
      [rewrite Hcur; apply union_subseteq_r | done |].
    exists section', F'. repeat split; try done. by apply Hsub.
Qed.

Lemma cache_consistent_preserved : preserved_by_calls cache_consistent.
Proof.
  split.
  - intros. by eapply cache_consistent_put_ref.
  - intros. by eapply cache_consistent_free_ref.
  - intros idnum n i c (Hcount & Hord & Hmatch).
    split; [by apply (keeps_put_obj_stream_ref _ sections_counted_preserved) |].
    split; [by apply put_obj_stream_ref_history_ordered |].
    intros id g section m Hg Hin.
    assert (Hin' : (section, m) ∈ history_at c (g, id)).
    { revert Hin. unfold put_obj_stream_ref, history_at.
      destruct (negb _); simpl; rewrite lookup_insert_ne by (intros ?; simplify_eq; lia);
        done. }
    destruct (Hmatch id g section m Hg Hin') as [Hwait | Hfreed].
    + left. revert Hwait. unfold put_obj_stream_ref. by destruct (negb _).
    + right. revert Hfreed. unfold put_obj_stream_ref, freed_sets.
      by destruct (negb _).
  - intros c (Hcount & Hord & Hmatch).
    split; [by apply (keeps_next_section _ sections_counted_preserved) |].
    split; [by apply history_ordered_next_section |].
    intros id g section m Hg Hin.
    destruct (Hmatch id g section m Hg Hin) as [Hwait | (section' & F & Hle & Hnn & Hlook & HF)].
    + by left.
    + right. exists section', F. repeat split; try done.
      unfold freed_sets. simpl. by apply lookup_app_l_Some.
  - intros v c Hc. exact Hc.
  - intros v c Hc. exact Hc.
Qed.

Lemma cache_consistent_init : cache_consistent XRefCache_init.
Proof.
  split; [done |]. split; [apply history_ordered_init |].
  intros id g section m _ Hin. unfold history_at in Hin. simpl in Hin.
  rewrite lookup_empty in Hin. by apply elem_of_nil in Hin.
Qed.

Lemma read_located_section_flushes sec c c' :
  _current_section_freed c = ∅ →
  read_located_section sec c = Ok c' → _current_section_freed c' = ∅.
Proof.
  unfold read_located_section, read_section.
  destruct sec as [startxref [xs xe subs | ref se data idx w | | |]]; simpl;
    intros Hc Hrun; try discriminate Hrun.
  - apply result_bind_Ok in Hrun as (c1 & H1 & H2). simplify_eq.
    unfold read_xref_table in H1.
    apply result_bind_Ok in H1 as (c2 & H1 & H2). by simplify_eq.
  - unfold read_xref_stream in Hrun.
    apply result_bind_Ok in Hrun as ([d c1] & H1 & H2). by simplify_eq.
  - by injection Hrun as <-.
Qed.

Lemma read_sections_flushed sections c :
  for_each read_located_section sections XRefCache_init = Ok c →
  _current_section_freed c = ∅.
Proof.
  apply (for_each_invariant (λ c, _current_section_freed c = ∅)); [| done].
  intros x s s'. apply read_located_section_flushes.
Qed.

(** C6, amended.  An in-use entry of generation [g > 0] that [put_ref]
    records leaves the expectation [idnum ↦ g] of a free event to come: in
    the rest of the same section, or in an older one.  If some expectation
    is left when every section has been read, [_read_xrefs] raises the read
    error that lists the orphaned objects, and [read] raises; and when
    [_read_xrefs] returns, no expectation is left and every in-use entry of
    generation [g > 0] in the history has its free event (the freed
    reference of generation [g - 1]) in the freed set of a revision at or
    before its own. *)
Theorem orphaned_generations_are_fatal :
  (∀ idnum generation start c c',
     put_ref idnum generation start c = Ok c' → 0 < generation →
     _previous_expected_free c' !! idnum = Some generation)
  ∧ (∀ sections c,
       for_each read_located_section sections XRefCache_init = Ok c →
       _previous_expected_free c ≠ ∅ →
       _read_xrefs sections
       = Raise (PdfReadError
                  (OrphanedHigherGenerations (map_to_list (_previous_expected_free c)))))
  ∧ (∀ preamble sections c,
       for_each read_located_section sections XRefCache_init = Ok c →
       _previous_expected_free c ≠ ∅ →
       is_Raise (read preamble sections))
  ∧ (∀ sections c,
       _read_xrefs sections = Ok c →
       _previous_expected_free c = ∅
       ∧ ∀ idnum g section m,
           0 < g → (section, m) ∈ history_at c (g, idnum) →
           ∃ revision' F,
             0 ≤ revision' ≤ revision_of c section
             ∧ refs_freed_in_revision c revision' = Ok F
             ∧ mkReference idnum (g - 1) ∈ F).
Proof.
  assert (Hfatal : ∀ sections c,
    for_each read_located_section sections XRefCache_init = Ok c →
    _previous_expected_free c ≠ ∅ →
    _read_xrefs sections
    = Raise (PdfReadError
               (OrphanedHigherGenerations (map_to_list (_previous_expected_free c))))).
  { intros sections c Hrun Hleft. unfold _read_xrefs. rewrite Hrun. simpl.
    unfold check_orphans. by rewrite bool_decide_eq_true_2. }
  split; [| split; [exact Hfatal | split]].
  - intros idnum generation start c c' Hput Hg.
    apply put_ref_Ok in Hput as (_ & _ & -> & _).
    rewrite bool_decide_eq_true_2 by lia. apply lookup_insert_eq.
  - intros preamble sections c Hrun Hleft. unfold read.
    destruct preamble as [startxref|e]; simpl; [| by eexists].
    rewrite (Hfatal sections c Hrun Hleft). by eexists.
  - intros sections c Hread. unfold _read_xrefs in Hread.
    apply result_bind_Ok in Hread as (c1 & Hrun & Hcheck).
    unfold check_orphans in Hcheck.
    destruct (decide (_previous_expected_free c1 ≠ ∅)) as [Hne | Hempty].
    { rewrite bool_decide_eq_true_2 in Hcheck by done. discriminate. }
    rewrite bool_decide_eq_false_2 in Hcheck by done. simplify_eq.
    assert (Hnone : _previous_expected_free c = ∅).
    { destruct (decide (_previous_expected_free c = ∅)); [done |]. by destruct Hempty. }
    split; [exact Hnone |].
    intros idnum g section m Hg Hin.
    pose proof (read_sections_invariant _ cache_consistent_preserved _ _
                  cache_consistent_init Hrun) as ((Hnonneg & Hlen) & Hord & Hmatch).
    pose proof (read_sections_flushed _ _ Hrun) as Hflushed.
    destruct (Hmatch idnum g section m Hg Hin)
      as [Hwait | (section' & F & Hle & Hnn & Hlook & HF)].
    { rewrite Hnone, lookup_empty in Hwait. discriminate. }
    unfold freed_sets in Hlook.
    apply lookup_app_Some in Hlook as [Hl | [Hge Hl]].
    + pose proof (lookup_lt_Some _ _ _ Hl) as Hlt.
      exists (revision_of c section'), F. unfold revision_of, total_revisions.
      split; [lia |]. split; [| done].
      unfold refs_freed_in_revision.
      replace (xref_sections c - 1 - (xref_sections c - 1 - section')) with section' by lia.
      by apply PyFacts.index_nonneg.
    + apply list_lookup_singleton_Some in Hl as [_ <-].
      rewrite Hflushed in HF. by apply not_elem_of_empty in HF.
Qed.

Lemma orphaned_generations_are_fatal_witness :
  _read_xrefs orphan_sections
  = Raise (PdfReadError (OrphanedHigherGenerations [(7, 1)]))
  ∧ _read_xrefs reuse_sections = Ok reuse_cache
  ∧ ∃ revision' F,
      0 ≤ revision' ≤ 2
      ∧ refs_freed_in_revision reuse_cache revision' = Ok F
      ∧ mkReference 7 0 ∈ F.
Proof.
  destruct orphaned_generations_are_fatal as (_ & Hfatal & _ & Hmatched).
  split; [| split].
  - set (c := match for_each read_located_section orphan_sections XRefCache_init with
              | Ok c => c
              | Raise _ => XRefCache_init
              end).
    assert (Hrun : for_each read_located_section orphan_sections XRefCache_init = Ok c)
      by (vm_compute; reflexivity).
    rewrite (Hfatal orphan_sections c Hrun); [vm_compute; reflexivity |].
    intros Hempty.
    assert (Hlook : _previous_expected_free c !! 7 = Some 1) by (vm_compute; reflexivity).
    rewrite Hempty, lookup_empty in Hlook. discriminate.
  - vm_compute; reflexivity.
  - assert (Hread : _read_xrefs reuse_sections = Ok reuse_cache)
      by (vm_compute; reflexivity).
    destruct (Hmatched reuse_sections reuse_cache Hread) as [_ Hfree].
    apply (Hfree 7 1 0 (Offset 500)); [lia |].
    vm_compute. apply list_elem_of_here.
Defined.

(** C6 as stated, with the free event in an older section, fails on
    [same_section_sections]: the file is read without error and object 7
    has an in-use entry of generation 1, but no older section frees it
    (there is none): the free line that settles the expectation stands in
    the section of the entry itself. *)
Lemma orphaned_generations_older_section_counterexample :
  _read_xrefs same_section_sections = Ok same_section_cache
  ∧ (0, Offset 500) ∈ history_at same_section_cache (1, 7)
  ∧ revision_of same_section_cache 0 = 0
  ∧ (¬ ∃ revision' F,
         0 ≤ revision' < revision_of same_section_cache 0
         ∧ refs_freed_in_revision same_section_cache revision' = Ok F
         ∧ mkReference 7 0 ∈ F)
  ∧ ∃ F, refs_freed_in_revision same_section_cache 0 = Ok F ∧ mkReference 7 0 ∈ F.
Proof.
  assert (Hrev : revision_of same_section_cache 0 = 0) by (vm_compute; reflexivity).
  split; [vm_compute; reflexivity |].
  split; [vm_compute; apply list_elem_of_here |].
  split; [exact Hrev |]. split.
  - intros (revision' & F & Hrange & _). rewrite Hrev in Hrange. lia.
  - exists ({[mkReference 7 0]} ∪ ∅). split; [| set_solver].
    unfold refs_freed_in_revision.
    apply PyFacts.index_nonneg; [vm_compute; discriminate |].
    assert (Hfreed : _freed_by_section same_section_cache = [{[mkReference 7 0]} ∪ ∅])
      by (vm_compute; reflexivity).
    assert (Hix : Z.to_nat (xref_sections same_section_cache - 1 - 0) = 0%nat)
      by (vm_compute; reflexivity).
    by rewrite Hfreed, Hix.
Qed.

Section section_invariant.
Context (P : XRefCache → Prop) (HP : preserved_in_section P).

Lemma read_table_lines_in_section lns : ∀ num c c',
  P c → read_table_lines num lns c = Ok c' → P c'.
Proof.
  induction lns as [|ln lns IH]; simpl; intros num c c' Hc Hrun.
  - by simplify_eq.
  - apply result_bind_Ok in Hrun as (c1 & H1 & H2).
    eapply IH; [| exact H2].
    unfold read_table_line in H1. destruct (line_mark ln).
    + eapply in_section_put_ref; eauto.
    + eapply in_section_free_ref; eauto.
    + by simplify_eq.
Qed.

Lemma read_stream_entry_in_section entry_sizes num st st' :
  P st.2 → read_stream_entry entry_sizes num st = Ok st' → P st'.2.
Proof.
  destruct st as [stream_data c]. unfold read_stream_entry. simpl.
  intros Hc Hrun.
  apply result_bind_Ok in Hrun as ([xref_type d0] & _ & Hrun).
  repeat case_bool_decide;
    apply result_bind_Ok in Hrun as ([f1 d1] & _ & Hrun);
    apply result_bind_Ok in Hrun as ([f2 d2] & _ & Hrun).
  - apply result_bind_Ok in Hrun as (c1 & Hcall & Heq). simplify_eq. simpl.
    eapply in_section_put_ref; eauto.
  - simplify_eq. simpl. by apply in_section_put_obj_stream_ref.
  - apply result_bind_Ok in Hrun as (c1 & Hcall & Heq). simplify_eq. simpl.
    eapply in_section_free_ref; eauto.
  - by simplify_eq.
Qed.

Lemma read_stream_subsections_in_section entry_sizes idx_pairs :
  ∀ last_end st st',
  P st.2 → read_stream_subsections entry_sizes idx_pairs last_end st = Ok st' → P st'.2.
Proof.
  induction idx_pairs as [|[start size] idx_pairs IH]; simpl;
    intros last_end st st' Hc Hrun.
  - by simplify_eq.
  - case_bool_decide; [| discriminate].
    apply result_bind_Ok in Hrun as (st1 & H1 & H2).
    eapply IH; [| exact H2].
    eapply (for_each_invariant (λ st, P st.2)); [| exact Hc | exact H1].
    intros x s s'. apply read_stream_entry_in_section.
Qed.

(** Reading a section is: the reader's own bookkeeping, calls that keep
    [P], then [_next_section] (and, for a table, the container record). *)
Lemma read_located_section_in_section sec c c' :
  read_located_section sec c = Ok c' →
  match sec.2 with
  | XrefTable xref_start xref_end _ =>
      P (set_xref_locations (xref_locations c ++ [sec.1]) c) →
      ∃ c1, P c1
        ∧ c' = set_xref_container_info
                 (xref_container_info (_next_section c1) ++ [TableSpan xref_start xref_end])
                 (_next_section c1)
  | XrefStream xrefstream_ref stream_end _ _ _ =>
      let c0 := set_xref_locations (xref_locations c ++ [sec.1]) c in
      P (set_xref_container_info
           (xref_container_info c0 ++ [StreamSpan xrefstream_ref stream_end]) c0) →
      ∃ c1, P c1 ∧ c' = _next_section c1
  | _ => c' = set_xref_locations (xref_locations c ++ [sec.1]) c
  end.
Proof.
  unfold read_located_section, read_section.
  destruct sec as [startxref [xs xe subs | ref se data idx w | | |]]; simpl;
    try (intros Hrun; by simplify_eq); intros Hrun Hc.
  - apply result_bind_Ok in Hrun as (c1 & H1 & H2). simplify_eq.
    unfold read_xref_table in H1.
    apply result_bind_Ok in H1 as (c2 & H1 & H2). simplify_eq.
    exists c2. split; [| done].
    eapply (for_each_invariant P); [| exact Hc | exact H1].
    intros ss s s' Hs. by apply read_table_lines_in_section.
  - unfold read_xref_stream in Hrun.
    apply result_bind_Ok in Hrun as ([d c1] & H1 & H2). simplify_eq.
    exists c1. split; [| done].
    by apply (read_stream_subsections_in_section _ _ _ (data, _) (d, c1) Hc H1).
Qed.

End section_invariant.

Lemma put_ref_tables idnum generation start c c' :
  put_ref idnum generation start c = Ok c' → section_tables c' = section_tables c.
Proof.
  unfold put_ref. case_bool_decide; [discriminate |].
  case_bool_decide; [discriminate |].
  intros Hput; case_bool_decide; simpl in Hput; destruct (used_later _ _ _);
    simpl in Hput; simplify_eq; done.
Qed.

Lemma free_ref_tables idnum next_generation c c' :
  free_ref idnum next_generation c = Ok c' → section_tables c' = section_tables c.
Proof.
  unfold free_ref. case_bool_decide; [intros; by simplify_eq |].
  simpl. intros Hfree.
  repeat (match type of Hfree with
          | context [match ?x with _ => _ end] => destruct x eqn:?
          end; simpl in Hfree; try discriminate);
    simplify_eq; done.
Qed.

Lemma put_obj_stream_ref_tables idnum n i c :
  section_tables (put_obj_stream_ref idnum n i c) = section_tables c.
Proof. unfold put_obj_stream_ref. by destruct (negb _). Qed.

Lemma section_tables_in_section t :
  preserved_in_section (λ c, section_tables c = t).
Proof.
  split.
  - intros ????? <- Hput. by eapply put_ref_tables.
  - intros ???? <- Hfree. by eapply free_ref_tables.
  - intros ???? <-. apply put_obj_stream_ref_tables.
Qed.

(** What a turn of the loop does to the tables: the pointer is logged on
    every turn, the other tables grow when a section is read. *)
Lemma read_located_section_tables sec c c' :
  read_located_section sec c = Ok c' →
  let read := length (containers_of [sec]) in
  xref_sections c' = xref_sections c + Z.of_nat read
  ∧ xref_locations c' = xref_locations c ++ [sec.1]
  ∧ xref_container_info c' = xref_container_info c ++ containers_of [sec]
  ∧ length (_refs_by_section c') = (length (_refs_by_section c) + read)%nat
  ∧ length (_freed_by_section c') = (length (_freed_by_section c) + read)%nat.
Proof.
  intros Hrun.
  destruct sec as [startxref [xs xe subs | ref se data idx w | | |]];
    try (apply (read_located_section_in_section (λ _, True)) in Hrun;
         [| by split]; simpl in Hrun; subst c'; simpl;
         rewrite !app_nil_r; repeat split; lia).
  - destruct (read_located_section_in_section _ (section_tables_in_section _)
               _ c c' Hrun eq_refl) as (c1 & Hc1 & ->).
    unfold section_tables in Hc1. simpl in Hc1.
    injection Hc1 as Hs Hl Hi Hr Hf. simpl.
    rewrite !length_app, Hs, Hl, Hi, Hr, Hf. simpl. repeat split; lia.
  - destruct (read_located_section_in_section _ (section_tables_in_section _)
               _ c c' Hrun eq_refl) as (c1 & Hc1 & ->).
    unfold section_tables in Hc1. simpl in Hc1.
    injection Hc1 as Hs Hl Hi Hr Hf. simpl.
    rewrite !length_app, Hs, Hl, Hi, Hr, Hf. simpl. repeat split; lia.
Qed.

Lemma containers_of_cons sec sections :
  containers_of (sec :: sections) = containers_of [sec] ++ containers_of sections.
Proof. unfold containers_of. simpl. by destruct (container_info_of sec.2). Qed.

Lemma read_sections_tables sections : ∀ c c',
  for_each read_located_section sections c = Ok c' →
  let read := length (containers_of sections) in
  xref_sections c' = xref_sections c + Z.of_nat read
  ∧ xref_locations c' = xref_locations c ++ sections.*1
  ∧ xref_container_info c' = xref_container_info c ++ containers_of sections
  ∧ length (_refs_by_section c') = (length (_refs_by_section c) + read)%nat
  ∧ length (_freed_by_section c') = (length (_freed_by_section c) + read)%nat.
Proof.
  induction sections as [|sec sections IH]; intros c c' Hrun.
  - simpl in *. simplify_eq. rewrite !app_nil_r. repeat split; lia.
  - simpl in Hrun. apply result_bind_Ok in Hrun as (c1 & H1 & H2).
    apply read_located_section_tables in H1 as (Hs & Hl & Hi & Hr & Hf).
    apply IH in H2 as (Hs' & Hl' & Hi' & Hr' & Hf').
    rewrite containers_of_cons, length_app. cbv zeta.
    rewrite Hs', Hl', Hi', Hr', Hf', Hs, Hl, Hi, Hr, Hf.
    rewrite <- !app_assoc. simpl. repeat split; lia.
Qed.

(** Everything a [put_ref] that returns does. *)
Lemma put_ref_effect idnum generation start c c' :
  put_ref idnum generation start c = Ok c' →
  let fresh := negb (used_later c idnum generation) in
  standard_xrefs c'
  = (if fresh then <[(generation, idnum) := XOffset start]> (standard_xrefs c)
     else standard_xrefs c)
  ∧ _generations c'
    = <[idnum := if fresh then {[generation]}
                 else {[generation]} ∪ default ∅ (_generations c !! idnum)]> (_generations c)
  ∧ last_change c'
    = (if fresh then <[idnum := xref_sections c]> (last_change c) else last_change c)
  ∧ in_obj_stream c' = in_obj_stream c
  ∧ _obj_streams_by_revision c' = _obj_streams_by_revision c
  ∧ _current_section_ids c' = {[mkReference idnum generation]} ∪ _current_section_ids c
  ∧ _current_section_freed c' = _current_section_freed c
  ∧ history c'
    = <[(generation, idnum) :=
          history_at c (generation, idnum) ++ [(xref_sections c, Offset start)]]> (history c)
  ∧ section_tables c' = section_tables c.
Proof.
  unfold put_ref. case_bool_decide; [discriminate |].
  case_bool_decide; [discriminate |].
  intros Hput; case_bool_decide; simpl in Hput;
    unfold used_later in *; simpl in *;
    destruct (_generations c !! idnum) as [gens|]; simpl in *;
    try destruct (bool_decide (generation ∈ gens)); simpl in *;
    simplify_eq; done.
Qed.

(** Everything a [free_ref] that returns does, for an object other than 0. *)
Lemma free_ref_effect idnum next_generation c c' :
  free_ref idnum next_generation c = Ok c' → idnum ≠ 0 →
  let prev_generation :=
    if bool_decide (next_generation ≠ 0) then next_generation - 1 else 0xffff in
  standard_xrefs c' = <[(prev_generation, idnum) := XNull]> (standard_xrefs c)
  ∧ _generations c'
    = <[idnum := {[prev_generation]} ∪ default ∅ (_generations c !! idnum)]> (_generations c)
  ∧ (∀ gen, gen ∈ default ∅ (_generations c !! idnum) → prev_generation < gen)
  ∧ last_change c'
    = (if bool_decide (is_Some (last_change c !! idnum)) then last_change c
       else <[idnum := xref_sections c]> (last_change c))
  ∧ in_obj_stream c' = in_obj_stream c
  ∧ _obj_streams_by_revision c' = _obj_streams_by_revision c
  ∧ _current_section_ids c' = {[mkReference idnum prev_generation]} ∪ _current_section_ids c
  ∧ _current_section_freed c'
    = {[mkReference idnum prev_generation]} ∪ _current_section_freed c
  ∧ history c' = history c
  ∧ section_tables c' = section_tables c.
Proof.
  unfold free_ref. intros Hfree Hid.
  rewrite bool_decide_eq_false_2 in Hfree by done. simpl in Hfree.
  set (prev := if bool_decide (next_generation ≠ 0) then next_generation - 1 else 65535) in *.
  apply result_bind_Ok in Hfree as (c1 & Hgen & Hfree).
  assert (Hgens : ∀ gen, gen ∈ default ∅ (_generations c !! idnum) → prev < gen).
  { destruct (_generations c !! idnum) as [gens|]; simpl in *; [| set_solver].
    destruct (find _ _) eqn:Hfind; [discriminate |].
    intros gen Hin. apply elem_of_elements, list_elem_of_In in Hin.
    pose proof (find_none _ _ Hfind gen Hin) as Hb. simpl in Hb.
    apply bool_decide_eq_false_1 in Hb. lia. }
  assert (Hc1 : c1 = set_generations
      (<[idnum := {[prev]} ∪ default ∅ (_generations c !! idnum)]> (_generations c))
      (set_current_section_ids ({[mkReference idnum prev]} ∪ _current_section_ids c)
        (set_current_section_freed ({[mkReference idnum prev]} ∪ _current_section_freed c)
          (set_standard_xrefs (<[(prev, idnum) := XNull]> (standard_xrefs c)) c)))).
  { destruct (_generations c !! idnum) as [gens|]; simpl in Hgen.
    - destruct (find _ _); simplify_eq. done.
    - simplify_eq. unfold set_generations. simpl.
      by rewrite (right_id_L ∅ (∪)). }
  clear Hgen. subst c1. simpl in Hfree.
  destruct (bool_decide (is_Some (last_change c !! idnum))); simpl in Hfree;
    destruct (_previous_expected_free c !! idnum); simpl in Hfree;
    try case_bool_decide; simplify_eq; simpl; done.
Qed.

(** Everything [put_obj_stream_ref] does. *)
Lemma put_obj_stream_ref_effect idnum n i c c' :
  put_obj_stream_ref idnum n i c = c' →
  let fresh := negb (used_later c idnum 0) in
  standard_xrefs c' = standard_xrefs c
  ∧ _generations c'
    = (if fresh then <[idnum := {[0]}]> (_generations c) else _generations c)
  ∧ last_change c'
    = (if fresh then <[idnum := xref_sections c]> (last_change c) else last_change c)
  ∧ in_obj_stream c'
    = (if fresh then <[idnum := (n, i)]> (in_obj_stream c) else in_obj_stream c)
  ∧ _obj_streams_by_revision c'
    = <[xref_sections c :=
          {[mkReference n 0]} ∪ default ∅ (_obj_streams_by_revision c !! xref_sections c)]>
        (_obj_streams_by_revision c)
  ∧ _current_section_ids c' = {[mkReference idnum 0]} ∪ _current_section_ids c
  ∧ _current_section_freed c' = _current_section_freed c
  ∧ _previous_expected_free c' = _previous_expected_free c
  ∧ history c'
    = <[(0, idnum) := history_at c (0, idnum) ++ [(xref_sections c, InObjStm n i)]]> (history c)
  ∧ section_tables c' = section_tables c.
Proof.
  intros <-. unfold put_obj_stream_ref, used_later. simpl.
  destruct (_generations c !! idnum) as [gens|]; simpl;
    try destruct (bool_decide (0 ∈ gens)); simpl; done.
Qed.

Lemma listed_at_insert flushed cur x section ref :
  listed_at flushed ({[x]} ∪ cur) section ref
  ↔ listed_at flushed cur section ref ∨ (section = length flushed ∧ ref = x).
Proof.
  unfold listed_at. split.
  - intros (S & Hlook & Hin).
    apply lookup_app_Some in Hlook as [Hl | [Hge Hl]].
    + left. exists S. split; [by apply lookup_app_l_Some | done].
    + apply list_lookup_singleton_Some in Hl as [Hi <-].
      assert (section = length flushed) as -> by lia.
      apply elem_of_union in Hin as [Hin | Hin].
      * right. apply elem_of_singleton in Hin. done.
      * left. exists cur. split; [| done].
        rewrite lookup_app_r by done. by rewrite Nat.sub_diag.
  - intros [(S & Hlook & Hin) | [-> ->]].
    + apply lookup_app_Some in Hlook as [Hl | [Hge Hl]].
      * exists S. split; [by apply lookup_app_l_Some | done].
      * apply list_lookup_singleton_Some in Hl as [Hi <-].
        exists ({[x]} ∪ cur). split; [| by apply elem_of_union_r].
        rewrite lookup_app_r by done. by rewrite Hi.
    + exists ({[x]} ∪ cur). split.
      * rewrite lookup_app_r by done. by rewrite Nat.sub_diag.
      * apply elem_of_union_l. by apply elem_of_singleton.
Qed.

Lemma listed_at_flushed flushed section ref :
  listed_at flushed ∅ section ref ↔ ∃ S, flushed !! section = Some S ∧ ref ∈ S.
Proof.
  unfold listed_at. split.
  - intros (S & Hlook & Hin).
    apply lookup_app_Some in Hlook as [Hl | [Hge Hl]]; [by exists S |].
    apply list_lookup_singleton_Some in Hl as [_ <-]. by apply not_elem_of_empty in Hin.
  - intros (S & Hlook & Hin). exists S. split; [by apply lookup_app_l_Some | done].
Qed.

Lemma listed_at_flush flushed cur section ref :
  listed_at (flushed ++ [cur]) ∅ section ref ↔ listed_at flushed cur section ref.
Proof. apply listed_at_flushed. Qed.

Lemma listed_at_bound flushed cur section ref :
  listed_at flushed cur section ref → (section ≤ length flushed)%nat.
Proof.
  intros (S & Hlook & _). apply lookup_lt_Some in Hlook.
  rewrite length_app in Hlook. simpl in Hlook. lia.
Qed.

(** The entries of a history after one is appended. *)
Lemma elem_of_history_append (h h' : gmap (Z * Z) (list (Z * marker))) ix0 e0 :
  h' = <[ix0 := default [] (h !! ix0) ++ [e0]]> h →
  ∀ ix e, e ∈ default [] (h' !! ix) ↔ e ∈ default [] (h !! ix) ∨ (ix = ix0 ∧ e = e0).
Proof.
  intros -> ix e. destruct (decide (ix = ix0)) as [-> | Hne].
  - rewrite lookup_insert_eq. simpl. rewrite elem_of_app, list_elem_of_singleton.
    split; [intros [Hold | ->]; [by left | by right] | intros [Hold | [_ ->]]; [by left | by right]].
  - rewrite lookup_insert_ne by done.
    split; [by left | intros [Hold | [Heq _]]; [done | by destruct Hne]].
Qed.

Lemma tables_counted_preserved : preserved_by_calls tables_counted.
Proof.
  split.
  - intros idnum generation start c c' (Hnn & Hr & Hf & Hb) Hput.
    apply put_ref_effect in Hput as (_ & _ & _ & _ & _ & _ & _ & Hh & Ht).
    injection Ht as Hs _ _ Hr' Hf'. unfold tables_counted.
    rewrite Hs, Hr', Hf'. repeat split; try done;
      unfold history_at in H; apply (elem_of_history_append _ _ _ _ Hh) in H
        as [Hold | [_ Heq]]; try (apply (Hb _ _ _ Hold)); simplify_eq; lia.
  - intros idnum next_generation c c' Hc Hfree.
    destruct (decide (idnum = 0)) as [-> | Hid].
    { unfold free_ref in Hfree. simpl in Hfree. by simplify_eq. }
    destruct Hc as (Hnn & Hr & Hf & Hb).
    apply free_ref_effect in Hfree as (_ & _ & _ & _ & _ & _ & _ & _ & Hh & Ht); [| done].
    injection Ht as Hs _ _ Hr' Hf'. unfold tables_counted, history_at.
    rewrite Hs, Hr', Hf', Hh. done.
  - intros idnum n i c (Hnn & Hr & Hf & Hb).
    remember (put_obj_stream_ref idnum n i c) as c' eqn:Hc'. symmetry in Hc'.
    apply put_obj_stream_ref_effect in Hc' as (_ & _ & _ & _ & _ & _ & _ & _ & Hh & Ht).
    injection Ht as Hs _ _ Hr' Hf'. unfold tables_counted.
    rewrite Hs, Hr', Hf'. repeat split; try done;
      unfold history_at in H; apply (elem_of_history_append _ _ _ _ Hh) in H
        as [Hold | [_ Heq]]; try (apply (Hb _ _ _ Hold)); simplify_eq; lia.
  - intros c (Hnn & Hr & Hf & Hb). unfold tables_counted. simpl.
    rewrite !length_app, Hr, Hf. simpl. repeat split; try lia;
      apply Hb in H; lia.
  - intros v c Hc. exact Hc.
  - intros v c Hc. exact Hc.
Qed.

Lemma tables_counted_init : tables_counted XRefCache_init.
Proof.
  repeat split; try done; unfold history_at in H; simpl in H;
    rewrite lookup_empty in H; by apply elem_of_nil in H.
Qed.

Lemma refs_listed_preserved :
  preserved_by_calls (λ c, tables_counted c ∧ refs_listed c).
Proof.
  split.
  - intros idnum generation start c c' [Hcount Hlisted] Hput.
    split; [by eapply (keeps_put_ref _ tables_counted_preserved) |].
    destruct Hcount as (Hnn & Hr & _).
    apply put_ref_effect in Hput as (_ & _ & _ & _ & _ & Hids & Hfreed & Hh & Ht).
    injection Ht as Hs _ _ Hr' Hf'.
    intros section ref. rewrite Hids, Hfreed, Hr', Hf', listed_at_insert, (Hlisted _ _).
    unfold history_at.
    setoid_rewrite (elem_of_history_append _ _ _ _ Hh).
    split.
    + intros [[[m Hm] | Hfr] | [-> ->]].
      * left. exists m. by left.
      * by right.
      * left. exists (Offset start). right. simpl. split; [done |].
        f_equal. rewrite Hr. lia.
    + intros [[m [Hm | [Hix Heq]]] | Hfr].
      * left. left. by exists m.
      * right. destruct ref as [id g]. simpl in *. simplify_eq.
        split; [lia | done].
      * left. by right.
  - intros idnum next_generation c c' [Hcount Hlisted] Hfree.
    split; [by eapply (keeps_free_ref _ tables_counted_preserved) |].
    destruct (decide (idnum = 0)) as [-> | Hid].
    { unfold free_ref in Hfree. simpl in Hfree. by simplify_eq. }
    destruct Hcount as (Hnn & Hr & Hf & _).
    apply free_ref_effect in Hfree
      as (_ & _ & _ & _ & _ & _ & Hids & Hfreed & Hh & Ht); [| done].
    injection Ht as Hs _ _ Hr' Hf'.
    intros section ref. unfold history_at.
    rewrite Hids, Hfreed, Hr', Hf', Hh, !listed_at_insert, (Hlisted _ _), Hr, Hf.
    unfold history_at. tauto.
  - intros idnum n i c [Hcount Hlisted].
    split; [by apply (keeps_put_obj_stream_ref _ tables_counted_preserved) |].
    destruct Hcount as (Hnn & Hr & _).
    remember (put_obj_stream_ref idnum n i c) as c' eqn:Hc'. symmetry in Hc'.
    apply put_obj_stream_ref_effect in Hc'
      as (_ & _ & _ & _ & _ & Hids & Hfreed & _ & Hh & Ht).
    injection Ht as Hs _ _ Hr' Hf'.
    intros section ref. rewrite Hids, Hfreed, Hr', Hf', listed_at_insert, (Hlisted _ _).
    unfold history_at.
    setoid_rewrite (elem_of_history_append _ _ _ _ Hh).
    split.
    + intros [[[m Hm] | Hfr] | [-> ->]].
      * left. exists m. by left.
      * by right.
      * left. exists (InObjStm n i). right. simpl. split; [done |].
        f_equal. rewrite Hr. lia.
    + intros [[m [Hm | [Hix Heq]]] | Hfr].
      * left. left. by exists m.
      * right. destruct ref as [id g]. simpl in *. simplify_eq.
        split; [lia | done].
      * left. by right.
  - intros c [Hcount Hlisted].
    split; [by apply (keeps_next_section _ tables_counted_preserved) |].
    intros section ref. simpl. rewrite !listed_at_flush. apply Hlisted.
  - intros v c Hc. exact Hc.
  - intros v c Hc. exact Hc.
Qed.

Lemma refs_listed_init : tables_counted XRefCache_init ∧ refs_listed XRefCache_init.
Proof.
  split; [apply tables_counted_init |].
  intros section ref. unfold history_at. simpl. rewrite lookup_empty. simpl.
  rewrite listed_at_flushed. split.
  - intros (S & Hlook & _). by destruct section.
  - intros [[m Hm] | Hfr].
    + by apply elem_of_nil in Hm.
    + done.
Qed.

(** Between two sections the sets of the current section are empty. *)
Lemma read_located_section_current_empty sec c c' :
  _current_section_ids c = ∅ ∧ _current_section_freed c = ∅ →
  read_located_section sec c = Ok c' →
  _current_section_ids c' = ∅ ∧ _current_section_freed c' = ∅.
Proof.
  unfold read_located_section, read_section.
  destruct sec as [startxref [xs xe subs | ref se data idx w | | |]]; simpl;
    intros Hc Hrun; try discriminate Hrun.
  - apply result_bind_Ok in Hrun as (c1 & H1 & H2). simplify_eq.
    unfold read_xref_table in H1.
    apply result_bind_Ok in H1 as (c2 & H1 & H2). by simplify_eq.
  - unfold read_xref_stream in Hrun.
    apply result_bind_Ok in Hrun as ([d c1] & H1 & H2). by simplify_eq.
  - by injection Hrun as <-.
Qed.

Lemma read_sections_current_empty sections c :
  for_each read_located_section sections XRefCache_init = Ok c →
  _current_section_ids c = ∅ ∧ _current_section_freed c = ∅.
Proof.
  apply (for_each_invariant
           (λ c, _current_section_ids c = ∅ ∧ _current_section_freed c = ∅)); [| done].
  intros x s s'. apply read_located_section_current_empty.
Qed.

(** The cache that [_read_xrefs] returns is the one the sections built. *)
Lemma _read_xrefs_Ok sections c :
  _read_xrefs sections = Ok c →
  for_each read_located_section sections XRefCache_init = Ok c.
Proof.
  unfold _read_xrefs. intros Hrun.
  apply result_bind_Ok in Hrun as (c1 & H1 & H2).
  unfold check_orphans in H2. case_bool_decide; by simplify_eq.
Qed.

Lemma index_in_range {A} (l : list A) (i : Z) :
  0 ≤ i < Z.of_nat (length l) →
  ∃ x, l !! Z.to_nat i = Some x ∧ index l i = Ok x ∧ index l (i - Z.of_nat (length l)) = Ok x.
Proof.
  intros Hi.
  destruct (lookup_lt_is_Some_2 l (Z.to_nat i)) as [x Hx]; [lia |].
  exists x. split; [done |]. split; [by apply index_nonneg; [lia |] |].
  unfold index.
  assert (Hneg : (0 <=? i - Z.of_nat (length l)) = false) by lia.
  rewrite Hneg. cbv zeta.
  replace (Z.of_nat (length l) + (i - Z.of_nat (length l))) with i by lia.
  assert (Hpos : (0 <=? i) = true) by lia.
  by rewrite Hpos, Hx.
Qed.

Lemma index_out_of_range {A} (l : list A) (i : Z) :
  i < - Z.of_nat (length l) ∨ Z.of_nat (length l) ≤ i → index l i = Raise IndexError.
Proof.
  intros Hi. unfold index.
  destruct (Z.leb_spec 0 i) as [Hnn | Hneg]; cbv zeta.
  - assert (Hpos : (0 <=? i) = true) by lia. rewrite Hpos.
    rewrite lookup_ge_None_2; [done | lia].
  - assert (Hb : (0 <=? Z.of_nat (length l) + i) = false) by lia. by rewrite Hb.
Qed.

Lemma index_is_Ok {A} (l : list A) (i : Z) :
  is_Ok (index l i) ↔ - Z.of_nat (length l) ≤ i < Z.of_nat (length l).
Proof.
  split.
  - intros [x Hx].
    destruct (decide (- Z.of_nat (length l) ≤ i < Z.of_nat (length l))) as [|Hout]; [done |].
    rewrite index_out_of_range in Hx by lia. discriminate.
  - intros Hi. destruct (decide (0 ≤ i)) as [Hnn | Hneg].
    + destruct (index_in_range l i) as (x & _ & Hx & _); [lia |]. by exists x.
    + destruct (index_in_range l (i + Z.of_nat (length l))) as (x & _ & _ & Hx); [lia |].
      exists x. rewrite <- Hx. f_equal. lia.
Qed.

(** A table of the cache with one entry per section, read at the index
    [xref_sections - 1 - revision] as the per-revision queries do. *)
Lemma revision_index {A} (table : list A) (n revision : Z) :
  Z.of_nat (length table) = n →
  (0 ≤ revision < n →
     ∃ x, table !! Z.to_nat (n - 1 - revision) = Some x
       ∧ index table (n - 1 - revision) = Ok x
       ∧ index table (n - 1 - (revision + n)) = Ok x)
  ∧ (revision < 0 ∨ 2 * n ≤ revision → index table (n - 1 - revision) = Raise IndexError).
Proof.
  intros Hlen. split.
  - intros Hr. destruct (index_in_range table (n - 1 - revision)) as (x & Hx & Hi & Hw); [lia |].
    exists x. split; [done |]. split; [done |]. rewrite <- Hw. f_equal. lia.
  - intros Hr. apply index_out_of_range. lia.
Qed.

Lemma _read_xrefs_tables sections c :
  _read_xrefs sections = Ok c →
  total_revisions c = Z.of_nat (length (containers_of sections))
  ∧ xref_locations c = sections.*1
  ∧ xref_container_info c = containers_of sections
  ∧ length (_refs_by_section c) = length (containers_of sections)
  ∧ length (_freed_by_section c) = length (containers_of sections).
Proof.
  intros Hread. apply _read_xrefs_Ok, read_sections_tables in Hread
    as (Hs & Hl & Hi & Hr & Hf).
  unfold total_revisions. simpl in *. repeat split; try done.
Qed.

Lemma containers_of_length sections :
  (length (containers_of sections) ≤ length sections)%nat.
Proof.
  induction sections as [|sec sections IH]; [done |].
  rewrite containers_of_cons, length_app. unfold containers_of at 1. simpl.
  destruct (container_info_of sec.2); simpl; lia.
Qed.

Lemma containers_of_sections sections :
  Forall (λ turn, is_Some (container_info_of turn.2)) sections →
  ∀ (k : nat) turn, sections !! k = Some turn →
    ∃ info, container_info_of turn.2 = Some info ∧ containers_of sections !! k = Some info.
Proof.
  induction 1 as [|sec sections [info Hinfo] _ IH]; intros k turn Hk; [done |].
  rewrite containers_of_cons. unfold containers_of at 1. simpl. rewrite Hinfo. simpl.
  destruct k as [|k]; simpl in *.
  - simplify_eq. by exists info.
  - by apply IH.
Qed.

(** X1. The cache counts one revision per section read.  The container
    query for revision [r] answers with the container of the section read
    at position [total_revisions - 1 - r] among the sections.  The pointer
    query reads the log of the loop at the same index, and the log has an
    entry for every turn of the loop, also for a turn spent on a misplaced
    pointer: it answers with the pointer of the turn at that position among
    all the turns.  When every turn has read a section, this is the pointer
    that led to the section of the revision. *)
Theorem revision_tables_follow_sections sections c :
  _read_xrefs sections = Ok c →
  total_revisions c = Z.of_nat (length (containers_of sections))
  ∧ (∀ (k : nat) info, containers_of sections !! k = Some info →
       get_xref_container_info c (total_revisions c - 1 - Z.of_nat k) = Ok info)
  ∧ (∀ (k : nat) turn, sections !! k = Some turn →
       get_startxref_for_revision c (total_revisions c - 1 - Z.of_nat k) = Ok turn.1)
  ∧ (Forall (λ turn, is_Some (container_info_of turn.2)) sections →
     ∀ (k : nat) turn, sections !! k = Some turn →
       let revision := total_revisions c - 1 - Z.of_nat k in
       get_startxref_for_revision c revision = Ok turn.1
       ∧ ∃ info, container_info_of turn.2 = Some info
           ∧ get_xref_container_info c revision = Ok info).
Proof.
  intros Hread.
  destruct (_read_xrefs_tables _ _ Hread) as (Hn & Hl & Hi & _).
  assert (Hinfo : ∀ (k : nat) info, containers_of sections !! k = Some info →
            get_xref_container_info c (total_revisions c - 1 - Z.of_nat k) = Ok info).
  { intros k info Hk. unfold get_xref_container_info, total_revisions.
    replace (xref_sections c - 1 - (xref_sections c - 1 - Z.of_nat k)) with (Z.of_nat k)
      by lia.
    apply index_nonneg; [lia |]. by rewrite Nat2Z.id, Hi. }
  assert (Hptr : ∀ (k : nat) turn, sections !! k = Some turn →
            get_startxref_for_revision c (total_revisions c - 1 - Z.of_nat k) = Ok turn.1).
  { intros k turn Hk. unfold get_startxref_for_revision, total_revisions.
    replace (xref_sections c - 1 - (xref_sections c - 1 - Z.of_nat k)) with (Z.of_nat k)
      by lia.
    apply index_nonneg; [lia |]. by rewrite Nat2Z.id, Hl, list_lookup_fmap, Hk. }
  split; [done |]. split; [done |]. split; [done |].
  intros Hall k turn Hk revision. split; [by apply Hptr |].
  destruct (containers_of_sections _ Hall k turn Hk) as (info & Hsome & Hlook).
  exists info. split; [done |]. by apply Hinfo.
Qed.

Lemma revision_tables_follow_sections_witness :
  total_revisions recovered_cache = Z.of_nat (length (containers_of recovered_sections))
  ∧ get_xref_container_info recovered_cache (total_revisions recovered_cache - 1 - Z.of_nat 0)
    = Ok (TableSpan 900 940)
  ∧ get_startxref_for_revision recovered_cache (total_revisions recovered_cache - 1 - Z.of_nat 0)
    = Ok 899
  ∧ get_startxref_for_revision sample_cache (total_revisions sample_cache - 1 - Z.of_nat 0)
    = Ok 900
  ∧ get_xref_container_info sample_cache (total_revisions sample_cache - 1 - Z.of_nat 0)
    = Ok (TableSpan 900 940).
Proof.
  destruct (revision_tables_follow_sections recovered_sections recovered_cache)
    as (Hn & Hinfo & Hptr & _); [vm_compute; reflexivity |].
  destruct (revision_tables_follow_sections sample_sections sample_cache)
    as (_ & _ & _ & Hall); [vm_compute; reflexivity |].
  split; [exact Hn |].
  split; [apply (Hinfo 0%nat (TableSpan 900 940)); reflexivity |].
  split; [apply (Hptr 0%nat (899, MisplacedPointer)); reflexivity |].
  destruct (Hall ltac:(repeat constructor; by eexists) 0%nat
              (900, XrefTable 900 940 [mkSubsection 5 [mkLine 300 0 MarkerN]]) eq_refl)
    as (Hptr0 & info & Hsome & Hinfo0).
  split; [exact Hptr0 |]. injection Hsome as <-. exact Hinfo0.
Defined.

(** X2. The per-revision queries do not check their argument.  With [n]
    revisions, the queries for the container, the references and the freed
    references answer for [0 <= r < n], answer a revision [r + n] with the
    data of revision [r] (the index is negative and counts from the end),
    and raise [IndexError] for every other revision.  The query for the
    pointer does the same on the log of the loop, which has an entry for
    each of the [t >= n] turns: it answers for [n - t <= r < n + t], so for
    negative revisions too after a turn spent on a misplaced pointer. *)
Theorem revision_queries_wrap_around sections c r :
  _read_xrefs sections = Ok c →
  let n := total_revisions c in
  let t := Z.of_nat (length sections) in
  n ≤ t
  ∧ (0 ≤ r < n →
     is_Ok (get_xref_container_info c r)
     ∧ get_xref_container_info c (r + n) = get_xref_container_info c r
     ∧ is_Ok (explicit_refs_in_revision c r)
     ∧ explicit_refs_in_revision c (r + n) = explicit_refs_in_revision c r
     ∧ is_Ok (refs_freed_in_revision c r)
     ∧ refs_freed_in_revision c (r + n) = refs_freed_in_revision c r)
  ∧ (r < 0 ∨ 2 * n ≤ r →
     get_xref_container_info c r = Raise IndexError
     ∧ explicit_refs_in_revision c r = Raise IndexError
     ∧ refs_freed_in_revision c r = Raise IndexError)
  ∧ (n - t ≤ r < n →
     is_Ok (get_startxref_for_revision c r)
     ∧ get_startxref_for_revision c (r + t) = get_startxref_for_revision c r)
  ∧ (r < n - t ∨ n + t ≤ r → get_startxref_for_revision c r = Raise IndexError).
Proof.
  intros Hread n t.
  destruct (_read_xrefs_tables _ _ Hread) as (Hn & Hl & Hi & Hr & Hf).
  pose proof (containers_of_length sections) as Hle.
  assert (Hlen_l : Z.of_nat (length (xref_locations c)) = t)
    by (rewrite Hl, length_fmap; done).
  assert (Hlen_i : Z.of_nat (length (xref_container_info c)) = n)
    by (rewrite Hi; done).
  assert (Hlen_r : Z.of_nat (length (_refs_by_section c)) = n) by (rewrite Hr; done).
  assert (Hlen_f : Z.of_nat (length (_freed_by_section c)) = n) by (rewrite Hf; done).
  assert (Hnt : n ≤ t) by (unfold n, t; rewrite Hn; lia).
  unfold get_startxref_for_revision, get_xref_container_info,
    explicit_refs_in_revision, refs_freed_in_revision.
  change (xref_sections c) with n. clearbody n t.
  split; [done |]. split; [| split; [| split]].
  - intros Hrange.
    destruct (revision_index _ _ r Hlen_i) as [Hin_i _].
    destruct (revision_index _ _ r Hlen_r) as [Hin_r _].
    destruct (revision_index _ _ r Hlen_f) as [Hin_f _].
    destruct (Hin_i Hrange) as (x2 & _ & -> & ->).
    destruct (Hin_r Hrange) as (x3 & _ & -> & ->).
    destruct (Hin_f Hrange) as (x4 & _ & -> & ->).
    repeat split; by eexists.
  - intros Hrange.
    destruct (revision_index _ _ r Hlen_i) as [_ ->]; [| done].
    destruct (revision_index _ _ r Hlen_r) as [_ ->]; [| done].
    destruct (revision_index _ _ r Hlen_f) as [_ ->]; done.
  - intros Hrange.
    destruct (index_in_range (xref_locations c) (n - 1 - r)) as (x & _ & Hx & Hw); [lia |].
    rewrite Hx. split; [by eexists |]. rewrite <- Hw. f_equal. lia.
  - intros Hrange. apply index_out_of_range. lia.
Qed.

Lemma revision_queries_wrap_around_witness :
  is_Ok (get_startxref_for_revision recovered_cache (-1))
  ∧ get_startxref_for_revision recovered_cache (-2) = Raise IndexError
  ∧ get_xref_container_info recovered_cache (-1) = Raise IndexError
  ∧ get_xref_container_info recovered_cache (0 + total_revisions recovered_cache)
    = get_xref_container_info recovered_cache 0.
Proof.
  assert (Hread : _read_xrefs recovered_sections = Ok recovered_cache)
    by (vm_compute; reflexivity).
  split; [| split; [| split]].
  - destruct (revision_queries_wrap_around _ _ (-1) Hread) as (_ & _ & _ & Hin & _).
    destruct Hin as [Hok _]; [| exact Hok]. vm_compute. split; congruence.
  - destruct (revision_queries_wrap_around _ _ (-2) Hread) as (_ & _ & _ & _ & Hout).
    apply Hout. left. vm_compute. reflexivity.
  - destruct (revision_queries_wrap_around _ _ (-1) Hread) as (_ & _ & Hout & _).
    destruct Hout as (Hraise & _); [left; lia | exact Hraise].
  - destruct (revision_queries_wrap_around _ _ 0 Hread) as (_ & Hin & _).
    destruct Hin as (_ & Hwrap & _); [| exact Hwrap].
    vm_compute. split; congruence.
Defined.

(** X3. The references of a revision are those that the revision writes
    (an entry of its section in their history) and those it frees. *)
Theorem explicit_refs_written_or_freed sections c revision :
  _read_xrefs sections = Ok c → 0 ≤ revision < total_revisions c →
  ∃ refs freed,
    explicit_refs_in_revision c revision = Ok refs
    ∧ refs_freed_in_revision c revision = Ok freed
    ∧ ∀ ref, ref ∈ refs
        ↔ (∃ m, (total_revisions c - 1 - revision, m)
                  ∈ history_at c (generation ref, idnum ref))
          ∨ ref ∈ freed.
Proof.
  intros Hread Hrange.
  destruct (_read_xrefs_tables _ _ Hread) as (Hn & _ & _ & Hr & Hf).
  pose proof (_read_xrefs_Ok _ _ Hread) as Hrun.
  destruct (read_sections_current_empty _ _ Hrun) as [Hids Hfreed].
  destruct (read_sections_invariant _ refs_listed_preserved sections c refs_listed_init Hrun)
    as [_ Hlisted].
  unfold explicit_refs_in_revision, refs_freed_in_revision.
  unfold total_revisions in *.
  set (section := xref_sections c - 1 - revision) in *.
  destruct (index_in_range (_refs_by_section c) section) as (refs & Hrefs & -> & _); [lia |].
  destruct (index_in_range (_freed_by_section c) section) as (freed & Hfr & -> & _); [lia |].
  exists refs, freed. split; [done |]. split; [done |].
  intros ref. specialize (Hlisted (Z.to_nat section) ref).
  rewrite Hids, Hfreed, !listed_at_flushed in Hlisted.
  rewrite Z2Nat.id in Hlisted by lia.
  split.
  - intros Hin. destruct Hlisted as [Hfwd _].
    destruct Hfwd as [Hw | (F & HF & HinF)]; [by exists refs | by left |].
    right. by simplify_eq.
  - intros Hin. destruct Hlisted as [_ Hbwd].
    destruct Hbwd as (S & HS & HinS).
    { destruct Hin as [Hw | Hin]; [by left | right; by exists freed]. }
    by simplify_eq.
Qed.

Lemma explicit_refs_written_or_freed_witness :
  ∃ refs freed,
    explicit_refs_in_revision sample_cache 0 = Ok refs
    ∧ refs_freed_in_revision sample_cache 0 = Ok freed
    ∧ ∀ ref, ref ∈ refs
        ↔ (∃ m, (total_revisions sample_cache - 1 - 0, m)
                  ∈ history_at sample_cache (generation ref, idnum ref))
          ∨ ref ∈ freed.
Proof.
  apply (explicit_refs_written_or_freed sample_sections).
  - vm_compute. reflexivity.
  - vm_compute. split; congruence.
Defined.

Lemma used_later_true c idnum g :
  used_later c idnum g = true
  ↔ ∃ gens, _generations c !! idnum = Some gens ∧ g ∈ gens.
Proof.
  unfold used_later. destruct (_generations c !! idnum) as [gens|].
  - rewrite bool_decide_eq_true. split; [by exists gens | by intros (? & [= <-] & ?)].
  - split; [done | by intros (? & [=] & _)].
Qed.

Lemma getitem_stored c ref : is_Some (__getitem__ c ref) ↔ stored c ref.
Proof.
  unfold __getitem__, stored.
  destruct (decide (generation ref = 0)) as [Hg | Hg];
    [rewrite (bool_decide_eq_true_2 _ Hg) | rewrite (bool_decide_eq_false_2 _ Hg)];
    simpl.
  - destruct (in_obj_stream c !! idnum ref) as [[n i]|] eqn:Hin.
    + rewrite bool_decide_eq_true_2 by by eexists. simpl.
      split; [intros _; right; split; [done | by eexists] | by eexists].
    + rewrite bool_decide_eq_false_2 by by intros [? [=]].
      destruct (standard_xrefs c !! _) as [[s|]|]; split;
        try (intros _; left; by eexists); try by eexists.
      * by intros [? [=]].
      * intros [[? [=]] | [_ [? [=]]]].
  - destruct (standard_xrefs c !! _) as [[s|]|]; split;
      try (intros _; left; by eexists); try by eexists.
    + by intros [? [=]].
    + intros [[? [=]] | [? _]]; done.
Qed.

Lemma listed_at_insert_mono flushed cur x section ref :
  listed_at flushed cur section ref → listed_at flushed ({[x]} ∪ cur) section ref.
Proof. intros H. apply listed_at_insert. by left. Qed.

Lemma listed_at_insert_new flushed cur x :
  listed_at flushed ({[x]} ∪ cur) (length flushed) x.
Proof. apply listed_at_insert. by right. Qed.

Lemma entries_found_put_ref idnum generation start c c' :
  entries_found c → put_ref idnum generation start c = Ok c' → entries_found c'.
Proof.
  intros (Hgens & Hlisted & Hoff & Hstm & Hnull) Hput.
  apply put_ref_effect in Hput as (Hstd & Hg & _ & Hio & _ & Hids & Hfreed & Hh & Ht).
  injection Ht as _ _ _ Hr Hf.
  assert (Hmono : ∀ ref, stored c ref → stored c' ref).
  { intros ref [Hs | Hs]; [left | right].
    - rewrite Hstd. destruct (negb _); [| done].
      apply lookup_insert_is_Some'. by right.
    - by rewrite Hio. }
  assert (Hnew : stored c' (mkReference idnum generation)).
  { destruct (used_later c idnum generation) eqn:Hul.
    - apply Hmono. apply used_later_true in Hul as (gens & Hl & Hin). by eapply Hgens.
    - left. rewrite Hstd. simpl. rewrite lookup_insert_eq. by eexists. }
  assert (Hhist : ∀ ix e, e ∈ history_at c ix → e ∈ history_at c' ix).
  { intros ix e He. unfold history_at. apply (elem_of_history_append _ _ _ _ Hh). by left. }
  split; [| split; [| split; [| split]]].
  - intros id g gens Hl Hin. rewrite Hg in Hl.
    destruct (decide (idnum = id)) as [<- | Hne].
    + rewrite lookup_insert_eq in Hl. injection Hl as <-.
      destruct (used_later c idnum generation) eqn:Hul; simpl in Hin.
      * apply elem_of_union in Hin as [Hin | Hin].
        -- apply elem_of_singleton in Hin as ->. done.
        -- apply Hmono.
           destruct (_generations c !! idnum) as [gens|] eqn:Hl'; simpl in Hin;
             [by eapply Hgens | by apply not_elem_of_empty in Hin].
      * apply elem_of_singleton in Hin as ->. done.
    + rewrite lookup_insert_ne in Hl by done. apply Hmono. by eapply Hgens.
  - intros ref. rewrite Hids, Hr. setoid_rewrite listed_at_insert. split.
    + intros Hs. destruct (decide (ref = mkReference idnum generation)) as [-> | Hne].
      * exists (length (_refs_by_section c)). by right.
      * assert (stored c ref) as Hold.
        { destruct Hs as [Hs | Hs]; [left | right; by rewrite <- Hio].
          rewrite Hstd in Hs. destruct (negb _); [| done].
          rewrite lookup_insert_ne in Hs; [done |].
          intros [= Hg' Hi']. apply Hne. destruct ref; simpl in *; congruence. }
        apply Hlisted in Hold as [section Hsec]. exists section. by left.
    + intros [section [Hsec | [_ ->]]]; [| done]. apply Hmono, Hlisted. by exists section.
  - intros g id s Hl. rewrite Hstd in Hl.
    destruct (negb (used_later c idnum generation)) eqn:Hfresh.
    + destruct (decide ((generation, idnum) = (g, id))) as [[= <- <-] | Hne].
      * rewrite lookup_insert_eq in Hl. injection Hl as <-.
        exists (xref_sections c). unfold history_at.
        apply (elem_of_history_append _ _ _ _ Hh). by right.
      * rewrite lookup_insert_ne in Hl by done.
        destruct (Hoff _ _ _ Hl) as [sec Hs]. exists sec. by apply Hhist.
    + destruct (Hoff _ _ _ Hl) as [sec Hs]. exists sec. by apply Hhist.
  - intros id n i Hl. rewrite Hio in Hl.
    destruct (Hstm _ _ _ Hl) as [sec Hs]. exists sec. by apply Hhist.
  - intros g id Hl. rewrite Hfreed, Hf. rewrite Hstd in Hl.
    destruct (negb _).
    + destruct (decide ((generation, idnum) = (g, id))) as [[= <- <-] | Hne].
      * rewrite lookup_insert_eq in Hl. discriminate.
      * rewrite lookup_insert_ne in Hl by done. by apply Hnull.
    + by apply Hnull.
Qed.

Lemma entries_found_free_ref idnum next_generation c c' :
  entries_found c → free_ref idnum next_generation c = Ok c' → entries_found c'.
Proof.
  intros Hc Hfree.
  destruct (decide (idnum = 0)) as [-> | Hid].
  { unfold free_ref in Hfree. simpl in Hfree. by simplify_eq. }
  destruct Hc as (Hgens & Hlisted & Hoff & Hstm & Hnull).
  apply free_ref_effect in Hfree
    as (Hstd & Hg & _ & _ & Hio & _ & Hids & Hfreed & Hh & Ht); [| done].
  set (prev := if bool_decide (next_generation ≠ 0) then next_generation - 1 else 65535) in *.
  injection Ht as _ _ _ Hr Hf.
  assert (Hmono : ∀ ref, stored c ref → stored c' ref).
  { intros ref [Hs | Hs]; [left | right].
    - rewrite Hstd. apply lookup_insert_is_Some'. by right.
    - by rewrite Hio. }
  assert (Hnew : stored c' (mkReference idnum prev)).
  { left. rewrite Hstd. simpl. rewrite lookup_insert_eq. by eexists. }
  split; [| split; [| split; [| split]]].
  - intros id g gens Hl Hin. rewrite Hg in Hl.
    destruct (decide (idnum = id)) as [<- | Hne].
    + rewrite lookup_insert_eq in Hl. injection Hl as <-.
      apply elem_of_union in Hin as [Hin | Hin].
      * apply elem_of_singleton in Hin as ->. done.
      * apply Hmono.
        destruct (_generations c !! idnum) as [gens|] eqn:Hl'; simpl in Hin;
          [by eapply Hgens | by apply not_elem_of_empty in Hin].
    + rewrite lookup_insert_ne in Hl by done. apply Hmono. by eapply Hgens.
  - intros ref. rewrite Hids, Hr. setoid_rewrite listed_at_insert. split.
    + intros Hs. destruct (decide (ref = mkReference idnum prev)) as [-> | Hne].
      * exists (length (_refs_by_section c)). by right.
      * assert (stored c ref) as Hold.
        { destruct Hs as [Hs | Hs]; [left | right; by rewrite <- Hio].
          rewrite Hstd in Hs.
          rewrite lookup_insert_ne in Hs; [done |].
          intros [= Hg' Hi']. apply Hne. destruct ref; simpl in *; congruence. }
        apply Hlisted in Hold as [section Hsec]. exists section. by left.
    + intros [section [Hsec | [_ ->]]]; [| done]. apply Hmono, Hlisted. by exists section.
  - intros g id s Hl. rewrite Hstd in Hl. unfold history_at. rewrite Hh.
    destruct (decide ((prev, idnum) = (g, id))) as [[= <- <-] | Hne].
    + rewrite lookup_insert_eq in Hl. discriminate.
    + rewrite lookup_insert_ne in Hl by done. by apply Hoff.
  - intros id n i Hl. rewrite Hio in Hl. unfold history_at. rewrite Hh. by apply Hstm.
  - intros g id Hl. rewrite Hfreed, Hf. rewrite Hstd in Hl.
    destruct (decide ((prev, idnum) = (g, id))) as [[= <- <-] | Hne].
    + exists (length (_freed_by_section c)). apply listed_at_insert_new.
    + rewrite lookup_insert_ne in Hl by done.
      destruct (Hnull _ _ Hl) as [sec Hs]. exists sec. by apply listed_at_insert_mono.
Qed.

Lemma entries_found_put_obj_stream_ref idnum n i c :
  entries_found c → entries_found (put_obj_stream_ref idnum n i c).
Proof.
  intros (Hgens & Hlisted & Hoff & Hstm & Hnull).
  remember (put_obj_stream_ref idnum n i c) as c' eqn:Hc'. symmetry in Hc'.
  apply put_obj_stream_ref_effect in Hc'
    as (Hstd & Hg & _ & Hio & _ & Hids & Hfreed & _ & Hh & Ht).
  injection Ht as _ _ _ Hr Hf.
  assert (Hmono : ∀ ref, stored c ref → stored c' ref).
  { intros ref [Hs | [Hz Hs]]; [left; by rewrite Hstd | right].
    split; [done |]. rewrite Hio. destruct (negb _); [| done].
    apply lookup_insert_is_Some'. by right. }
  assert (Hnew : stored c' (mkReference idnum 0)).
  { destruct (used_later c idnum 0) eqn:Hul.
    - apply Hmono. apply used_later_true in Hul as (gens & Hl & Hin). by eapply Hgens.
    - right. split; [done |]. rewrite Hio. simpl. rewrite lookup_insert_eq. by eexists. }
  assert (Hhist : ∀ ix e, e ∈ history_at c ix → e ∈ history_at c' ix).
  { intros ix e He. unfold history_at. apply (elem_of_history_append _ _ _ _ Hh). by left. }
  split; [| split; [| split; [| split]]].
  - intros id g gens Hl Hin. rewrite Hg in Hl.
    destruct (negb (used_later c idnum 0)); [| apply Hmono; by eapply Hgens].
    destruct (decide (idnum = id)) as [<- | Hne].
    + rewrite lookup_insert_eq in Hl. injection Hl as <-.
      apply elem_of_singleton in Hin as ->. done.
    + rewrite lookup_insert_ne in Hl by done. apply Hmono. by eapply Hgens.
  - intros ref. rewrite Hids, Hr. setoid_rewrite listed_at_insert. split.
    + intros Hs. destruct (decide (ref = mkReference idnum 0)) as [-> | Hne].
      * exists (length (_refs_by_section c)). by right.
      * assert (stored c ref) as Hold.
        { destruct Hs as [Hs | [Hz Hs]]; [left; by rewrite <- Hstd | right].
          split; [done |]. rewrite Hio in Hs. destruct (negb _); [| done].
          rewrite lookup_insert_ne in Hs; [done |].
          intros Hi'. apply Hne. destruct ref; simpl in *; congruence. }
        apply Hlisted in Hold as [section Hsec]. exists section. by left.
    + intros [section [Hsec | [_ ->]]]; [| done]. apply Hmono, Hlisted. by exists section.
  - intros g id s Hl. rewrite Hstd in Hl.
    destruct (Hoff _ _ _ Hl) as [sec Hs]. exists sec. by apply Hhist.
  - intros id n' i' Hl. rewrite Hio in Hl.
    destruct (negb (used_later c idnum 0)) eqn:Hfresh.
    + destruct (decide (idnum = id)) as [<- | Hne].
      * rewrite lookup_insert_eq in Hl. injection Hl as <- <-.
        exists (xref_sections c). unfold history_at.
        apply (elem_of_history_append _ _ _ _ Hh). by right.
      * rewrite lookup_insert_ne in Hl by done.
        destruct (Hstm _ _ _ Hl) as [sec Hs]. exists sec. by apply Hhist.
    + destruct (Hstm _ _ _ Hl) as [sec Hs]. exists sec. by apply Hhist.
  - intros g id Hl. rewrite Hfreed, Hf. rewrite Hstd in Hl. by apply Hnull.
Qed.

Lemma entries_found_preserved : preserved_by_calls entries_found.
Proof.
  split.
  - intros. by eapply entries_found_put_ref.
  - intros. by eapply entries_found_free_ref.
  - intros. by apply entries_found_put_obj_stream_ref.
  - intros c (Hgens & Hlisted & Hoff & Hstm & Hnull).
    split; [| split; [| split; [| split]]]; try done.
    + intros ref. simpl. setoid_rewrite listed_at_flush. apply Hlisted.
    + intros g id Hl. simpl. setoid_rewrite listed_at_flush. by apply Hnull.
  - intros v c Hc. exact Hc.
  - intros v c Hc. exact Hc.
Qed.

Lemma entries_found_init : entries_found XRefCache_init.
Proof.
  split; [| split; [| split; [| split]]]; simpl.
  - intros id g gens Hl. by rewrite lookup_empty in Hl.
  - intros ref. unfold stored. simpl. rewrite !lookup_empty. split.
    + intros [[? [=]] | [_ [? [=]]]].
    + intros [section (S & Hl & Hin)].
      destruct section as [|[|]]; simpl in Hl; simplify_eq.
      by apply not_elem_of_empty in Hin.
  - intros g id s Hl. by rewrite lookup_empty in Hl.
  - intros id n i Hl. by rewrite lookup_empty in Hl.
  - intros g id Hl. by rewrite lookup_empty in Hl.
Qed.

(** A set of a per-section table, by section index and by revision. *)
Lemma listed_by_revision (table : list (gset Reference)) (n : Z) (ref : Reference) :
  Z.of_nat (length table) = n →
  (∃ section, listed_at table ∅ section ref)
  ↔ ∃ revision S, 0 ≤ revision < n ∧ index table (n - 1 - revision) = Ok S ∧ ref ∈ S.
Proof.
  intros Hlen. split.
  - intros [section Hs]. apply (proj1 (listed_at_flushed _ _ _)) in Hs as (S & Hl & Hin).
    pose proof (lookup_lt_Some _ _ _ Hl) as Hlt.
    exists (n - 1 - Z.of_nat section), S. split; [lia |]. split; [| done].
    apply index_nonneg; [lia |].
    replace (n - 1 - (n - 1 - Z.of_nat section)) with (Z.of_nat section) by lia.
    by rewrite Nat2Z.id.
  - intros (revision & S & Hrange & Hidx & Hin).
    destruct (index_in_range table (n - 1 - revision)) as (S' & Hl & Hidx' & _); [lia |].
    rewrite Hidx in Hidx'. injection Hidx' as <-.
    exists (Z.to_nat (n - 1 - revision)). apply (proj2 (listed_at_flushed _ _ _)). by exists S.
Qed.

(** X4. [__getitem__] finds exactly the references that some revision
    lists.  A marker that it returns is an entry of the history of the
    reference, and it returns the null object only for a reference that
    some revision frees. *)
Theorem getitem_finds_listed_refs sections c ref :
  _read_xrefs sections = Ok c →
  (is_Some (__getitem__ c ref)
   ↔ ∃ revision refs, 0 ≤ revision < total_revisions c
       ∧ explicit_refs_in_revision c revision = Ok refs ∧ ref ∈ refs)
  ∧ (∀ m, __getitem__ c ref = Some (Marker m) →
       ∃ section, (section, m) ∈ history_at c (generation ref, idnum ref))
  ∧ (__getitem__ c ref = Some NullObject →
       ∃ revision freed, 0 ≤ revision < total_revisions c
         ∧ refs_freed_in_revision c revision = Ok freed ∧ ref ∈ freed).
Proof.
  intros Hread.
  destruct (_read_xrefs_tables _ _ Hread) as (Hn & _ & _ & Hr & Hf).
  pose proof (_read_xrefs_Ok _ _ Hread) as Hrun.
  destruct (read_sections_current_empty _ _ Hrun) as [Hids Hfreed].
  destruct (read_sections_invariant _ entries_found_preserved sections c
              entries_found_init Hrun) as (_ & Hlisted & Hoff & Hstm & Hnull).
  unfold explicit_refs_in_revision, refs_freed_in_revision, total_revisions in *.
  split; [| split].
  - rewrite getitem_stored, Hlisted, Hids.
    apply listed_by_revision. by rewrite Hr.
  - intros m. unfold __getitem__.
    destruct (bool_decide (generation ref = 0)
              && bool_decide (is_Some (in_obj_stream c !! idnum ref))) eqn:Hcase.
    + apply andb_true_iff in Hcase as [Hg _]. apply bool_decide_eq_true_1 in Hg.
      destruct (in_obj_stream c !! idnum ref) as [[n i]|] eqn:Hl; simpl; [| done].
      intros [= <-]. rewrite Hg. by eapply Hstm.
    + destruct (standard_xrefs c !! (generation ref, idnum ref)) as [[s|]|] eqn:Hl;
        [| done | done].
      intros [= <-]. by eapply Hoff.
  - unfold __getitem__.
    destruct (bool_decide (generation ref = 0)
              && bool_decide (is_Some (in_obj_stream c !! idnum ref))) eqn:Hcase.
    + destruct (in_obj_stream c !! idnum ref) as [[n i]|]; simpl; done.
    + destruct (standard_xrefs c !! (generation ref, idnum ref)) as [[s|]|] eqn:Hl;
        [done | | done].
      intros _. apply Hnull in Hl. rewrite Hfreed in Hl.
      destruct ref as [id g]. simpl in Hl.
      apply (listed_by_revision _ (xref_sections c)) in Hl; [done | by rewrite Hf].
Qed.

Lemma getitem_finds_listed_refs_witness :
  (is_Some (__getitem__ reuse_cache (mkReference 7 0))
   ↔ ∃ revision refs, 0 ≤ revision < total_revisions reuse_cache
       ∧ explicit_refs_in_revision reuse_cache revision = Ok refs
       ∧ mkReference 7 0 ∈ refs)
  ∧ __getitem__ reuse_cache (mkReference 7 0) = Some NullObject
  ∧ __getitem__ reuse_cache (mkReference 7 1) = Some (Marker (Offset 500))
  ∧ __getitem__ reuse_cache (mkReference 8 0) = None.
Proof.
  split; [| by vm_compute].
  apply (getitem_finds_listed_refs reuse_sections). vm_compute. reflexivity.
Defined.

Lemma scan_history_is_Some max_index revision h :
  is_Some (scan_history max_index revision h)
  ↔ ∃ section m, (section, m) ∈ h ∧ max_index - section ≤ revision.
Proof.
  induction h as [|[rev_index m] h IH]; simpl.
  - split; [by intros [? [=]] | intros (? & ? & Hin & _); by apply elem_of_nil in Hin].
  - destruct (decide (revision >= max_index - rev_index)) as [Hge | Hlt].
    + rewrite bool_decide_eq_true_2 by done. split; [| by eexists].
      intros _. exists rev_index, m. split; [apply list_elem_of_here | lia].
    + rewrite bool_decide_eq_false_2 by done. rewrite IH. split.
      * intros (section & m' & Hin & Hle). exists section, m'.
        split; [by apply list_elem_of_further | done].
      * intros (section & m' & Hin & Hle).
        apply elem_of_cons in Hin as [[= -> ->] | Hin]; [lia |]. by exists section, m'.
Qed.

Lemma get_historical_ref_is_Ok c ref revision :
  is_Ok (get_historical_ref c ref revision)
  ↔ ∃ section m, (section, m) ∈ history_at c (generation ref, idnum ref)
      ∧ xref_sections c - 1 - section ≤ revision.
Proof.
  rewrite <- scan_history_is_Some. unfold get_historical_ref.
  destruct (scan_history _ _ _) as [m|]; split.
  - by eexists.
  - intros _. by eexists.
  - intros [? [=]].
  - intros [? [=]].
Qed.

(** The section indices of the history of a file that was read. *)
Lemma history_sections_in_range sections c ix section m :
  _read_xrefs sections = Ok c →
  (section, m) ∈ history_at c ix → 0 ≤ section < total_revisions c.
Proof.
  intros Hread Hin.
  destruct (_read_xrefs_tables _ _ Hread) as (Hn & _ & _ & Hr & _).
  pose proof (_read_xrefs_Ok _ _ Hread) as Hrun.
  destruct (read_sections_current_empty _ _ Hrun) as [Hids _].
  destruct (read_sections_invariant _ refs_listed_preserved sections c refs_listed_init Hrun)
    as [(_ & _ & _ & Hbound) Hlisted].
  destruct (Hbound _ _ _ Hin) as [Hnn _]. split; [done |].
  destruct ix as [g id].
  destruct (Hlisted (Z.to_nat section) (mkReference id g)) as [_ Hbwd].
  destruct Hbwd as (S & Hl & _).
  { left. exists m. simpl. by rewrite Z2Nat.id. }
  rewrite Hids in Hl. apply lookup_app_Some in Hl as [Hl | [_ Hl]].
  - apply lookup_lt_Some in Hl. unfold total_revisions in *. lia.
  - apply list_lookup_singleton_Some in Hl as [_ <-].
    destruct (Hlisted (Z.to_nat section) (mkReference id g)) as [_ Hbwd].
    destruct Hbwd as (S & Hl & HinS).
    { left. exists m. simpl. by rewrite Z2Nat.id. }
    rewrite Hids in Hl. apply lookup_app_Some in Hl as [Hl | [_ Hl]].
    + apply lookup_lt_Some in Hl. unfold total_revisions in *. lia.
    + apply list_lookup_singleton_Some in Hl as [_ <-]. by apply not_elem_of_empty in HinS.
Qed.

(** X5. The revision that [get_introducing_revision] reports for a
    reference is the first one at which [get_historical_ref] finds it: the
    lookup succeeds from that revision on and fails before, and
    [is_ref_available] says so.  For a reference without history the first
    raises [IndexError], the second always fails. *)
Theorem introducing_revision_is_threshold sections c ref :
  _read_xrefs sections = Ok c →
  match get_introducing_revision c ref with
  | Ok r0 =>
      0 ≤ r0 < total_revisions c
      ∧ ∀ r, (is_Ok (get_historical_ref c ref r) ↔ r0 ≤ r)
          ∧ is_ref_available c r ref = Ok (bool_decide (r < r0))
  | Raise e =>
      e = IndexError
      ∧ history_at c (generation ref, idnum ref) = []
      ∧ ∀ r, is_Raise (get_historical_ref c ref r)
          ∧ is_ref_available c r ref = Ok true
  end.
Proof.
  intros Hread.
  assert (Havail : ∀ r,
    (is_Ok (get_historical_ref c ref r) → is_ref_available c r ref = Ok false)
    ∧ (¬ is_Ok (get_historical_ref c ref r) → is_ref_available c r ref = Ok true)).
  { intros r. unfold is_ref_available, get_historical_ref.
    destruct (scan_history _ _ _) as [m|]; split; try done.
    - intros Hno. destruct Hno. by eexists.
    - intros [? [=]]. }
  pose proof (_read_xrefs_history_ordered _ _ Hread (generation ref, idnum ref)) as Hsorted.
  pose proof (λ section m, history_sections_in_range sections c
                (generation ref, idnum ref) section m Hread) as Hrange.
  unfold get_introducing_revision.
  destruct (history_at c (generation ref, idnum ref)) as [|e0 h0] eqn:Hh
    using rev_ind.
  - simpl. split; [done |]. split; [done |]. intros r.
    assert (Hno : ¬ is_Ok (get_historical_ref c ref r)).
    { rewrite get_historical_ref_is_Ok, Hh.
      intros (? & ? & Hin & _). by apply elem_of_nil in Hin. }
    split.
    + unfold get_historical_ref in *. destruct (scan_history _ _ _); [| by eexists].
      destruct Hno. by eexists.
    + by apply Havail.
  - clear IHh0. destruct e0 as [section m].
    assert (Hidx : index (h0 ++ [(section, m)])
                     (Z.of_nat (length (h0 ++ [(section, m)])) - 1) = Ok (section, m)).
    { apply index_nonneg; [rewrite length_app; simpl; lia |].
      rewrite length_app. simpl.
      replace (Z.to_nat (Z.of_nat (length h0 + 1) - 1)) with (length h0) by lia.
      rewrite lookup_app_r by done. by rewrite Nat.sub_diag. }
    rewrite Hidx. simpl.
    assert (Hlast : (section, m) ∈ h0 ++ [(section, m)]).
    { apply elem_of_app. right. apply list_elem_of_here. }
    pose proof (Hrange _ _ Hlast) as Hsec. unfold total_revisions in *.
    split; [lia |]. intros r.
    assert (Hiff : is_Ok (get_historical_ref c ref r) ↔ xref_sections c - 1 - section ≤ r).
    { rewrite get_historical_ref_is_Ok, Hh. split.
      - intros (section' & m' & Hin & Hle).
        enough (section' ≤ section) by lia.
        apply elem_of_app in Hin as [Hin | Hin].
        + rewrite fmap_app in Hsorted. simpl in Hsorted.
          apply StronglySorted_app_inv_l in Hsorted.
          eapply StronglySorted_snoc_bound; [exact Hsorted |].
          apply list_elem_of_fmap. by exists (section', m').
        + apply list_elem_of_singleton in Hin. injection Hin as -> _. lia.
      - intros Hle. by exists section, m. }
    split; [exact Hiff |].
    destruct (decide (r < xref_sections c - 1 - section)) as [Hlt | Hge].
    + rewrite bool_decide_eq_true_2 by done. apply Havail. rewrite Hiff. lia.
    + rewrite bool_decide_eq_false_2 by done. apply Havail. rewrite Hiff. lia.
Qed.

Lemma introducing_revision_is_threshold_witness :
  match get_introducing_revision sample_cache (mkReference 6 0) with
  | Ok r0 =>
      0 ≤ r0 < total_revisions sample_cache
      ∧ ∀ r, (is_Ok (get_historical_ref sample_cache (mkReference 6 0) r) ↔ r0 ≤ r)
          ∧ is_ref_available sample_cache r (mkReference 6 0) = Ok (bool_decide (r < r0))
  | Raise e =>
      e = IndexError
      ∧ history_at sample_cache (generation (mkReference 6 0), idnum (mkReference 6 0)) = []
      ∧ ∀ r, is_Raise (get_historical_ref sample_cache (mkReference 6 0) r)
          ∧ is_ref_available sample_cache r (mkReference 6 0) = Ok true
  end
  ∧ get_introducing_revision sample_cache (mkReference 6 0) = Ok 1.
Proof.
  split; [| by vm_compute].
  apply (introducing_revision_is_threshold sample_sections). vm_compute. reflexivity.
Defined.

Lemma last_change_listed_preserved :
  preserved_by_calls (λ c, tables_counted c ∧ last_change_listed c).
Proof.
  split.
  - intros idnum generation start c c' [Hcount (Hgens & Hlisted & Hlast)] Hput.
    split; [by eapply (keeps_put_ref _ tables_counted_preserved) |].
    destruct Hcount as (Hnn & Hlen & _).
    pose proof Hput as Heff.
    apply put_ref_effect in Heff as (_ & Hg & Hlc & _ & _ & Hids & _ & _ & Ht).
    injection Ht as _ _ _ Hr _.
    assert (Hmono : ∀ id, is_Some (last_change c !! id) → is_Some (last_change c' !! id)).
    { intros id Hs. rewrite Hlc. destruct (negb _); [| done].
      apply lookup_insert_is_Some'. by right. }
    assert (Hnew : is_Some (last_change c' !! idnum)).
    { destruct (used_later c idnum generation) eqn:Hul.
      - apply Hmono, Hgens. apply used_later_true in Hul as (gens & -> & _). by eexists.
      - rewrite Hlc. simpl. rewrite lookup_insert_eq. by eexists. }
    split; [| split].
    + intros id. rewrite Hg. destruct (decide (idnum = id)) as [<- | Hne]; [done |].
      rewrite lookup_insert_ne by done. intros Hs. by apply Hmono, Hgens.
    + intros id g section. rewrite Hids, Hr, listed_at_insert.
      intros [Hold | [_ [= -> ->]]]; [| done]. apply Hmono. by eapply Hlisted.
    + intros id section Hl. rewrite Hids, Hr. rewrite Hlc in Hl.
      destruct (negb (used_later c idnum generation)).
      * destruct (decide (idnum = id)) as [<- | Hne].
        -- rewrite lookup_insert_eq in Hl. injection Hl as <-. split; [done |].
           exists generation. rewrite <- Hlen. apply listed_at_insert_new.
        -- rewrite lookup_insert_ne in Hl by done.
           destruct (Hlast _ _ Hl) as [Hs [g Hg']]. split; [done |].
           exists g. by apply listed_at_insert_mono.
      * destruct (Hlast _ _ Hl) as [Hs [g Hg']]. split; [done |].
        exists g. by apply listed_at_insert_mono.
  - intros idnum next_generation c c' [Hcount Hc] Hfree.
    split; [by eapply (keeps_free_ref _ tables_counted_preserved) |].
    destruct (decide (idnum = 0)) as [-> | Hid].
    { unfold free_ref in Hfree. simpl in Hfree. by simplify_eq. }
    destruct Hc as (Hgens & Hlisted & Hlast). destruct Hcount as (Hnn & Hlen & _).
    apply free_ref_effect in Hfree
      as (_ & Hg & _ & Hlc & _ & _ & Hids & _ & _ & Ht); [| done].
    set (prev := if bool_decide (next_generation ≠ 0) then next_generation - 1 else 65535) in *.
    injection Ht as _ _ _ Hr _.
    assert (Hmono : ∀ id, is_Some (last_change c !! id) → is_Some (last_change c' !! id)).
    { intros id Hs. rewrite Hlc. case_bool_decide; [done |].
      apply lookup_insert_is_Some'. by right. }
    assert (Hnew : is_Some (last_change c' !! idnum)).
    { rewrite Hlc. case_bool_decide as Hsome; [done |].
      rewrite lookup_insert_eq. by eexists. }
    split; [| split].
    + intros id. rewrite Hg. destruct (decide (idnum = id)) as [<- | Hne]; [done |].
      rewrite lookup_insert_ne by done. intros Hs. by apply Hmono, Hgens.
    + intros id g section. rewrite Hids, Hr, listed_at_insert.
      intros [Hold | [_ [= -> ->]]]; [| done]. apply Hmono. by eapply Hlisted.
    + intros id section Hl. rewrite Hids, Hr. rewrite Hlc in Hl.
      case_bool_decide as Hsome.
      * destruct (Hlast _ _ Hl) as [Hs [g Hg']]. split; [done |].
        exists g. by apply listed_at_insert_mono.
      * destruct (decide (idnum = id)) as [<- | Hne].
        -- rewrite lookup_insert_eq in Hl. injection Hl as <-. split; [done |].
           exists prev. rewrite <- Hlen. apply listed_at_insert_new.
        -- rewrite lookup_insert_ne in Hl by done.
           destruct (Hlast _ _ Hl) as [Hs [g Hg']]. split; [done |].
           exists g. by apply listed_at_insert_mono.
  - intros idnum n i c [Hcount (Hgens & Hlisted & Hlast)].
    split; [by apply (keeps_put_obj_stream_ref _ tables_counted_preserved) |].
    destruct Hcount as (Hnn & Hlen & _).
    remember (put_obj_stream_ref idnum n i c) as c' eqn:Hc'. symmetry in Hc'.
    apply put_obj_stream_ref_effect in Hc'
      as (_ & Hg & Hlc & _ & _ & Hids & _ & _ & _ & Ht).
    injection Ht as _ _ _ Hr _.
    assert (Hmono : ∀ id, is_Some (last_change c !! id) → is_Some (last_change c' !! id)).
    { intros id Hs. rewrite Hlc. destruct (negb _); [| done].
      apply lookup_insert_is_Some'. by right. }
    assert (Hnew : is_Some (last_change c' !! idnum)).
    { destruct (used_later c idnum 0) eqn:Hul.
      - apply Hmono, Hgens. apply used_later_true in Hul as (gens & -> & _). by eexists.
      - rewrite Hlc. simpl. rewrite lookup_insert_eq. by eexists. }
    split; [| split].
    + intros id. rewrite Hg. destruct (negb _); [| intros Hs; by apply Hmono, Hgens].
      destruct (decide (idnum = id)) as [<- | Hne]; [done |].
      rewrite lookup_insert_ne by done. intros Hs. by apply Hmono, Hgens.
    + intros id g section. rewrite Hids, Hr, listed_at_insert.
      intros [Hold | [_ [= -> ->]]]; [| done]. apply Hmono. by eapply Hlisted.
    + intros id section Hl. rewrite Hids, Hr. rewrite Hlc in Hl.
      destruct (negb (used_later c idnum 0)).
      * destruct (decide (idnum = id)) as [<- | Hne].
        -- rewrite lookup_insert_eq in Hl. injection Hl as <-. split; [done |].
           exists 0. rewrite <- Hlen. apply listed_at_insert_new.
        -- rewrite lookup_insert_ne in Hl by done.
           destruct (Hlast _ _ Hl) as [Hs [g Hg']]. split; [done |].
           exists g. by apply listed_at_insert_mono.
      * destruct (Hlast _ _ Hl) as [Hs [g Hg']]. split; [done |].
        exists g. by apply listed_at_insert_mono.
  - intros c [Hcount (Hgens & Hlisted & Hlast)].
    split; [by apply (keeps_next_section _ tables_counted_preserved) |].
    split; [done |]. split; simpl.
    + intros id g section. rewrite listed_at_flush. apply Hlisted.
    + intros id section Hl. setoid_rewrite listed_at_flush. by apply Hlast.
  - intros v c Hc. exact Hc.
  - intros v c Hc. exact Hc.
Qed.

Lemma last_change_listed_init :
  tables_counted XRefCache_init ∧ last_change_listed XRefCache_init.
Proof.
  split; [apply tables_counted_init |]. split; [| split]; simpl.
  - intros id. rewrite lookup_empty. by intros [? [=]].
  - intros id g section (S & Hl & Hin).
    destruct section as [|[|]]; simpl in Hl; simplify_eq.
    by apply not_elem_of_empty in Hin.
  - intros id section Hl. by rewrite lookup_empty in Hl.
Qed.

(** X6. [get_last_change] knows exactly the objects that some revision
    lists, and the revision it reports for an object is one that lists
    it. *)
Theorem last_change_lists_object sections c idnum :
  _read_xrefs sections = Ok c →
  (is_Some (get_last_change c idnum)
   ↔ ∃ revision refs g, 0 ≤ revision < total_revisions c
       ∧ explicit_refs_in_revision c revision = Ok refs
       ∧ mkReference idnum g ∈ refs)
  ∧ ∀ revision, get_last_change c idnum = Some revision →
      0 ≤ revision < total_revisions c
      ∧ ∃ refs g, explicit_refs_in_revision c revision = Ok refs
          ∧ mkReference idnum g ∈ refs.
Proof.
  intros Hread.
  destruct (_read_xrefs_tables _ _ Hread) as (Hn & _ & _ & Hr & _).
  pose proof (_read_xrefs_Ok _ _ Hread) as Hrun.
  destruct (read_sections_current_empty _ _ Hrun) as [Hids _].
  destruct (read_sections_invariant _ last_change_listed_preserved sections c
              last_change_listed_init Hrun) as [_ (_ & Hlisted & Hlast)].
  rewrite Hids in Hlisted, Hlast.
  unfold explicit_refs_in_revision, get_last_change, total_revisions in *.
  assert (Hsound : ∀ revision,
    last_change c !! idnum ≫= (λ section, Some (xref_sections c - 1 - section))
    = Some revision →
    0 ≤ revision < xref_sections c
    ∧ ∃ refs g, index (_refs_by_section c) (xref_sections c - 1 - revision) = Ok refs
        ∧ mkReference idnum g ∈ refs).
  { intros revision Hrev.
    destruct (last_change c !! idnum) as [section|] eqn:Hl; simpl in Hrev; [| done].
    injection Hrev as <-.
    destruct (Hlast _ _ Hl) as [Hnn [g Hg]].
    apply (proj1 (listed_at_flushed _ _ _)) in Hg as (S & HS & Hin).
    pose proof (lookup_lt_Some _ _ _ HS) as Hlt.
    split; [lia |]. exists S, g. split; [| done].
    apply index_nonneg; [lia |].
    by replace (xref_sections c - 1 - (xref_sections c - 1 - section)) with section by lia. }
  split; [| exact Hsound].
  split.
  - intros [revision Hrev]. destruct (Hsound _ Hrev) as (Hrange & refs & g & Hidx & Hin).
    by exists revision, refs, g.
  - intros (revision & refs & g & Hrange & Hidx & Hin).
    assert (Hsome : is_Some (last_change c !! idnum)).
    { destruct (index_in_range (_refs_by_section c) (xref_sections c - 1 - revision))
        as (S & HS & Hidx' & _); [lia |].
      rewrite Hidx in Hidx'. injection Hidx' as <-.
      eapply (Hlisted idnum g). apply (proj2 (listed_at_flushed _ _ _)). by exists refs. }
    destruct Hsome as [section ->]. by eexists.
Qed.

Lemma last_change_lists_object_witness :
  ((is_Some (get_last_change sample_cache 5)
    ↔ ∃ revision refs g, 0 ≤ revision < total_revisions sample_cache
        ∧ explicit_refs_in_revision sample_cache revision = Ok refs
        ∧ mkReference 5 g ∈ refs)
   ∧ ∀ revision, get_last_change sample_cache 5 = Some revision →
       0 ≤ revision < total_revisions sample_cache
       ∧ ∃ refs g, explicit_refs_in_revision sample_cache revision = Ok refs
           ∧ mkReference 5 g ∈ refs)
  ∧ get_last_change sample_cache 5 = Some 2
  ∧ get_last_change sample_cache 9 = None.
Proof.
  split; [| by vm_compute].
  apply (last_change_lists_object sample_sections). vm_compute. reflexivity.
Defined.

Lemma obj_streams_listed_preserved : preserved_by_calls obj_streams_listed.
Proof.
  split.
  - intros idnum generation start c c' Hc Hput.
    apply put_ref_effect in Hput as (_ & _ & _ & _ & Hos & _ & _ & Hh & _).
    intros section ref. rewrite Hos, (Hc section ref). unfold history_at.
    setoid_rewrite (elem_of_history_append _ _ _ _ Hh).
    split; intros [Hg (id & ix & Hin)]; (split; [done |]); exists id, ix.
    + by left.
    + destruct Hin as [Hin | [_ [=]]]. done.
  - intros idnum next_generation c c' Hc Hfree.
    destruct (decide (idnum = 0)) as [-> | Hid].
    { unfold free_ref in Hfree. simpl in Hfree. by simplify_eq. }
    apply free_ref_effect in Hfree as (_ & _ & _ & _ & _ & Hos & _ & _ & Hh & _); [| done].
    intros section ref. unfold history_at. rewrite Hos, Hh. apply Hc.
  - intros idnum n i c Hc.
    remember (put_obj_stream_ref idnum n i c) as c' eqn:Hc'. symmetry in Hc'.
    apply put_obj_stream_ref_effect in Hc' as (_ & _ & _ & _ & Hos & _ & _ & _ & Hh & _).
    intros section ref. rewrite Hos. unfold history_at.
    setoid_rewrite (elem_of_history_append _ _ _ _ Hh).
    destruct (decide (xref_sections c = section)) as [<- | Hne].
    + rewrite lookup_insert_eq. simpl. rewrite elem_of_union, elem_of_singleton, (Hc _ ref).
      split.
      * intros [-> | [Hg (id & ix & Hin)]].
        -- split; [done |]. exists idnum, i. by right.
        -- split; [done |]. exists id, ix. by left.
      * intros [Hg (id & ix & [Hin | [Hix Heq]])].
        -- right. split; [done |]. by exists id, ix.
        -- left. destruct ref as [rid rg]. simpl in *. by simplify_eq.
    + rewrite lookup_insert_ne by done. rewrite (Hc _ ref).
      split; intros [Hg (id & ix & Hin)]; (split; [done |]); exists id, ix.
      * by left.
      * destruct Hin as [Hin | [_ [= ? ? ?]]]; [done | by destruct Hne].
  - intros c Hc. exact Hc.
  - intros v c Hc. exact Hc.
  - intros v c Hc. exact Hc.
Qed.

Lemma obj_streams_listed_init : obj_streams_listed XRefCache_init.
Proof.
  intros section ref. unfold history_at. simpl. rewrite !lookup_empty. simpl. split.
  - intros Hin. by apply not_elem_of_empty in Hin.
  - intros [_ (id & ix & Hin)]. rewrite lookup_empty in Hin. by apply elem_of_nil in Hin.
Qed.

(** X7. The object streams reported for a revision are those in which an
    entry of that revision places an object. *)
Theorem object_streams_of_revision sections c revision ref :
  _read_xrefs sections = Ok c →
  ref ∈ object_streams_used_in c revision
  ↔ generation ref = 0
    ∧ ∃ num obj_stream_ix,
        (total_revisions c - 1 - revision, InObjStm (idnum ref) obj_stream_ix)
          ∈ history_at c (0, num).
Proof.
  intros Hread. pose proof (_read_xrefs_Ok _ _ Hread) as Hrun.
  apply (read_sections_invariant _ obj_streams_listed_preserved sections c
           obj_streams_listed_init Hrun).
Qed.

Lemma object_streams_of_revision_witness :
  (mkReference 1 0 ∈ object_streams_used_in stream_cache 0
   ↔ generation (mkReference 1 0) = 0
     ∧ ∃ num obj_stream_ix,
         (total_revisions stream_cache - 1 - 0,
          InObjStm (idnum (mkReference 1 0)) obj_stream_ix)
           ∈ history_at stream_cache (0, num))
  ∧ object_streams_used_in stream_cache 0 = {[mkReference 1 0]}
  ∧ __getitem__ stream_cache (mkReference 3 0) = Some (Marker (InObjStm 1 1)).
Proof.
  split; [| by vm_compute].
  apply (object_streams_of_revision stream_sections). vm_compute. reflexivity.
Defined.

Lemma scan_history_ext max_index r1 r2 h :
  (∀ section m, (section, m) ∈ h →
     (max_index - section ≤ r1 ↔ max_index - section ≤ r2)) →
  scan_history max_index r1 h = scan_history max_index r2 h.
Proof.
  induction h as [|[rev_index m] h IH]; simpl; intros Hext; [done |].
  pose proof (Hext rev_index m (list_elem_of_here _ _)) as Hhd.
  rewrite IH by (intros section m' Hin; apply (Hext section m');
                 by apply list_elem_of_further).
  apply (f_equal (λ b : bool, if b then Some m else scan_history max_index r2 h)).
  apply bool_decide_ext. lia.
Qed.

(** X8. A revision that writes a reference is where its history is read:
    [get_historical_ref] at that revision returns a marker written by it.
    A revision that does not list a reference leaves it as it was: the
    lookup gives what it gave at the revision before. *)
Theorem historical_ref_follows_revisions sections c ref :
  _read_xrefs sections = Ok c →
  let h := history_at c (generation ref, idnum ref) in
  (∀ revision m, (total_revisions c - 1 - revision, m) ∈ h →
     ∃ m', get_historical_ref c ref revision = Ok m'
       ∧ (total_revisions c - 1 - revision, m') ∈ h)
  ∧ (∀ revision refs, 0 ≤ revision → revision + 1 < total_revisions c →
       explicit_refs_in_revision c (revision + 1) = Ok refs → ref ∉ refs →
       ∀ m, get_historical_ref c ref (revision + 1) = Ok m
            ↔ get_historical_ref c ref revision = Ok m).
Proof.
  intros Hread h. unfold total_revisions. split.
  - intros revision m Hin.
    assert (Hsorted : StronglySorted Z.le (h.*1)).
    { eapply StronglySorted_app_inv_l. apply (_read_xrefs_history_ordered _ _ Hread). }
    unfold get_historical_ref. rewrite scan_history_find. fold h.
    destruct (first_at_or_after (xref_sections c - 1 - revision) h) as [[section m']|]
      eqn:Hfirst.
    + exists m'. split; [done |].
      pose proof (first_at_or_after_Some _ _ _ Hfirst) as [Hin' Hthr].
      pose proof (first_at_or_after_least _ _ _ Hsorted Hfirst _ Hin) as Hleast.
      simpl in *. by replace (xref_sections c - 1 - revision) with section by lia.
    + pose proof (first_at_or_after_None _ _ _ Hfirst Hin) as Hlt. simpl in Hlt. lia.
  - intros revision refs Hnn Hlt Hrefs Hnotin m.
    pose proof (_read_xrefs_Ok _ _ Hread) as Hrun.
    destruct (_read_xrefs_tables _ _ Hread) as (Hn & _ & _ & Hr & _).
    destruct (read_sections_current_empty _ _ Hrun) as [Hids _].
    destruct (read_sections_invariant _ refs_listed_preserved sections c
                refs_listed_init Hrun) as [_ Hlisted].
    unfold explicit_refs_in_revision, total_revisions in *.
    destruct (index_in_range (_refs_by_section c) (xref_sections c - 1 - (revision + 1)))
      as (S & HS & Hidx & _); [lia |].
    rewrite Hrefs in Hidx. injection Hidx as <-.
    assert (Hnone : ∀ section m', (section, m') ∈ h →
      section ≠ xref_sections c - 1 - (revision + 1)).
    { intros section m' Hin ->. apply Hnotin.
      destruct (Hlisted (Z.to_nat (xref_sections c - 1 - (revision + 1))) ref)
        as [_ Hbwd].
      destruct Hbwd as (S & HS' & HinS).
      { left. exists m'. by rewrite Z2Nat.id by lia. }
      rewrite Hids in HS'. apply lookup_app_Some in HS' as [HS' | [Hge _]].
      - by simplify_eq.
      - apply lookup_lt_Some in HS. lia. }
    unfold get_historical_ref. fold h.
    rewrite (scan_history_ext _ (revision + 1) revision h).
    + destruct (scan_history _ _ _); split; intros Heq; done.
    + intros section m' Hin. specialize (Hnone _ _ Hin). lia.
Qed.

Lemma historical_ref_follows_revisions_witness :
  let ref := mkReference 5 0 in
  let h := history_at sample_cache (generation ref, idnum ref) in
  (∀ revision m, (total_revisions sample_cache - 1 - revision, m) ∈ h →
     ∃ m', get_historical_ref sample_cache ref revision = Ok m'
       ∧ (total_revisions sample_cache - 1 - revision, m') ∈ h)
  ∧ (∀ revision refs, 0 ≤ revision → revision + 1 < total_revisions sample_cache →
       explicit_refs_in_revision sample_cache (revision + 1) = Ok refs → ref ∉ refs →
       ∀ m, get_historical_ref sample_cache ref (revision + 1) = Ok m
            ↔ get_historical_ref sample_cache ref revision = Ok m).
Proof.
  apply (historical_ref_follows_revisions sample_sections). vm_compute. reflexivity.
Defined.

(** A field of up to eight bytes that the stream does not hold in full is
    not padded to eight bytes, and [struct.unpack] refuses it. *)
Lemma convert_to_int_short (d : bytes) (size : Z) :
  size ≤ 8 → Z.of_nat (length d) < size → convert_to_int d size = Raise StructError.
Proof.
  intros Hsize Hshort. unfold convert_to_int, struct_unpack_q_be.
  rewrite bool_decide_eq_true_2 by done.
  rewrite bool_decide_eq_false_2; [done |].
  rewrite length_app, length_replicate. lia.
Qed.

(** X9. The fields of an entry of an xref stream: a width of zero (or
    less) reads nothing and gives the default, 1 for the type and 0 for the
    other two fields; a width of one to seven bytes that the stream still
    holds gives the big-endian unsigned integer of these bytes, which are
    consumed; a width of at most eight bytes that the stream no longer holds
    raises [struct.error]. *)
Theorem get_entry_field_widths (entry_sizes : list Z) (ix w : Z) (stream_data : bytes) :
  Py.index entry_sizes ix = Ok w →
  (w ≤ 0 →
     get_entry entry_sizes ix stream_data
     = Ok (if bool_decide (ix = 0) then 1 else 0, stream_data))
  ∧ (0 < w ≤ 7 → w ≤ Z.of_nat (length stream_data) →
     get_entry entry_sizes ix stream_data
     = Ok (be_unsigned (take (Z.to_nat w) stream_data), drop (Z.to_nat w) stream_data))
  ∧ (0 < w ≤ 8 → Z.of_nat (length stream_data) < w →
     get_entry entry_sizes ix stream_data = Raise StructError).
Proof.
  intros Hw. split; [| split].
  - intros Hzero. unfold get_entry. rewrite Hw, result_bind_ret.
    rewrite bool_decide_eq_false_2 by lia. by case_bool_decide.
  - intros Hrange Hlen. by apply get_entry_narrow.
  - intros Hrange Hshort. unfold get_entry. rewrite Hw, result_bind_ret.
    rewrite bool_decide_eq_true_2 by lia.
    rewrite convert_to_int_short; [done | lia |].
    rewrite length_take. lia.
Qed.

Lemma get_entry_field_widths_witness :
  let stream_data := [x01; x02; x03] in
  get_entry [1; 2; 0] 2 stream_data = Ok (0, stream_data)
  ∧ get_entry [1; 2; 0] 1 stream_data = Ok (258, [x03])
  ∧ get_entry [1; 8; 0] 1 stream_data = Raise StructError.
Proof.
  split; [| split].
  - apply (proj1 (get_entry_field_widths [1; 2; 0] 2 0 [x01; x02; x03] eq_refl)). lia.
  - apply (proj1 (proj2 (get_entry_field_widths [1; 2; 0] 1 2 [x01; x02; x03] eq_refl)));
      simpl; lia.
  - apply (proj2 (proj2 (get_entry_field_widths [1; 8; 0] 1 8 [x01; x02; x03] eq_refl)));
      simpl; lia.
Defined.

Lemma build_loop_step s yielded :
  build_loop s yielded
  = match build_step s with
    | Throw e => inl e
    | Break x s' => inr (yielded, x, s')
    | Yield digit s' => build_loop s' (yielded ++ [digit])
    end.
Proof.
  funelim (build_loop s yielded); try clear Heqcall;
    match goal with H : build_step _ = _ |- _ => by rewrite H end.
Qed.

Lemma skip_loop_step x crlf s :
  skip_loop x crlf s
  = if is_eol x then
      match skip_step crlf s with
      | inl e => inl e
      | inr (x', crlf', s') => skip_loop x' crlf' s'
      end
    else inr (crlf, s).
Proof.
  funelim (skip_loop x crlf s); try clear Heqcall; rewrite Heq;
    try match goal with Hstep : skip_step _ _ = _ |- _ => rewrite Hstep end; done.
Qed.

(** A turn of the first loop, by what the stream holds at the position. *)
Lemma build_step_start s : position s = 0%nat → build_step s = Throw MalformedFile.
Proof. intros Hpos. unfold build_step. by rewrite bool_decide_eq_true_2. Qed.

Lemma build_step_byte s p b :
  position s = S p → contents s !! S p = Some b →
  build_step s
  = if is_eol (Some b) then Break (Some b) (mkStream (contents s) p)
    else Yield b (mkStream (contents s) p).
Proof.
  intros Hpos Hb. unfold build_step, read1, seek_cur.
  rewrite bool_decide_eq_false_2 by lia. rewrite Hpos, Hb. simpl.
  rewrite bool_decide_eq_true_2 by lia.
  replace (Z.to_nat (Z.of_nat (S (S p)) + -2)) with p by lia. done.
Qed.

Lemma build_step_end s p :
  position s = S p → contents s !! S p = None →
  build_step s = Throw (if bool_decide (p = 0%nat) then EOLMarkerNotFound else OrdOfNoByte).
Proof.
  intros Hpos Hb. unfold build_step, read1, seek_cur.
  rewrite bool_decide_eq_false_2 by lia. rewrite Hpos, Hb. simpl. rewrite Hpos.
  destruct p as [|p]; [done |].
  rewrite (bool_decide_eq_false_2 (S (S p) < 2)%nat) by lia.
  rewrite bool_decide_eq_true_2 by lia.
  by rewrite (bool_decide_eq_false_2 (S p = 0%nat)) by lia.
Qed.

Lemma build_step_cases s :
  build_step s = Throw MalformedFile ∧ position s = 0%nat
  ∨ (∃ p, position s = S p ∧ contents s !! S p = None
       ∧ build_step s
         = Throw (if bool_decide (p = 0%nat) then EOLMarkerNotFound else OrdOfNoByte))
  ∨ (∃ p b, position s = S p ∧ contents s !! S p = Some b
       ∧ build_step s
         = if is_eol (Some b) then Break (Some b) (mkStream (contents s) p)
           else Yield b (mkStream (contents s) p)).
Proof.
  destruct (position s) as [|p] eqn:Hpos.
  - left. by rewrite build_step_start.
  - right. destruct (contents s !! S p) as [b|] eqn:Hb.
    + right. exists p, b. by rewrite (build_step_byte s p b).
    + left. exists p. by rewrite (build_step_end s p).
Qed.

(** What the first loop returns: the bytes it has yielded run from the
    position down to the end of line it stopped on. *)
Lemma build_loop_inr (n : nat) : ∀ s yielded y x s',
  position s = n → build_loop s yielded = inr (y, x, s') →
  ∃ y' b, y = yielded ++ y' ∧ x = Some b ∧ is_eol (Some b) = true
    ∧ contents s' = contents s
    ∧ position s = (position s' + 1 + length y')%nat
    ∧ contents s !! S (position s') = Some b
    ∧ Forall (λ c, is_eol (Some c) = false) y'
    ∧ reverse y' = take (length y') (drop (S (S (position s'))) (contents s)).
Proof.
  induction n as [n IH] using lt_wf_ind. intros s yielded y x s' Hn Hloop.
  rewrite build_loop_step in Hloop.
  destruct (build_step_cases s) as [[Hstep _] | [(p & _ & _ & Hstep) | (p & b & Hpos & Hb & Hstep)]];
    rewrite Hstep in Hloop; try discriminate Hloop.
  destruct (is_eol (Some b)) eqn:Heol.
  - injection Hloop as <- <- <-. exists [], b. simpl.
    rewrite app_nil_r, Hpos. repeat split; try done. lia.
  - apply (IH p) in Hloop as (y' & b' & -> & -> & Heol' & Hc & Hp & Hb' & Hall & Hrev);
      [| lia | done].
    simpl in *. exists (b :: y'), b'. rewrite <- app_assoc. simpl.
    repeat split; try done.
    + lia.
    + by constructor.
    + rewrite reverse_cons, Hrev.
      symmetry. apply take_S_r. rewrite lookup_drop.
      replace (S (S (position s')) + length y')%nat with (S p) by lia. done.
Qed.

Lemma build_loop_inl (n : nat) : ∀ s yielded e,
  position s = n → build_loop s yielded = inl e → e ≠ SeekBeforeStart.
Proof.
  induction n as [n IH] using lt_wf_ind. intros s yielded e Hn Hloop.
  rewrite build_loop_step in Hloop.
  destruct (build_step_cases s) as [[Hstep _] | [(p & _ & _ & Hstep) | (p & b & Hpos & Hb & Hstep)]];
    rewrite Hstep in Hloop.
  - by injection Hloop as <-.
  - injection Hloop as <-. by case_bool_decide.
  - destruct (is_eol (Some b)); [discriminate |].
    eapply (IH p); [lia | | exact Hloop]. done.
Qed.

(** A turn of the second loop, by what the stream holds at the position. *)
Lemma skip_step_eol crlf s b :
  contents s !! position s = Some b → is_eol (Some b) = true →
  skip_step crlf s
  = if bool_decide (position s < 2)%nat then inl EOLMarkerNotFound
    else inr (Some b, true, mkStream (contents s) (position s - 2)).
Proof.
  intros Hb Heol. unfold skip_step, read1, seek_cur. rewrite Hb, Heol. simpl.
  rewrite bool_decide_eq_true_2 by lia. simpl.
  replace (Z.to_nat (Z.of_nat (S (position s)) + -1)) with (position s) by lia.
  case_bool_decide; [done |].
  rewrite bool_decide_eq_true_2 by lia. do 3 f_equal. lia.
Qed.

Lemma skip_step_other crlf s b :
  contents s !! position s = Some b → is_eol (Some b) = false →
  skip_step crlf s
  = if bool_decide (position s = 0)%nat then inl EOLMarkerNotFound
    else inr (Some b, crlf, mkStream (contents s) (position s - 1)).
Proof.
  intros Hb Heol. unfold skip_step, read1, seek_cur. rewrite Hb, Heol. simpl.
  destruct (position s) as [|p]; [done |].
  rewrite (bool_decide_eq_false_2 (S (S p) < 2)%nat) by lia.
  rewrite bool_decide_eq_true_2 by lia.
  rewrite (bool_decide_eq_false_2 (S p = 0)%nat) by lia. do 3 f_equal. lia.
Qed.

Lemma skip_step_end crlf s :
  contents s !! position s = None →
  skip_step crlf s
  = if bool_decide (position s < 2)%nat then inl EOLMarkerNotFound
    else inr (None, crlf, mkStream (contents s) (position s - 2)).
Proof.
  intros Hb. unfold skip_step, read1, seek_cur. rewrite Hb.
  assert (is_eol None = false) as -> by done. simpl.
  case_bool_decide; [done |].
  rewrite bool_decide_eq_true_2 by lia. do 3 f_equal. lia.
Qed.

(** What the second loop returns: the stream has moved back far enough
    for the [seek] forwards that follows. *)
Lemma skip_loop_inr (n : nat) : ∀ x crlf s crlf' s',
  position s = n → skip_loop x crlf s = inr (crlf', s') →
  contents s' = contents s
  ∧ if is_eol x then
      (position s' + (if crlf' then 2 else 1) ≤ position s + (if crlf then 1 else 0))%nat
    else s' = s ∧ crlf' = crlf.
Proof.
  induction n as [n IH] using lt_wf_ind. intros x crlf s crlf' s' Hn Hloop.
  rewrite skip_loop_step in Hloop.
  destruct (is_eol x) eqn:Heol; [| by injection Hloop as <- <-].
  destruct (contents s !! position s) as [b|] eqn:Hb.
  - destruct (is_eol (Some b)) eqn:Heolb.
    + rewrite (skip_step_eol _ _ b) in Hloop by done.
      case_bool_decide; [discriminate |].
      apply (IH (position s - 2)%nat) in Hloop as [Hc Hpos]; [| lia | done].
      rewrite Heolb in Hpos. simpl in *. split; [done |].
      destruct crlf', crlf; lia.
    + rewrite (skip_step_other _ _ b) in Hloop by done.
      case_bool_decide; [discriminate |].
      apply (IH (position s - 1)%nat) in Hloop as [Hc Hpos]; [| lia | done].
      rewrite Heolb in Hpos. destruct Hpos as [-> ->]. simpl. split; [done |].
      destruct crlf; lia.
  - rewrite skip_step_end in Hloop by done.
    case_bool_decide; [discriminate |].
    apply (IH (position s - 2)%nat) in Hloop as [Hc Hpos]; [| lia | done].
    assert (is_eol None = false) as Hnone by done.
    rewrite Hnone in Hpos. destruct Hpos as [-> ->]. simpl. split; [done |].
    destruct crlf; lia.
Qed.

Lemma skip_loop_inl (n : nat) : ∀ x crlf s e,
  position s = n → skip_loop x crlf s = inl e → e ≠ SeekBeforeStart.
Proof.
  induction n as [n IH] using lt_wf_ind. intros x crlf s e Hn Hloop.
  rewrite skip_loop_step in Hloop.
  destruct (is_eol x); [| discriminate].
  destruct (contents s !! position s) as [b|] eqn:Hb.
  - destruct (is_eol (Some b)) eqn:Heolb.
    + rewrite (skip_step_eol _ _ b) in Hloop by done.
      case_bool_decide; [by injection Hloop as <- |].
      eapply (IH (position s - 2)%nat); [lia | | exact Hloop]. done.
    + rewrite (skip_step_other _ _ b) in Hloop by done.
      case_bool_decide; [by injection Hloop as <- |].
      eapply (IH (position s - 1)%nat); [lia | | exact Hloop]. done.
  - rewrite skip_step_end in Hloop by done.
    case_bool_decide; [by injection Hloop as <- |].
    eapply (IH (position s - 2)%nat); [lia | | exact Hloop]. done.
Qed.

(** What [read_next_end_line] returns. *)
Lemma read_next_end_line_inr (s : stream) (line : bytes) (s' : stream) :
  read_next_end_line s = inr (line, s') →
  contents s' = contents s
  ∧ (position s' < position s)%nat
  ∧ Forall (λ c, is_eol (Some c) = false) line
  ∧ ∃ (e : nat) (b : byte),
      contents s !! e = Some b ∧ is_eol (Some b) = true
      ∧ position s = (e + length line)%nat
      ∧ line = take (length line) (drop (S e) (contents s))
      ∧ (position s' < e)%nat.
Proof.
  unfold read_next_end_line. intros Hread.
  destruct (build_loop s []) as [e | [[yielded x] s1]] eqn:Hbuild; [discriminate |].
  apply (build_loop_inr _ _ _ _ _ _ eq_refl) in Hbuild
    as (y' & b & Hy & -> & Heol & Hc1 & Hpos1 & Hb & Hall & Hrev).
  simpl in Hy. subst yielded.
  destruct (skip_loop (Some b) false s1) as [e | [crlf s2]] eqn:Hskip; [discriminate |].
  apply (skip_loop_inr _ _ _ _ _ _ eq_refl) in Hskip as [Hc2 Hpos2].
  rewrite Heol in Hpos2.
  unfold seek_cur in Hread. rewrite bool_decide_eq_true_2 in Hread by (destruct crlf; lia).
  injection Hread as <- <-. simpl.
  split; [congruence |]. split; [destruct crlf; lia |].
  split; [by apply Forall_reverse |].
  exists (S (position s1)), b. rewrite length_reverse.
  repeat split; try done; try lia.
  destruct crlf; lia.
Qed.

(** X10. When [read_next_end_line] returns, the stream holds what it held
    and stands strictly before where it stood; the line is free of end of
    line bytes, and it is the run of bytes that ends at the old position and
    starts right after an end of line byte. *)
Theorem read_next_end_line_returns (s : stream) (line : bytes) (s' : stream) :
  read_next_end_line s = inr (line, s') →
  contents s' = contents s
  ∧ (position s' < position s)%nat
  ∧ Forall (λ c, is_eol (Some c) = false) line
  ∧ ∃ (e : nat) (b : byte),
      contents s !! e = Some b ∧ is_eol (Some b) = true
      ∧ position s = (e + length line)%nat
      ∧ line = take (length line) (drop (S e) (contents s))
      ∧ (position s' < e)%nat.
Proof. apply read_next_end_line_inr. Qed.

Lemma read_next_end_line_inl (s : stream) :
  read_next_end_line s ≠ inl SeekBeforeStart.
Proof.
  unfold read_next_end_line. intros Hread.
  destruct (build_loop s []) as [e | [[yielded x] s1]] eqn:Hbuild.
  { injection Hread as ->. by eapply build_loop_inl. }
  destruct (skip_loop x false s1) as [e | [crlf s2]] eqn:Hskip.
  { injection Hread as ->. by eapply skip_loop_inl. }
  unfold seek_cur in Hread. rewrite bool_decide_eq_true_2 in Hread by (destruct crlf; lia).
  discriminate.
Qed.

(** X11. [read_next_end_line] never seeks to before the start of the
    stream: every [seek] backwards comes after a check of [tell()] or a
    [read] that covers it. *)
Theorem read_next_end_line_never_seeks_before_start (s : stream) :
  read_next_end_line s ≠ inl SeekBeforeStart.
Proof. apply read_next_end_line_inl. Qed.

(** The first loop on a line that an end of line byte precedes. *)
Lemma build_loop_run (c : bytes) (front : bytes) (eol : byte) (line : bytes) :
  ∀ (rest yielded : bytes) (p : nat),
  c = front ++ [eol] ++ line ++ rest → front ≠ [] →
  is_eol (Some eol) = true → Forall (λ b, is_eol (Some b) = false) line →
  p = (length front + length line)%nat →
  build_loop (mkStream c p) yielded
  = inr (yielded ++ reverse line, Some eol, mkStream c (length front - 1)).
Proof.
  induction line as [|b line IH] using rev_ind; intros rest yielded p Hc Hfront Heol Hline ->.
  - rewrite build_loop_step. simpl.
    destruct front as [|f front] using rev_ind; [done |]. clear IHfront.
    rewrite length_app, Nat.add_0_r. simpl.
    replace (length front + 1)%nat with (S (length front)) by lia.
    rewrite (build_step_byte _ (length front) eol); simpl; [| done |].
    + rewrite Heol, app_nil_r. do 3 f_equal. lia.
    + rewrite Hc. apply list_lookup_middle. rewrite length_app. simpl. lia.
  - apply Forall_app in Hline as [Hline Hb]. rewrite Forall_singleton in Hb.
    rewrite build_loop_step. rewrite length_app. simpl.
    replace (length front + (length line + 1))%nat
      with (S (length front + length line)) by lia.
    rewrite (build_step_byte _ (length front + length line) b); simpl; [| done |].
    + rewrite Hb. rewrite (IH ([b] ++ rest)); try done.
      * by rewrite reverse_app, <- app_assoc.
      * rewrite Hc. by rewrite <- !app_assoc.
    + rewrite Hc.
      replace (front ++ [eol] ++ (line ++ [b]) ++ rest)
        with ((front ++ [eol] ++ line) ++ b :: rest) by (by rewrite <- !app_assoc).
      apply list_lookup_middle. rewrite !length_app. simpl. lia.
Qed.

(** The line after a single end of line byte. *)
Lemma read_next_end_line_after_eol (pre : bytes) (c eol : byte) (line rest : bytes)
    (s : stream) :
  contents s = pre ++ [c; eol] ++ line ++ rest →
  pre ≠ [] →
  is_eol (Some c) = false → is_eol (Some eol) = true →
  Forall (λ b, is_eol (Some b) = false) line →
  position s = (length pre + 1 + length line)%nat →
  read_next_end_line s = inr (line, mkStream (contents s) (length pre)).
Proof.
  intros Hc Hpre Hnoeol Heol Hline Hpos. destruct s as [cs p]. simpl in *. subst p.
  unfold read_next_end_line.
  rewrite (build_loop_run cs (pre ++ [c]) eol line rest);
    [| by rewrite Hc, <- app_assoc | by destruct pre | done | done
     | rewrite length_app; simpl; lia].
  rewrite length_app. simpl.
  replace (length pre + 1 - 1)%nat with (length pre) by lia.
  assert (Hat : cs !! length pre = Some c).
  { rewrite Hc. by apply list_lookup_middle. }
  assert (Hlen : length pre ≠ 0%nat) by (by destruct pre).
  rewrite skip_loop_step, Heol.
  rewrite (skip_step_other _ _ c) by done. simpl.
  rewrite bool_decide_eq_false_2 by done.
  rewrite skip_loop_step, Hnoeol.
  unfold seek_cur. simpl. rewrite bool_decide_eq_true_2 by lia.
  rewrite reverse_involutive. do 3 f_equal. lia.
Qed.

(** X13. A line that a single end of line byte precedes: with the stream
    on the last byte of the line (or on the end of line byte, for an empty
    line), [read_next_end_line] returns the line and leaves the stream on
    the byte before the end of line byte.  This needs that byte not to be
    the first of the file. *)
Theorem read_next_end_line_single_eol (pre : bytes) (c eol : byte) (line rest : bytes)
    (s : stream) :
  contents s = pre ++ [c; eol] ++ line ++ rest →
  pre ≠ [] →
  is_eol (Some c) = false → is_eol (Some eol) = true →
  Forall (λ b, is_eol (Some b) = false) line →
  position s = (length pre + 1 + length line)%nat →
  read_next_end_line s = inr (line, mkStream (contents s) (length pre)).
Proof. apply read_next_end_line_after_eol. Qed.

(** X14. A line that two end of line bytes precede (CR and LF): the
    stream is left two bytes before them, the byte in between having been
    passed over unread.  This needs the byte it is left before not to be an
    end of line byte, and not to be the first of the file. *)
Theorem read_next_end_line_double_eol (pre : bytes) (c' c e1 e2 : byte)
    (line rest : bytes) (s : stream) :
  contents s = pre ++ [c'; c; e1; e2] ++ line ++ rest →
  pre ≠ [] →
  is_eol (Some c') = false → is_eol (Some e1) = true → is_eol (Some e2) = true →
  Forall (λ b, is_eol (Some b) = false) line →
  position s = (length pre + 3 + length line)%nat →
  read_next_end_line s = inr (line, mkStream (contents s) (length pre + 1)).
Proof.
  intros Hc Hpre Hnoeol Heol1 Heol2 Hline Hpos. destruct s as [cs p]. simpl in *. subst p.
  unfold read_next_end_line.
  rewrite (build_loop_run cs (pre ++ [c'; c; e1]) e2 line rest);
    [| by rewrite Hc, <- app_assoc | by destruct pre | done | done
     | rewrite length_app; simpl; lia].
  rewrite length_app. simpl.
  replace (length pre + 3 - 1)%nat with (length pre + 2)%nat by lia.
  assert (Hlen : length pre ≠ 0%nat) by (by destruct pre).
  assert (Hat1 : cs !! (length pre + 2)%nat = Some e1).
  { rewrite Hc, lookup_app_r by lia.
    by replace (length pre + 2 - length pre)%nat with 2%nat by lia. }
  assert (Hat : cs !! length pre = Some c').
  { rewrite Hc. by apply list_lookup_middle. }
  rewrite skip_loop_step, Heol2.
  rewrite (skip_step_eol _ _ e1) by done. simpl.
  rewrite bool_decide_eq_false_2 by lia.
  replace (length pre + 2 - 2)%nat with (length pre) by lia.
  rewrite skip_loop_step, Heol1.
  rewrite (skip_step_other _ _ c') by done. simpl.
  rewrite bool_decide_eq_false_2 by done.
  rewrite skip_loop_step, Hnoeol.
  unfold seek_cur. simpl. rewrite bool_decide_eq_true_2 by lia.
  rewrite reverse_involutive. do 3 f_equal. lia.
Qed.

(** The first loop on a stream without an end of line byte from the
    position down to the second byte. *)
Lemma build_loop_no_eol (n : nat) : ∀ s yielded,
  position s = n → (position s < length (contents s))%nat →
  (∀ i b, (1 ≤ i ≤ position s)%nat → contents s !! i = Some b → is_eol (Some b) = false) →
  build_loop s yielded = inl MalformedFile.
Proof.
  induction n as [|n IH]; intros s yielded Hn Hlen Hnone; rewrite build_loop_step.
  - by rewrite build_step_start.
  - destruct (lookup_lt_is_Some_2 (contents s) (S n)) as [b Hb]; [lia |].
    rewrite (build_step_byte s n b) by done.
    rewrite (Hnone (S n) b) by (done || lia).
    apply IH; simpl; [done | lia |].
    intros i b' Hi. apply Hnone. lia.
Qed.

(** X12. What [read_next_end_line] raises.  At the start of the stream,
    and where no end of line byte lies between the second byte of the
    stream and the position, it is the error of a malformed file (the first
    byte of the stream is never looked at).  At or past the end of the
    stream it is the [TypeError] of [ord(b'')], or, at position 1, the
    error of the missing end of line marker. *)
Theorem read_next_end_line_raises (s : stream) :
  (position s = 0%nat → read_next_end_line s = inl MalformedFile)
  ∧ ((position s < length (contents s))%nat →
     (∀ i b, (1 ≤ i ≤ position s)%nat → contents s !! i = Some b →
        is_eol (Some b) = false) →
     read_next_end_line s = inl MalformedFile)
  ∧ ((length (contents s) ≤ position s)%nat → (2 ≤ position s)%nat →
     read_next_end_line s = inl OrdOfNoByte)
  ∧ ((length (contents s) ≤ position s)%nat → position s = 1%nat →
     read_next_end_line s = inl EOLMarkerNotFound).
Proof.
  unfold read_next_end_line. repeat split.
  - intros Hpos. by rewrite build_loop_step, build_step_start.
  - intros Hlen Hnone. by rewrite (build_loop_no_eol _ _ _ eq_refl).
  - intros Hlen Hpos. rewrite build_loop_step.
    destruct (position s) as [|p] eqn:Hp; [lia |].
    rewrite (build_step_end s p); [| done | apply lookup_ge_None_2; lia].
    by rewrite bool_decide_eq_false_2 by lia.
  - intros Hlen Hpos. rewrite build_loop_step.
    rewrite (build_step_end s 0); [done | done | apply lookup_ge_None_2; lia].
Qed.

Section eof_facts.
Variable int_of_bytes : bytes → option Z.

(** The loop for the EOF marker ends within one turn per byte before the
    position, and one more. *)
Lemma find_eof_marker_finishes (turns : nat) : ∀ last_1k line s,
  (position s < turns)%nat →
  ∃ r, find_eof_marker turns last_1k line s = Some r
    ∧ r ≠ inl SeekBeforeStart
    ∧ ∀ s', r = inr s' → contents s' = contents s ∧ (position s' ≤ position s)%nat.
Proof.
  induction turns as [|turns IH]; intros last_1k line s Hturns; [lia |].
  simpl. case_bool_decide.
  2: { exists (inr s). split; [done |]. split; [done |]. by intros s' [= <-]. }
  case_bool_decide.
  { exists (inl EOFMarkerNotFound). by repeat split. }
  destruct (read_next_end_line s) as [e | [line' s1]] eqn:Hread.
  - exists (inl e). split; [done |]. split; [| done].
    intros [= ->]. by apply (read_next_end_line_inl s).
  - apply read_next_end_line_inr in Hread as (Hc & Hpos & _).
    destruct (IH last_1k line' s1) as (r & -> & Hr & Hs'); [lia |].
    exists r. split; [done |]. split; [done |].
    intros s' Heq. destruct (Hs' s' Heq) as [Hc' Hpos']. split; [congruence | lia].
Qed.

(** X15. [process_data_at_eof] always finishes: each line read moves the
    stream back, so the loop for the EOF marker ends.  It never seeks to
    before the start of the stream, and when it returns the stream holds
    what it held and stands strictly before where it stood. *)
Theorem process_data_at_eof_finishes (s : stream) :
  ∃ r, process_data_at_eof int_of_bytes s = Some r
    ∧ r ≠ inl SeekBeforeStart
    ∧ ∀ startxref s', r = inr (startxref, s') →
        contents s' = contents s ∧ (position s' < position s)%nat.
Proof.
  unfold process_data_at_eof.
  destruct (find_eof_marker_finishes (S (position s)) (Z.of_nat (position s) - 1024 + 1) [] s)
    as (r & -> & Hr & Hs1); [lia |].
  destruct r as [e | s1].
  { exists (inl e). split; [done |]. split; [| done]. intros [= ->]. by apply Hr. }
  destruct (Hs1 s1 eq_refl) as [Hc1 Hpos1].
  eexists. split; [reflexivity |].
  destruct (read_next_end_line s1) as [e | [line s2]] eqn:Hread2.
  { split; [| done]. intros [= ->]. by apply (read_next_end_line_inl s1). }
  apply read_next_end_line_inr in Hread2 as (Hc2 & Hpos2 & _).
  destruct (int_of_bytes line) as [startxref|].
  - destruct (read_next_end_line s2) as [e | [line3 s3]] eqn:Hread3.
    { split; [| done]. intros [= ->]. by apply (read_next_end_line_inl s2). }
    apply read_next_end_line_inr in Hread3 as (Hc3 & Hpos3 & _).
    case_bool_decide; [by split |].
    split; [done |]. intros n s' [= <- <-]. split; [congruence | lia].
  - destruct (negb _); [by split |].
    destruct (int_of_bytes (strip _)); [| by split].
    split; [done |]. intros n s' [= <- <-]. split; [congruence | lia].
Qed.

(** X16. A file that ends with the word startxref, a number and the EOF
    marker, each on a line of its own that a single end of line byte ends
    (the last one may be missing): from the last byte of the file,
    [process_data_at_eof] returns the number that [int] reads on the second
    line, and leaves the stream before the end of line byte that precedes
    startxref. *)
Theorem process_data_at_eof_reads_startxref (pre : bytes) (c e1 e2 e3 : byte)
    (digits : bytes) (d : byte) (trailer : bytes) (n : Z) (s : stream) :
  contents s
  = pre ++ [c; e1] ++ startxref_word ++ [e2] ++ (digits ++ [d]) ++ [e3]
        ++ eof_marker ++ trailer →
  pre ≠ [] →
  is_eol (Some c) = false →
  is_eol (Some e1) = true → is_eol (Some e2) = true → is_eol (Some e3) = true →
  Forall (λ b, is_eol (Some b) = false) (digits ++ [d]) →
  (trailer = [] ∨ ∃ e4, trailer = [e4] ∧ is_eol (Some e4) = true) →
  int_of_bytes (digits ++ [d]) = Some n →
  position s = (length (contents s) - 1)%nat →
  process_data_at_eof int_of_bytes s = Some (inr (n, mkStream (contents s) (length pre))).
Proof.
  intros Hc Hpre Hnoeol Heol1 Heol2 Heol3 Hdigits Htrailer Hint Hpos.
  destruct s as [cs p]. simpl in *. subst p.
  set (before_marker := pre ++ [c; e1] ++ startxref_word ++ [e2] ++ digits).
  assert (Hcs : cs = before_marker ++ [d; e3] ++ eof_marker ++ trailer).
  { rewrite Hc. unfold before_marker. by rewrite <- !app_assoc. }
  apply Forall_app in Hdigits as Hd. destruct Hd as [_ Hd]. rewrite Forall_singleton in Hd.
  assert (Hbefore : before_marker ≠ []) by (unfold before_marker; by destruct pre).
  assert (Hmarker_line : Forall (λ b, is_eol (Some b) = false) eof_marker)
    by (repeat constructor).
  assert (Hword_line : Forall (λ b, is_eol (Some b) = false) startxref_word)
    by (repeat constructor).
  assert (Hmarker : ∀ turns last_1k,
            find_eof_marker turns last_1k eof_marker (mkStream cs (length before_marker))
            = Some (inr (mkStream cs (length before_marker)))).
  { intros turns last_1k. by destruct turns. }
  assert (Hread_marker :
            read_next_end_line (mkStream cs (length before_marker + 1 + length eof_marker))
            = inr (eof_marker, mkStream cs (length before_marker))).
  { by apply (read_next_end_line_after_eol before_marker d e3 eof_marker trailer). }
  assert (Hlen : length cs
                 = (length before_marker + 2 + length eof_marker + length trailer)%nat).
  { rewrite Hcs, !length_app. simpl. lia. }
  pose proof (eq_refl : length eof_marker = 5%nat) as Hmarker_len.
  unfold process_data_at_eof.
  assert (Hfound : find_eof_marker (S (length cs - 1)) (Z.of_nat (length cs - 1) - 1024 + 1)
                     [] (mkStream cs (length cs - 1))
                   = Some (inr (mkStream cs (length before_marker)))).
  { destruct Htrailer as [-> | (e4 & -> & Heol4)]; simpl in Hlen.
    - replace (length cs - 1)%nat with (length before_marker + 1 + length eof_marker)%nat
        by lia.
      cbn [find_eof_marker].
      rewrite (bool_decide_eq_true_2 (Py.slice_to [] 5 ≠ eof_marker)) by done.
      rewrite bool_decide_eq_false_2 by (simpl; lia).
      by rewrite Hread_marker, Hmarker.
    - replace (length cs - 1)%nat with (S (length before_marker + 1 + length eof_marker))
        by lia.
      cbn [find_eof_marker].
      rewrite (bool_decide_eq_true_2 (Py.slice_to [] 5 ≠ eof_marker)) by done.
      rewrite bool_decide_eq_false_2 by (simpl; lia).
      rewrite (read_next_end_line_after_eol
                 (before_marker ++ [d; e3] ++ [x25; x25; x45; x4f]) x46 e4 [] []);
        [| by rewrite Hcs, <- !app_assoc | by destruct before_marker | done | done | done
         | simpl; rewrite !length_app; simpl; lia].
      cbn [contents].
      replace (length (before_marker ++ [d; e3] ++ [x25; x25; x45; x4f]))
        with (length before_marker + 1 + length eof_marker)%nat
        by (rewrite !length_app; simpl; lia).
      rewrite (bool_decide_eq_true_2 (Py.slice_to [] 5 ≠ eof_marker)) by done.
      rewrite bool_decide_eq_false_2 by (simpl; lia).
      by rewrite Hread_marker, Hmarker. }
  cbn [position]. rewrite Hfound. f_equal.
  (* the line of the number *)
  set (before_number := pre ++ [c; e1] ++ [x73; x74; x61; x72; x74; x78; x72; x65]).
  rewrite (read_next_end_line_after_eol before_number x66 e2 (digits ++ [d])
             ([e3] ++ eof_marker ++ trailer));
    [| by rewrite Hc; unfold before_number; rewrite <- !app_assoc
     | unfold before_number; by destruct pre | done | done | done
     | unfold before_marker, before_number; simpl; rewrite !length_app; simpl; lia].
  cbn [contents]. rewrite Hint.
  (* the line of the word *)
  rewrite (read_next_end_line_after_eol pre c e1 startxref_word
             ([e2] ++ (digits ++ [d]) ++ [e3] ++ eof_marker ++ trailer)).
  - cbn [contents]. by rewrite bool_decide_eq_false_2 by (intros Hne; by apply Hne).
  - rewrite Hc. simpl. by rewrite <- !app_assoc.
  - done.
  - done.
  - done.
  - done.
  - unfold before_number. simpl. rewrite !length_app. simpl. lia.
Qed.

End eof_facts.

Lemma read_next_end_line_returns_witness :
  let s := mkStream sample_tail 21 in
  let s' := mkStream sample_tail 20 in
  contents s' = contents s
  ∧ (position s' < position s)%nat
  ∧ Forall (λ c, is_eol (Some c) = false) []
  ∧ ∃ (e : nat) (b : byte),
      contents s !! e = Some b ∧ is_eol (Some b) = true
      ∧ position s = (e + length (@nil byte))%nat
      ∧ [] = take (length (@nil byte)) (drop (S e) (contents s))
      ∧ (position s' < e)%nat.
Proof.
  apply (read_next_end_line_returns (mkStream sample_tail 21) [] (mkStream sample_tail 20)).
  vm_compute. reflexivity.
Defined.

Lemma read_next_end_line_raises_witness :
  read_next_end_line (mkStream sample_tail 0) = inl MalformedFile
  ∧ read_next_end_line (mkStream sample_tail 1) = inl MalformedFile
  ∧ read_next_end_line (mkStream sample_tail 22) = inl OrdOfNoByte
  ∧ read_next_end_line (mkStream [x0a] 1) = inl EOLMarkerNotFound.
Proof.
  split; [| split; [| split]].
  - apply (proj1 (read_next_end_line_raises (mkStream sample_tail 0))). reflexivity.
  - apply (proj1 (proj2 (read_next_end_line_raises (mkStream sample_tail 1))));
      [simpl; lia |].
    intros i b Hi. simpl in Hi. assert (i = 1%nat) as -> by lia.
    vm_compute. by intros [= <-].
  - apply (proj1 (proj2 (proj2 (read_next_end_line_raises (mkStream sample_tail 22)))));
      simpl; lia.
  - apply (proj2 (proj2 (proj2 (read_next_end_line_raises (mkStream [x0a] 1)))));
      [simpl; lia | reflexivity].
Defined.

Lemma read_next_end_line_single_eol_witness :
  read_next_end_line (mkStream sample_tail 20)
  = inr (eof_marker, mkStream sample_tail 14).
Proof.
  apply (read_next_end_line_single_eol
           ([x25; x61; x0a] ++ startxref_word ++ [x0a; x31]) x32 x0a eof_marker [x0a]
           (mkStream sample_tail 20));
    try reflexivity; [done | repeat constructor].
Defined.

Lemma read_next_end_line_double_eol_witness :
  read_next_end_line (mkStream sample_tail_crlf 21)
  = inr (eof_marker, mkStream sample_tail_crlf 14).
Proof.
  apply (read_next_end_line_double_eol
           ([x25; x61; x0a] ++ startxref_word ++ [x0a]) x31 x32 x0d x0a eof_marker []
           (mkStream sample_tail_crlf 21));
    try reflexivity; [done | repeat constructor].
Defined.

Lemma process_data_at_eof_reads_startxref_witness :
  process_data_at_eof decimal_int (mkStream sample_tail 21)
  = Some (inr (12, mkStream sample_tail 1)).
Proof.
  apply (process_data_at_eof_reads_startxref decimal_int [x25] x61 x0a x0a x0a [x31] x32
           [x0a] 12 (mkStream sample_tail 21));
    try reflexivity; [done | repeat constructor | right; by exists x0a].
Defined.

End ReaderFacts.

(** ** The encryption engine *)

Module CryptFacts.
Import Crypt.

(** Case analysis on the steps of a computation that returned. *)
Ltac bind_inv H :=
  repeat first
    [ apply result_bind_Ok in H as (? & ? & H)
    | match type of H with
      | (let '(_, _) := ?x in _) = _ => destruct x
      | (if ?b then _ else _) = _ => destruct b eqn:?
      | match ?x with _ => _ end = _ => destruct x eqn:?
      end; simpl in H; try discriminate H ].

(** C8. An access to [shared_key] returns the cached key when there is one,
    without deriving; with no key cached it raises the authentication
    failure when the flag is set, again without deriving, and otherwise
    calls [derive_shared_encryption_key] once and caches what it returns,
    so that every later access returns that key and derives nothing. *)
Theorem shared_key_lazy_cache {E} `{CryptFilterMethods E} (env : E) (self : CryptFilter) :
  (∀ key, cf_shared_key self = Some key → shared_key env self = (Ok key, self))
  ∧ (cf_shared_key self = None → cf_auth_failed env = Ok true →
     shared_key env self = (Raise (PdfReadError AuthenticationFailed), self))
  ∧ (∀ key, cf_shared_key self = None → cf_auth_failed env = Ok false →
       derive_shared_encryption_key env = Ok key →
       ∃ self', shared_key env self = (Ok key, self')
         ∧ cf_shared_key self' = Some key
         ∧ derivations self' = S (derivations self)
         ∧ ∀ env', shared_key env' self' = (Ok key, self')).
Proof.
  unfold shared_key. split; [| split].
  - intros key ->. reflexivity.
  - intros -> ->. reflexivity.
  - intros key -> -> ->. eexists. split; [reflexivity |]. simpl.
    repeat split.
Qed.

Section handler_facts.
Context `{Primitives}.

Lemma _authenticate_legacy_key self id1 password res key :
  _authenticate_legacy self id1 password = Ok (res, key) →
  (res = FAILED ↔ key = None).
Proof.
  unfold _authenticate_legacy. intros Hauth.
  bind_inv Hauth; simplify_eq; split; intros; discriminate || reflexivity.
Qed.

Lemma _authenticate_r6_key self password res key :
  _authenticate_r6 self password = Ok (res, key) →
  (res = FAILED ↔ key = None).
Proof.
  unfold _authenticate_r6. intros Hauth.
  apply result_bind_Ok in Hauth as (pw_bytes & _ & Hauth).
  apply result_bind_Ok in Hauth as (o_entry_split & _ & Hauth).
  apply result_bind_Ok in Hauth as (u_entry_split & _ & Hauth).
  apply result_bind_Ok in Hauth as (owner_matches & _ & Hauth).
  apply result_bind_Ok in Hauth as (found & Hfound & Hauth).
  destruct found as [[auth_result k]|].
  - assert (auth_result ≠ FAILED) by (bind_inv Hfound; by simplify_eq).
    bind_inv Hauth. simplify_eq. split; [done | discriminate].
  - by simplify_eq.
Qed.

(** What [authenticate] does to the handler. *)
Lemma authenticate_effect self cred id1 r self' :
  authenticate self cred id1 = (r, self') →
  (is_Raise r ∧ self' = self)
  ∨ (r = Ok FAILED ∧ self' = set_auth_failed true self)
  ∨ (∃ res key, r = Ok res ∧ res ≠ FAILED ∧ self' = set_shared_key (Some key) self).
Proof.
  unfold authenticate.
  set (outcome := match revision self with AES256 => _ | _ => _ end).
  assert (Hkey : ∀ res key, outcome = Ok (res, key) → (res = FAILED ↔ key = None)).
  { intros res key. subst outcome.
    destruct (revision self); try apply _authenticate_r6_key;
      (destruct id1 as [id1|]; [| discriminate]);
      intros Hauth; apply result_bind_Ok in Hauth as (pw & _ & Hauth);
      by apply _authenticate_legacy_key in Hauth. }
  clearbody outcome. destruct outcome as [[res [key|]]|e]; intros Hr; simplify_eq.
  - right. right. exists res, key. repeat split.
    intros ->. destruct (Hkey FAILED (Some key) eq_refl) as [Hk _].
    by specialize (Hk eq_refl).
  - right. left. split; [| done].
    f_equal. by apply (Hkey res None eq_refl).
  - left. split; [by eexists | done].
Qed.

End handler_facts.

(** C9. An [authenticate] that returns [FAILED] sets [_auth_failed]; no
    call made afterwards on the handler or on its filter resets it, a
    successful [authenticate] included; so after an earlier failure and a
    later success the handler has its key, [get_file_encryption_key]
    returns it, and a filter with no key of its own still raises the
    authentication failure on [shared_key]. *)
Theorem auth_failed_flag_never_cleared `{Primitives} :
  (∀ self cred id1 self',
     authenticate self cred id1 = (Ok FAILED, self') → _auth_failed self' = true)
  ∧ (∀ calls s,
       _auth_failed (handler s) = true →
       _auth_failed (handler (foldl run_call s calls)) = true)
  ∧ (∀ self cred id1 res self' filter,
       _auth_failed self = true →
       authenticate self cred id1 = (Ok res, self') → res ≠ FAILED →
       cf_shared_key filter = None →
       (∃ key, _shared_key self' = Some key ∧ get_file_encryption_key self' = Ok key)
       ∧ shared_key (Some self') filter
         = (Raise (PdfReadError AuthenticationFailed), filter)).
Proof.
  split; [| split].
  - intros self cred id1 self' Hauth.
    apply authenticate_effect in Hauth
      as [[[e He] _] | [[_ ->] | (res & key & Hr & Hres & _)]].
    + discriminate.
    + reflexivity.
    + simplify_eq.
  - intros calls. induction calls as [|c calls IH]; intros s Hflag; [done |].
    simpl. apply IH. destruct c as [cred id1 | |]; simpl; try done.
    destruct (authenticate (handler s) cred id1) as [r self'] eqn:Hauth.
    apply authenticate_effect in Hauth
      as [[_ ->] | [[_ ->] | (res & key & _ & _ & ->)]]; done.
  - intros self cred id1 res self' filter Hflag Hauth Hres Hnokey.
    apply authenticate_effect in Hauth
      as [[[e He] _] | [[Hr _] | (res' & key & Hr & _ & ->)]].
    + discriminate.
    + simplify_eq.
    + split; [by exists key |].
      unfold shared_key. rewrite Hnokey. simpl. by rewrite Hflag.
Qed.

(** *** Bytes under xor *)

Lemma N_lxor_byte_bound (a b : N) :
  (a ≤ 255 → b ≤ 255 → N.lxor a b ≤ 255)%N.
Proof.
  intros Ha Hb.
  destruct (N.eq_dec (N.lxor a b) 0%N) as [-> | Hnz]; [lia |].
  assert (Hlog : ∀ x, (x ≤ 255 → N.log2 x < 8)%N).
  { intros x Hx. destruct (N.eq_dec x 0%N) as [-> | Hx0]; [done |].
    apply N.log2_lt_pow2; [lia |]. change (2 ^ 8)%N with 256%N. lia. }
  assert (N.lxor a b < 2 ^ 8)%N as Hlt.
  { apply N.log2_lt_pow2; [lia |].
    pose proof (N.log2_lxor a b). pose proof (Hlog a Ha). pose proof (Hlog b Hb). lia. }
  change (2 ^ 8)%N with 256%N in Hlt. lia.
Qed.

Lemma to_N_byte_of_N (n : N) : (n ≤ 255)%N → Byte.to_N (byte_of_N n) = n.
Proof.
  intros Hn. unfold byte_of_N.
  destruct (Byte.of_N n) as [b|] eqn:Hof; simpl.
  - by apply Byte.to_of_N.
  - apply Byte.of_N_None_iff in Hof. lia.
Qed.

Lemma byte_of_N_to_N (b : byte) : byte_of_N (Byte.to_N b) = b.
Proof. unfold byte_of_N. by rewrite Byte.of_to_N. Qed.

Lemma to_N_byte_xor (a b : byte) :
  Byte.to_N (byte_xor a b) = N.lxor (Byte.to_N a) (Byte.to_N b).
Proof.
  unfold byte_xor. apply to_N_byte_of_N.
  apply N_lxor_byte_bound; apply Byte.to_N_bounded.
Qed.

Lemma byte_xor_involutive (a b : byte) : byte_xor (byte_xor a b) b = a.
Proof.
  unfold byte_xor at 1. rewrite to_N_byte_xor.
  rewrite N.lxor_assoc, N.lxor_nilpotent, N.lxor_0_r.
  apply byte_of_N_to_N.
Qed.

Lemma length_xor_bytes (a b : bytes) :
  length (xor_bytes a b) = (length a `min` length b)%nat.
Proof.
  revert b. induction a as [|x a IH]; intros [|y b]; simpl; try done.
  by rewrite IH.
Qed.

Lemma xor_bytes_involutive (a b : bytes) :
  (length a ≤ length b)%nat → xor_bytes (xor_bytes a b) b = a.
Proof.
  revert b. induction a as [|x a IH]; intros [|y b] Hlen; simpl in *; try done.
  - lia.
  - rewrite byte_xor_involutive, IH by lia. done.
Qed.

Lemma length_toy_digest n m : length (toy_digest n m) = n.
Proof.
  unfold toy_digest. rewrite length_take, length_app, length_replicate. lia.
Qed.

Lemma aes_key_ok_length key : aes_key_ok key = true → (16 ≤ length key)%nat.
Proof.
  unfold aes_key_ok. intros Hk. apply bool_decide_eq_true_1 in Hk. lia.
Qed.

Lemma toy_primitive_laws : PrimitiveLaws toy_primitives.
Proof.
  split; simpl; try apply length_toy_digest.
  - intros key b Hk Hb. apply aes_key_ok_length in Hk.
    unfold toy_block. rewrite length_xor_bytes, length_take. lia.
  - intros key b Hk Hb. apply aes_key_ok_length in Hk.
    unfold toy_block. rewrite length_xor_bytes, length_take. lia.
  - intros key b Hk Hb. apply aes_key_ok_length in Hk.
    unfold toy_block. apply xor_bytes_involutive. rewrite length_take. lia.
Qed.

(** *** The rounds of the revision 6 hash *)

Section r6_hash.
Context `{Laws : PrimitiveLaws}.

Lemma length_cbc_encrypt_blocks n : ∀ key prev data,
  aes_key_ok key = true → length prev = 16%nat → (16 * n ≤ length data)%nat →
  length (cbc_encrypt_blocks n key prev data) = (16 * n)%nat.
Proof.
  induction n as [|n IH]; intros key prev data Hk Hprev Hdata; simpl; [done |].
  assert (Hblock : length (aes_encrypt_block key (xor_bytes (take 16 data) prev)) = 16%nat).
  { apply aes_encrypt_block_length; [done |].
    rewrite length_xor_bytes, length_take. lia. }
  rewrite length_app, Hblock, IH; [lia | done | done |].
  rewrite length_drop. lia.
Qed.

Lemma length_cbc_decrypt_blocks n : ∀ key prev data,
  aes_key_ok key = true → length prev = 16%nat → (16 * n ≤ length data)%nat →
  length (cbc_decrypt_blocks n key prev data) = (16 * n)%nat.
Proof.
  induction n as [|n IH]; intros key prev data Hk Hprev Hdata; simpl; [done |].
  assert (Hc : length (take 16 data) = 16%nat) by (rewrite length_take; lia).
  rewrite length_app, length_xor_bytes, aes_decrypt_block_length, IH;
    [lia | done | done | | done | done].
  rewrite length_drop. lia.
Qed.

Lemma aes_cbc_no_padding_encrypt_Ok key data iv :
  aes_key_ok key = true → length iv = 16%nat → (length data mod 16 = 0)%nat →
  ∃ e, aes_cbc_no_padding_encrypt key data iv = Ok (iv, e)
       ∧ length e = length data.
Proof.
  intros Hk Hiv Hdata. unfold aes_cbc_no_padding_encrypt, cbc_arguments_ok.
  rewrite Hk, !bool_decide_eq_true_2 by done. cbn [andb].
  eexists. split; [reflexivity |].
  pose proof (Nat.div_mod_eq (length data) 16) as Hdiv.
  rewrite length_cbc_encrypt_blocks; [lia | done | done | lia].
Qed.

Lemma aes_cbc_no_padding_decrypt_Ok key data iv :
  aes_key_ok key = true → length iv = 16%nat → (length data mod 16 = 0)%nat →
  ∃ d, aes_cbc_no_padding_decrypt key data iv = Ok d ∧ length d = length data.
Proof.
  intros Hk Hiv Hdata. unfold aes_cbc_no_padding_decrypt, cbc_arguments_ok.
  rewrite Hk, !bool_decide_eq_true_2 by done. cbn [andb].
  eexists. split; [reflexivity |].
  pose proof (Nat.div_mod_eq (length data) 16) as Hdiv.
  rewrite length_cbc_decrypt_blocks; [lia | done | done | lia].
Qed.

Lemma _bytes_mod_3_range input_bytes : 0 ≤ _bytes_mod_3 input_bytes < 3.
Proof. unfold _bytes_mod_3. apply Z.mod_pos_bound. lia. Qed.

(** A round on a digest returns: the next digest and the last byte of [e]. *)
Lemma r6_round_Ok pw_bytes u_entry k :
  (32 ≤ length k)%nat →
  ∃ k' last_byte_val,
    r6_round pw_bytes u_entry k = Ok (k', last_byte_val) ∧ (32 ≤ length k')%nat.
Proof.
  intros Hk. unfold r6_round.
  set (k1 := Py.repeat_seq (pw_bytes ++ k ++ or_empty u_entry) 64).
  assert (Hk1 : length k1 = (64 * length (pw_bytes ++ k ++ or_empty u_entry))%nat)
    by apply PyFacts.length_repeat_seq.
  assert (Hlong : (32 ≤ length (pw_bytes ++ k ++ or_empty u_entry))%nat)
    by (rewrite !length_app; lia).
  destruct (aes_cbc_no_padding_encrypt_Ok (Py.slice_to k 16) k1 (Py.slice k 16 32))
    as (e & -> & He).
  - unfold aes_key_ok. rewrite PyFacts.slice_to_nonneg by lia.
    apply bool_decide_eq_true_2. left. rewrite length_take. lia.
  - unfold Py.slice. rewrite length_take, length_drop. lia.
  - rewrite Hk1. replace (64 * _)%nat with ((4 * length (pw_bytes ++ k ++ or_empty u_entry)) * 16)%nat by lia.
    apply Nat.Div0.mod_mul.
  - simpl.
    pose proof (_bytes_mod_3_range (Py.slice_to e 16)) as Hmod.
    assert (Hhash : ∃ next_hash,
      Py.index [sha256; sha384; sha512] (_bytes_mod_3 (Py.slice_to e 16)) = Ok next_hash
      ∧ (32 ≤ length (next_hash e))%nat).
    { destruct (decide (_bytes_mod_3 (Py.slice_to e 16) = 0)) as [-> | H0].
      { exists sha256. split; [done |]. rewrite sha256_length. lia. }
      destruct (decide (_bytes_mod_3 (Py.slice_to e 16) = 1)) as [-> | H1].
      { exists sha384. split; [done |]. rewrite sha384_length. lia. }
      assert (_bytes_mod_3 (Py.slice_to e 16) = 2) as -> by lia.
      exists sha512. split; [done |]. rewrite sha512_length. lia. }
    destruct Hhash as (next_hash & -> & Hlen). simpl.
    assert (Hlast : is_Some (e !! Z.to_nat (Z.of_nat (length e) - 1))).
    { apply lookup_lt_is_Some. lia. }
    destruct Hlast as [b Hb].
    rewrite (PyFacts.index_nonneg e _ b) by (done || lia). simpl.
    by exists (next_hash e), b.
Qed.

(** The loop, unfolded once. *)
Lemma r6_loop_step pw_bytes u_entry k round_no last_byte_val :
  r6_loop pw_bytes u_entry k round_no last_byte_val
  = if decide (round_no < 64 ∨ byte_val last_byte_val > round_no - 32) then
      match r6_round pw_bytes u_entry k with
      | Ok (k', last_byte_val') =>
          r6_loop pw_bytes u_entry k' (round_no + 1) last_byte_val'
      | Raise e => Raise e
      end
    else Ok (Py.slice_to k 32).
Proof.
  simp r6_loop.
  destruct (decide (round_no < 64 ∨ byte_val last_byte_val > round_no - 32));
    simpl; [| done].
  destruct (r6_round pw_bytes u_entry k) as [[k' l']|e]; simpl; done.
Qed.

End r6_hash.

Section r6_termination.
Context `{Laws : PrimitiveLaws}.

(** From any round the loop leaves at the first state that fails its
    condition, which comes no later than round 287. *)
Lemma r6_loop_exits pw_bytes u_entry (m : nat) : ∀ k last_byte_val round_no,
  Z.to_nat (288 - round_no) = m → (32 ≤ length k)%nat →
  ∃ (j : nat) k' last',
    r6_rounds_from pw_bytes u_entry j (k, last_byte_val) = Ok (k', last')
    ∧ ¬ r6_continues (round_no + Z.of_nat j) last'
    ∧ (∀ (i : nat) ki li, (i < j)%nat →
         r6_rounds_from pw_bytes u_entry i (k, last_byte_val) = Ok (ki, li) →
         r6_continues (round_no + Z.of_nat i) li)
    ∧ round_no + Z.of_nat j ≤ Z.max round_no 287
    ∧ (32 ≤ length k')%nat
    ∧ r6_loop pw_bytes u_entry k round_no last_byte_val = Ok (Py.slice_to k' 32).
Proof.
  induction m as [m IH] using lt_wf_ind.
  intros k last_byte_val round_no Hm Hk.
  rewrite r6_loop_step.
  destruct (decide (round_no < 64 ∨ byte_val last_byte_val > round_no - 32))
    as [Hcond | Hexit].
  - pose proof (byte_val_range last_byte_val) as Hbyte.
    destruct (r6_round_Ok pw_bytes u_entry k Hk) as (k1 & l1 & Hround & Hk1).
    rewrite Hround.
    destruct (IH (Z.to_nat (288 - (round_no + 1))) ltac:(lia) k1 l1 (round_no + 1)
                eq_refl Hk1)
      as (j & k' & last' & Hrun & Hstop & Hmin & Hbound & Hlen & Hloop).
    exists (S j), k', last'.
    split; [simpl; rewrite Hround; exact Hrun |]. split.
    { replace (round_no + Z.of_nat (S j))
        with (round_no + 1 + Z.of_nat j) by lia. exact Hstop. }
    split.
    { intros [|i] ki li Hi Hstate.
      - simpl in Hstate. simplify_eq. unfold r6_continues.
        replace (round_no + Z.of_nat 0) with round_no by lia. exact Hcond.
      - simpl in Hstate. rewrite Hround in Hstate. simpl in Hstate.
        replace (round_no + Z.of_nat (S i)) with (round_no + 1 + Z.of_nat i) by lia.
        apply (Hmin i ki li); [lia | exact Hstate]. }
    split; [lia |]. split; [exact Hlen | exact Hloop].
  - exists 0%nat, k, last_byte_val.
    split; [done |]. split.
    { replace (round_no + Z.of_nat 0) with round_no by lia. exact Hexit. }
    split; [intros; lia |]. split; [lia |]. split; [exact Hk | done].
Qed.

(** With an 8-byte salt and an absent or 48-byte U entry the assertions of
    [_r6_hash_algo] hold, and it is its loop from the first digest. *)
Lemma _r6_hash_algo_loop pw_bytes current_salt u_entry :
  length current_salt = 8%nat →
  (u_entry = None ∨ ∃ u, u_entry = Some u ∧ length u = 48%nat) →
  _r6_hash_algo pw_bytes current_salt u_entry
  = r6_loop pw_bytes u_entry
      (sha256 (pw_bytes ++ current_salt ++ or_empty u_entry)) 0 x00.
Proof.
  intros Hsalt Hu.
  unfold _r6_hash_algo. rewrite bool_decide_eq_false_2 by (intros Hne; by apply Hne).
  assert (Hinit :
    match u_entry with
    | Some (b :: u') =>
        if bool_decide (length (b :: u') ≠ 48%nat) then Raise AssertionError
        else Ok (hash_update (hash_update pw_bytes current_salt) (b :: u'))
    | _ => Ok (hash_update pw_bytes current_salt)
    end = Ok (pw_bytes ++ current_salt ++ or_empty u_entry)).
  { unfold hash_update.
    destruct Hu as [-> | (u & -> & Hlen)]; simpl.
    - by rewrite app_nil_r.
    - destruct u as [|b u']; [discriminate |].
      rewrite bool_decide_eq_false_2 by (intros Hne; by apply Hne).
      by rewrite <- app_assoc. }
  cbv zeta. rewrite Hinit. reflexivity.
Qed.

(** [_r6_hash_algo] returns 32 bytes. *)
Lemma _r6_hash_algo_total pw_bytes current_salt u_entry :
  length current_salt = 8%nat →
  (u_entry = None ∨ ∃ u, u_entry = Some u ∧ length u = 48%nat) →
  ∃ h, _r6_hash_algo pw_bytes current_salt u_entry = Ok h ∧ length h = 32%nat.
Proof.
  intros Hsalt Hu. rewrite _r6_hash_algo_loop by done.
  set (k0 := sha256 _).
  assert (Hk0 : (32 ≤ length k0)%nat) by (unfold k0; rewrite sha256_length; lia).
  destruct (r6_loop_exits pw_bytes u_entry _ k0 x00 0 eq_refl Hk0)
    as (n & k & e_last & _ & _ & _ & _ & Hlen & ->).
  eexists. split; [reflexivity |].
  rewrite PyFacts.slice_to_nonneg by lia. rewrite length_take. lia.
Qed.

(** C5. For an 8-byte salt and an absent or 48-byte U entry,
    [_r6_hash_algo] returns: the loop stops after [n] rounds, where [n] is
    the first round count that is at least 64 with the last byte of [e] at
    most [n - 32]; this happens by round 287 at the latest, a byte being at
    most 255; the value returned is the first 32 bytes of the digest of
    that round. *)
Theorem r6_hash_terminates pw_bytes current_salt u_entry :
  length current_salt = 8%nat →
  (u_entry = None ∨ ∃ u, u_entry = Some u ∧ length u = 48%nat) →
  let k0 := sha256 (pw_bytes ++ current_salt ++ or_empty u_entry) in
  ∃ (n : nat) k e_last,
    64 ≤ Z.of_nat n ≤ 287
    ∧ r6_rounds_from pw_bytes u_entry n (k0, x00) = Ok (k, e_last)
    ∧ byte_val e_last ≤ Z.of_nat n - 32
    ∧ (∀ (i : nat) ki li, (i < n)%nat →
         r6_rounds_from pw_bytes u_entry i (k0, x00) = Ok (ki, li) →
         Z.of_nat i < 64 ∨ byte_val li > Z.of_nat i - 32)
    ∧ _r6_hash_algo pw_bytes current_salt u_entry = Ok (take 32 k).
Proof.
  intros Hsalt Hu k0.
  assert (Hk0 : (32 ≤ length k0)%nat) by (unfold k0; rewrite sha256_length; lia).
  destruct (r6_loop_exits pw_bytes u_entry _ k0 x00 0 eq_refl Hk0)
    as (n & k & e_last & Hrun & Hstop & Hmin & Hbound & _ & Hloop).
  exists n, k, e_last. unfold r6_continues in Hstop.
  split; [lia |]. split; [exact Hrun |]. split; [lia |]. split.
  { intros i ki li Hi Hstate. apply (Hmin i ki li Hi Hstate). }
  rewrite _r6_hash_algo_loop by done. fold k0. rewrite Hloop.
  by rewrite PyFacts.slice_to_nonneg by lia.
Qed.

End r6_termination.

(** *** AES crypt filters: the round trip *)

Section aes_roundtrip.
Context `{Laws : PrimitiveLaws}.

Lemma cbc_decrypt_encrypt_blocks n : ∀ key iv data,
  aes_key_ok key = true → length iv = 16%nat → (16 * n ≤ length data)%nat →
  cbc_decrypt_blocks n key iv (cbc_encrypt_blocks n key iv data) = take (16 * n) data.
Proof.
  induction n as [|n IH]; intros key iv data Hk Hiv Hdata; simpl cbc_encrypt_blocks.
  - simpl. by rewrite take_0.
  - set (c := aes_encrypt_block key (xor_bytes (take 16 data) iv)).
    assert (Hin : length (xor_bytes (take 16 data) iv) = 16%nat)
      by (rewrite length_xor_bytes, length_take; lia).
    assert (Hc : length c = 16%nat) by (by apply aes_encrypt_block_length).
    simpl cbc_decrypt_blocks.
    rewrite take_app_length' by done. rewrite drop_app_length' by done.
    unfold c at 1. rewrite aes_decrypt_encrypt_block by done.
    rewrite xor_bytes_involutive by (rewrite length_take; lia).
    rewrite IH; [| done | done | rewrite length_drop; lia].
    replace (16 * S n)%nat with (16 + 16 * n)%nat by lia.
    by rewrite take_take_drop.
Qed.

Lemma pkcs7_pad_length data :
  ∃ q, length (pkcs7_pad data) = (16 * q)%nat ∧ (length data < 16 * q)%nat.
Proof.
  unfold pkcs7_pad. rewrite length_app, length_replicate.
  pose proof (Nat.div_mod_eq (length data) 16) as Hdiv.
  pose proof (Nat.mod_upper_bound (length data) 16 ltac:(lia)) as Hmod.
  exists (S (length data / 16)). lia.
Qed.

Lemma pkcs7_unpad_pad data : pkcs7_unpad (pkcs7_pad data) = Ok data.
Proof.
  unfold pkcs7_unpad, pkcs7_pad.
  pose proof (Nat.mod_upper_bound (length data) 16 ltac:(lia)) as Hmod.
  set (n := (16 - length data mod 16)%nat) in *.
  assert (Hn : (1 ≤ n ≤ 16)%nat) by lia.
  set (b := byte_of_N (N.of_nat n)).
  assert (Hb : N.to_nat (Byte.to_N b) = n).
  { unfold b. rewrite to_N_byte_of_N by lia. apply Nat2N.id. }
  assert (Hlast : last (data ++ replicate n b) = Some b).
  { destruct n as [|n']; [lia |].
    rewrite replicate_S_end, app_assoc. apply last_snoc. }
  rewrite Hlast, Hb. rewrite length_app, length_replicate.
  replace (length data + n - n)%nat with (length data) by lia.
  rewrite drop_app_length, take_app_length.
  rewrite !bool_decide_eq_true_2 by (done || lia). done.
Qed.

(** C4. For an AES crypt filter, a key of the length of the filter and any
    plaintext, [decrypt] undoes [encrypt] whatever 16-byte IV was drawn, and
    the ciphertext is the IV followed by as many bytes as the PKCS#7-padded
    plaintext has. *)
Theorem aes_filter_roundtrip (keylen : Z) (self : AESCryptFilter)
    (token_bytes_16 key plaintext : bytes) :
  AESCryptFilterMixin_init keylen = Ok self →
  Z.of_nat (length key) = aes_keylen self →
  length token_bytes_16 = 16%nat →
  ∃ ciphertext,
    aes_filter_encrypt self token_bytes_16 key plaintext = Ok ciphertext
    ∧ aes_filter_decrypt self key ciphertext = Ok plaintext
    ∧ length ciphertext = (16 + length (pkcs7_pad plaintext))%nat
    ∧ take 16 ciphertext = token_bytes_16.
Proof.
  intros Hinit Hkeylen Hiv.
  assert (Hk : aes_key_ok key = true).
  { unfold AESCryptFilterMixin_init in Hinit.
    destruct (decide (keylen = 16 ∨ keylen = 32)) as [Hlen | Hlen].
    - rewrite bool_decide_eq_true_2 in Hinit by done. simplify_eq. simpl in Hkeylen.
      unfold aes_key_ok. apply bool_decide_eq_true_2. lia.
    - rewrite bool_decide_eq_false_2 in Hinit by done. discriminate. }
  destruct (pkcs7_pad_length plaintext) as (q & Hq & _).
  assert (Hmod : (length (pkcs7_pad plaintext) mod 16 = 0)%nat).
  { rewrite Hq, Nat.mul_comm. apply Nat.Div0.mod_mul. }
  assert (Hdiv : (length (pkcs7_pad plaintext) / 16 = q)%nat).
  { rewrite Hq, Nat.mul_comm. apply Nat.div_mul. lia. }
  destruct (aes_cbc_no_padding_encrypt_Ok key (pkcs7_pad plaintext) token_bytes_16
              Hk Hiv Hmod) as (e & Henc & He).
  assert (He' : e = cbc_encrypt_blocks q key token_bytes_16 (pkcs7_pad plaintext)).
  { unfold aes_cbc_no_padding_encrypt in Henc.
    destruct (cbc_arguments_ok _ _ _); [| discriminate].
    rewrite Hdiv in Henc. by simplify_eq. }
  exists (token_bytes_16 ++ e).
  split; [| split; [| split]].
  - unfold aes_filter_encrypt, aes_cbc_pkcs7_encrypt. by rewrite Henc.
  - unfold aes_filter_decrypt, aes_cbc_pkcs7_decrypt.
    rewrite PyFacts.slice_to_nonneg by lia. unfold Py.slice_from.
    change (Z.to_nat 16) with 16%nat.
    rewrite take_app_length' by done. rewrite drop_app_length' by done.
    unfold aes_cbc_no_padding_decrypt, cbc_arguments_ok.
    rewrite Hk, !bool_decide_eq_true_2 by (done || congruence). cbn [andb].
    rewrite He, Hdiv, He'.
    rewrite cbc_decrypt_encrypt_blocks by (done || lia).
    rewrite <- Hq, firstn_all. simpl. apply pkcs7_unpad_pad.
  - rewrite length_app. lia.
  - by rewrite take_app_length'.
Qed.

End aes_roundtrip.

(** *** The check of [/Perms] *)

Section r6_handler_facts.
Context `{P : Primitives}.

Lemma StandardSecurityHandler_init_r6_wf version legacy_keylen perm_flags odata udata
    oeseed ueseed encrypted_perms encrypt_metadata has_config self :
  StandardSecurityHandler_init version AES256 legacy_keylen perm_flags odata udata
    oeseed ueseed encrypted_perms encrypt_metadata has_config = Ok self →
  r6_handler_wf self.
Proof.
  unfold StandardSecurityHandler_init. intros Hinit.
  apply result_bind_Ok in Hinit as (kl & _ & Hinit).
  destruct (negb _); [discriminate |].
  destruct (decide (length udata = 48%nat ∧ length odata = 48%nat)) as [[Hu Ho] | Hno].
  2: { rewrite bool_decide_eq_false_2 in Hinit by done. discriminate. }
  rewrite bool_decide_eq_true_2 in Hinit by done. simpl in Hinit.
  destruct (length_is 32 oeseed) eqn:Hoe;
    [| rewrite andb_false_l, orb_true_r in Hinit; discriminate].
  destruct (length_is 32 ueseed) eqn:Hue;
    [| rewrite andb_false_r, orb_true_r in Hinit; discriminate].
  destruct (is_falsy oeseed || is_falsy ueseed || _); [discriminate |].
  destruct (length_is 16 encrypted_perms) eqn:Hep;
    [| simpl in Hinit; rewrite orb_true_r in Hinit; discriminate].
  destruct (is_falsy encrypted_perms || _); [discriminate |].
  simplify_eq. repeat split; done.
Qed.

Lemma _EXPECTED_PERMS_8_spec (b : byte) (flag : bool) :
  _EXPECTED_PERMS_8 b = Some flag ↔ b = (if flag then x54 else x46).
Proof.
  unfold _EXPECTED_PERMS_8.
  destruct b; vm_compute; destruct flag; split; congruence.
Qed.

Lemma bool_eq_bool_decide (b : bool) (Q : Prop) `{Decision Q} :
  (b = true ↔ Q) → b = bool_decide Q.
Proof.
  intros Hiff. destruct b; symmetry.
  - apply bool_decide_eq_true_2. by apply Hiff.
  - apply bool_decide_eq_false_2. intros HQ. apply Hiff in HQ. discriminate.
Qed.

Lemma perms_ok_spec self d :
  length d = 16%nat → perms_ok self d = Ok (perms_entry_valid self d).
Proof.
  intros Hlen.
  do 16 (destruct d as [|? d]; [discriminate |]).
  destruct d; [| discriminate]. clear Hlen.
  unfold perms_ok, perms_entry_valid, Py.slice, Py.slice_to, Py.index.
  change (Z.to_nat 4) with 4%nat. change (Z.to_nat 8) with 8%nat.
  cbn -[struct_unpack_i_le _EXPECTED_PERMS_8 bool_decide].
  destruct (struct_unpack_i_le [b; b0; b1; b2]) as [unpacked|e] eqn:Hunpack;
    [| discriminate Hunpack].
  change (Z.to_nat 8) with 8%nat.
  cbn -[_EXPECTED_PERMS_8 bool_decide]. f_equal.
  apply bool_eq_bool_decide.
  destruct (_EXPECTED_PERMS_8 b7) as [flag|] eqn:Hflag.
  - apply _EXPECTED_PERMS_8_spec in Hflag.
    rewrite !andb_true_iff, !bool_decide_eq_true. split.
    + intros [[Hadb Hperms] Hmeta]. simplify_eq. done.
    + intros (H9 & H10 & H11 & Hperms & H8). simplify_eq.
      repeat split; try done.
      destruct flag, (encrypt_metadata self); done.
  - split; [discriminate |]. intros (_ & _ & _ & _ & H8).
    assert (_EXPECTED_PERMS_8 b7 = Some (encrypt_metadata self)) as Hsome
      by (apply _EXPECTED_PERMS_8_spec; congruence).
    congruence.
Qed.

End r6_handler_facts.

Section r6_authentication.
Context `{Laws : PrimitiveLaws}.

Lemma _R6KeyEntry_from_bytes_Ok entry :
  length entry = 48%nat →
  ∃ e, _R6KeyEntry_from_bytes entry = Ok e
       ∧ length (validation_salt e) = 8%nat ∧ length (key_salt e) = 8%nat.
Proof.
  intros Hlen. unfold _R6KeyEntry_from_bytes.
  rewrite bool_decide_eq_true_2 by done. eexists. split; [reflexivity |].
  simpl. unfold Py.slice. rewrite !length_take, !length_drop. lia.
Qed.

Lemma length_is_Some n attr :
  length_is n attr = true → ∃ b, attr = Some b ∧ length b = n.
Proof.
  destruct attr as [b|]; simpl; [| discriminate].
  intros Hb. apply bool_decide_eq_true_1 in Hb. eauto.
Qed.

Lemma _r6_derive_file_key_Ok pw_bytes entry e_entry u_entry :
  length (key_salt entry) = 8%nat → length e_entry = 32%nat →
  (u_entry = None ∨ ∃ u, u_entry = Some u ∧ length u = 48%nat) →
  ∃ key, _r6_derive_file_key pw_bytes entry e_entry u_entry = Ok key
         ∧ length key = 32%nat.
Proof.
  intros Hsalt He Hu. unfold _r6_derive_file_key.
  destruct (_r6_hash_algo_total pw_bytes (key_salt entry) u_entry Hsalt Hu)
    as (interm_key & -> & Hlen).
  rewrite result_bind_ret. rewrite bool_decide_eq_true_2 by done.
  destruct (aes_cbc_no_padding_decrypt_Ok interm_key e_entry (replicate 16 x00))
    as (key & -> & Hkey).
  - unfold aes_key_ok. apply bool_decide_eq_true_2. lia.
  - apply length_replicate.
  - by rewrite He.
  - exists key. split; [done | congruence].
Qed.

Lemma decrypt_perms_Ok key encrypted_perms :
  length key = 32%nat → length encrypted_perms = 16%nat →
  ∃ d, aes_cbc_no_padding_decrypt key encrypted_perms (replicate 16 x00) = Ok d
       ∧ length d = 16%nat.
Proof.
  intros Hkey Hep.
  destruct (aes_cbc_no_padding_decrypt_Ok key encrypted_perms (replicate 16 x00))
    as (d & -> & Hd).
  - unfold aes_key_ok. apply bool_decide_eq_true_2. lia.
  - apply length_replicate.
  - by rewrite Hep.
  - exists d. split; [done | congruence].
Qed.

Lemma aes_cbc_no_padding_decrypt_blocks key data iv (n : nat) :
  aes_key_ok key = true → length iv = 16%nat → length data = (16 * n)%nat →
  aes_cbc_no_padding_decrypt key data iv = Ok (cbc_decrypt_blocks n key iv data).
Proof.
  intros Hk Hiv Hdata. unfold aes_cbc_no_padding_decrypt, cbc_arguments_ok.
  rewrite Hk, Hdata, !bool_decide_eq_true_2; [| by rewrite Nat.mul_comm, Nat.Div0.mod_mul | done].
  cbn [andb]. by rewrite Nat.mul_comm, Nat.div_mul by lia.
Qed.

(** The key that [_r6_derive_file_key] returns: the seed, decrypted with
    AES-CBC (no padding, an IV of zeros) under the hash of the password
    with the key salt. *)
Lemma _r6_derive_file_key_decrypts pw_bytes entry e_entry u_entry :
  length (key_salt entry) = 8%nat → length e_entry = 32%nat →
  (u_entry = None ∨ ∃ u, u_entry = Some u ∧ length u = 48%nat) →
  ∃ interm_key,
    _r6_hash_algo pw_bytes (key_salt entry) u_entry = Ok interm_key
    ∧ length interm_key = 32%nat
    ∧ _r6_derive_file_key pw_bytes entry e_entry u_entry
      = Ok (cbc_decrypt_blocks 2 interm_key (replicate 16 x00) e_entry).
Proof.
  intros Hsalt He Hu. unfold _r6_derive_file_key.
  destruct (_r6_hash_algo_total pw_bytes (key_salt entry) u_entry Hsalt Hu)
    as (interm_key & Hinterm & Hlen).
  exists interm_key. split; [done |]. split; [done |].
  rewrite Hinterm, result_bind_ret. rewrite bool_decide_eq_true_2 by done.
  apply aes_cbc_no_padding_decrypt_blocks; [| apply length_replicate | by rewrite He].
  unfold aes_key_ok. apply bool_decide_eq_true_2. lia.
Qed.

(** C3. On a revision 6 handler, with [/O] and [/U] of 48 bytes, [/OE] and
    [/UE] of 32 and [/Perms] of 16 as [__init__] requires, authentication
    first hashes the password with the validation salt of [/O] (its bytes
    32 to 39) and the whole [/U], and compares with the first 32 bytes of
    [/O]; on a match the result is [OWNER] and the key is [/OE] decrypted
    (AES-CBC, no padding, an IV of zeros) under the hash of the password
    with the key salt of [/O] (its bytes 40 to 47) and the whole [/U].
    Otherwise it does the same with [/U] and [/UE], without the [/U] entry in
    the hashes, and on a match the result is [USER]; otherwise it returns
    [FAILED] and no key.  After a match [/Perms] is decrypted with the key
    and an IV of zeros: the result and the key are returned if the plaintext
    is valid, and the tamper error is raised if it is not. *)
Theorem authenticate_r6_spec self password pw_bytes :
  r6_handler_wf self → _r6_normalise_pw password = Ok pw_bytes →
  ∃ oe ue ep owner_hash user_hash owner_interm user_interm,
    let o := mkR6KeyEntry (take 32 (odata self)) (take 8 (drop 32 (odata self)))
               (take 8 (drop 40 (odata self))) in
    let u := mkR6KeyEntry (take 32 (udata self)) (take 8 (drop 32 (udata self)))
               (take 8 (drop 40 (udata self))) in
    let zeros := replicate 16 x00 in
    let owner_key := cbc_decrypt_blocks 2 owner_interm zeros oe in
    let user_key := cbc_decrypt_blocks 2 user_interm zeros ue in
    let d_owner := cbc_decrypt_blocks 1 owner_key zeros ep in
    let d_user := cbc_decrypt_blocks 1 user_key zeros ep in
    _R6KeyEntry_from_bytes (odata self) = Ok o
    ∧ _R6KeyEntry_from_bytes (udata self) = Ok u
    ∧ oeseed self = Some oe ∧ ueseed self = Some ue ∧ encrypted_perms self = Some ep
    ∧ _r6_hash_algo pw_bytes (validation_salt o) (Some (udata self)) = Ok owner_hash
    ∧ _r6_hash_algo pw_bytes (validation_salt u) None = Ok user_hash
    ∧ _r6_hash_algo pw_bytes (key_salt o) (Some (udata self)) = Ok owner_interm
    ∧ _r6_hash_algo pw_bytes (key_salt u) None = Ok user_interm
    ∧ _r6_derive_file_key pw_bytes o oe (Some (udata self)) = Ok owner_key
    ∧ _r6_derive_file_key pw_bytes u ue None = Ok user_key
    ∧ aes_cbc_no_padding_decrypt owner_key ep zeros = Ok d_owner
    ∧ aes_cbc_no_padding_decrypt user_key ep zeros = Ok d_user
    ∧ _authenticate_r6 self password
      = if decide (owner_hash = hash_value o) then
          if perms_entry_valid self d_owner then Ok (OWNER, Some owner_key)
          else Raise (PdfError PermsTampered)
        else if decide (user_hash = hash_value u) then
          if perms_entry_valid self d_user then Ok (USER, Some user_key)
          else Raise (PdfError PermsTampered)
        else Ok (FAILED, None).
Proof.
  intros (Ho & Hu & Hoe & Hue & Hep) Hnorm.
  set (o := mkR6KeyEntry (take 32 (odata self)) (take 8 (drop 32 (odata self)))
              (take 8 (drop 40 (odata self)))).
  set (u := mkR6KeyEntry (take 32 (udata self)) (take 8 (drop 32 (udata self)))
              (take 8 (drop 40 (udata self)))).
  assert (Hosplit : _R6KeyEntry_from_bytes (odata self) = Ok o).
  { unfold _R6KeyEntry_from_bytes. by rewrite bool_decide_eq_true_2 by done. }
  assert (Husplit : _R6KeyEntry_from_bytes (udata self) = Ok u).
  { unfold _R6KeyEntry_from_bytes. by rewrite bool_decide_eq_true_2 by done. }
  assert (Hovs : length (validation_salt o) = 8%nat)
    by (simpl; rewrite length_take, length_drop; lia).
  assert (Hoks : length (key_salt o) = 8%nat)
    by (simpl; rewrite length_take, length_drop; lia).
  assert (Huvs : length (validation_salt u) = 8%nat)
    by (simpl; rewrite length_take, length_drop; lia).
  assert (Huks : length (key_salt u) = 8%nat)
    by (simpl; rewrite length_take, length_drop; lia).
  destruct (length_is_Some _ _ Hoe) as (oe & Hoe' & Hoelen).
  destruct (length_is_Some _ _ Hue) as (ue & Hue' & Huelen).
  destruct (length_is_Some _ _ Hep) as (ep & Hep' & Heplen).
  assert (Hwith : Some (udata self) = None
                  ∨ ∃ u0, Some (udata self) = Some u0 ∧ length u0 = 48%nat)
    by (right; eauto).
  assert (Hwithout : (None : option bytes) = None
                     ∨ ∃ u0 : bytes, None = Some u0 ∧ length u0 = 48%nat)
    by (by left).
  destruct (_r6_hash_algo_total pw_bytes (validation_salt o) _ Hovs Hwith)
    as (owner_hash & Hoh & _).
  destruct (_r6_hash_algo_total pw_bytes (validation_salt u) _ Huvs Hwithout)
    as (user_hash & Huh & _).
  destruct (_r6_derive_file_key_decrypts pw_bytes o oe _ Hoks Hoelen Hwith)
    as (owner_interm & Hoi & Hoilen & Hok).
  destruct (_r6_derive_file_key_decrypts pw_bytes u ue _ Huks Huelen Hwithout)
    as (user_interm & Hui & Huilen & Huk).
  set (zeros := replicate 16 x00) in *.
  set (owner_key := cbc_decrypt_blocks 2 owner_interm zeros oe) in *.
  set (user_key := cbc_decrypt_blocks 2 user_interm zeros ue) in *.
  assert (Hoklen : length owner_key = 32%nat).
  { unfold owner_key. rewrite length_cbc_decrypt_blocks; [done | | apply length_replicate | lia].
    unfold aes_key_ok. apply bool_decide_eq_true_2. lia. }
  assert (Huklen : length user_key = 32%nat).
  { unfold user_key. rewrite length_cbc_decrypt_blocks; [done | | apply length_replicate | lia].
    unfold aes_key_ok. apply bool_decide_eq_true_2. lia. }
  set (d_owner := cbc_decrypt_blocks 1 owner_key zeros ep).
  set (d_user := cbc_decrypt_blocks 1 user_key zeros ep).
  assert (Hdo : aes_cbc_no_padding_decrypt owner_key ep zeros = Ok d_owner).
  { apply aes_cbc_no_padding_decrypt_blocks; [| apply length_replicate | by rewrite Heplen].
    unfold aes_key_ok. apply bool_decide_eq_true_2. lia. }
  assert (Hdu : aes_cbc_no_padding_decrypt user_key ep zeros = Ok d_user).
  { apply aes_cbc_no_padding_decrypt_blocks; [| apply length_replicate | by rewrite Heplen].
    unfold aes_key_ok. apply bool_decide_eq_true_2. lia. }
  assert (Hdolen : length d_owner = 16%nat).
  { unfold d_owner. rewrite length_cbc_decrypt_blocks; [done | | apply length_replicate | lia].
    unfold aes_key_ok. apply bool_decide_eq_true_2. lia. }
  assert (Hdulen : length d_user = 16%nat).
  { unfold d_user. rewrite length_cbc_decrypt_blocks; [done | | apply length_replicate | lia].
    unfold aes_key_ok. apply bool_decide_eq_true_2. lia. }
  exists oe, ue, ep, owner_hash, user_hash, owner_interm, user_interm.
  cbv zeta. fold o u zeros owner_key user_key d_owner d_user.
  repeat (split; [done |]).
  unfold _authenticate_r6, _r6_password_authenticate.
  rewrite Hnorm, !result_bind_ret, Hosplit, !result_bind_ret, Husplit,
    !result_bind_ret, Hoh, !result_bind_ret.
  destruct (decide (owner_hash = hash_value o)) as [Hmatch | Hmiss].
  - rewrite bool_decide_eq_true_2 by done.
    rewrite Hoe'. cbn [required]. rewrite !result_bind_ret, Hok, !result_bind_ret.
    rewrite Hep'. cbn [required]. fold zeros. rewrite !result_bind_ret, Hdo, !result_bind_ret.
    rewrite (perms_ok_spec self d_owner Hdolen), !result_bind_ret.
    by destruct (perms_entry_valid self d_owner).
  - rewrite bool_decide_eq_false_2 by done.
    rewrite Huh, !result_bind_ret.
    destruct (decide (user_hash = hash_value u)) as [Hmatch | Hmiss'].
    + rewrite bool_decide_eq_true_2 by done.
      rewrite Hue'. cbn [required]. rewrite !result_bind_ret, Huk, !result_bind_ret.
      rewrite Hep'. cbn [required]. fold zeros.
      rewrite !result_bind_ret, Hdu, !result_bind_ret.
      rewrite (perms_ok_spec self d_user Hdulen), !result_bind_ret.
      by destruct (perms_entry_valid self d_user).
    + rewrite bool_decide_eq_false_2 by done. reflexivity.
Qed.

End r6_authentication.

(** *** The legacy file key *)

Lemma repeat_times_iter {A} (n : nat) (step : A → A) (x : A) :
  repeat_times n step x = Nat.iter n step x.
Proof.
  unfold repeat_times. generalize 0%nat as a. revert x.
  induction n as [|n IH]; intros x a; [done |].
  rewrite Nat.iter_succ_r. simpl. apply IH.
Qed.

Lemma byte_of_Z_mod_2_32 (p a b : Z) :
  0 < a → a * (b * 256) = 2 ^ 32 →
  byte_of_Z (p mod 2 ^ 32 / a) = byte_of_Z (p / a).
Proof.
  intros Ha Hab. unfold byte_of_Z. do 2 f_equal.
  rewrite (Z.mod_eq p (2 ^ 32)) by lia.
  rewrite <- Hab.
  replace (p - a * (b * 256) * (p / (a * (b * 256))))
    with (p + - (b * 256 * (p / (a * (b * 256)))) * a) by lia.
  rewrite Z.div_add by lia.
  replace (p / a + - (b * 256 * (p / (a * (b * 256)))))
    with (p / a + - (b * (p / (a * (b * 256)))) * 256) by lia.
  apply Z.mod_add. lia.
Qed.

Lemma struct_pack_i_le_spec (p : Z) :
  - 2 ^ 31 ≤ p < 2 ^ 31 → struct_pack_i_le p = Ok (le32_signed p).
Proof.
  intros Hp. unfold struct_pack_i_le, le32_signed.
  rewrite bool_decide_eq_true_2 by done. cbv zeta. do 2 f_equal.
  - pose proof (byte_of_Z_mod_2_32 p 1 (2 ^ 24) ltac:(lia) eq_refl) as H0.
    by rewrite !Z.div_1_r in H0.
  - f_equal; [apply (byte_of_Z_mod_2_32 p (2 ^ 8) (2 ^ 16)); [lia | reflexivity] |].
    f_equal; [apply (byte_of_Z_mod_2_32 p (2 ^ 16) (2 ^ 8)); [lia | reflexivity] |].
    f_equal. apply (byte_of_Z_mod_2_32 p (2 ^ 24) 1); [lia | reflexivity].
Qed.

(** C2. For a password of 32 bytes, a key length that is not negative and
    permissions in the signed 32-bit range, [_derive_legacy_file_key]
    returns the key that the specification describes, for every revision
    (2, 3 and 4 included). *)
Theorem derive_legacy_file_key_spec `{Primitives} (password : bytes) (rev keylen : Z)
    (owner_entry : bytes) (p_entry : Z) (id1_entry : bytes) (metadata_encrypt : bool) :
  length password = 32%nat → 0 ≤ keylen → - 2 ^ 31 ≤ p_entry < 2 ^ 31 →
  _derive_legacy_file_key password rev keylen owner_entry p_entry id1_entry
    metadata_encrypt
  = Ok (legacy_file_key_spec password rev (Z.to_nat keylen) owner_entry p_entry
          id1_entry metadata_encrypt).
Proof.
  intros Hlen Hkeylen Hp.
  unfold _derive_legacy_file_key, legacy_file_key_spec, hash_update.
  rewrite struct_pack_i_le_spec by done. rewrite result_bind_ret.
  rewrite (PyFacts.slice_to_nonneg (password ++ _)) by lia.
  change (Z.to_nat 32) with 32%nat.
  rewrite take_app_length' by done.
  rewrite repeat_times_iter.
  rewrite !PyFacts.slice_to_nonneg by done.
  assert (Hrev4 : bool_decide (rev >= 4) = bool_decide (4 ≤ rev))
    by (apply bool_decide_ext; lia).
  assert (Hrev3 : bool_decide (rev >= 3) = bool_decide (3 ≤ rev))
    by (apply bool_decide_ext; lia).
  rewrite Hrev4, Hrev3.
  assert (Hiter : ∀ (n : nat) (x : bytes),
            Nat.iter n (λ md5_hash, md5 (Py.slice_to md5_hash keylen)) x
            = Nat.iter n (λ d, md5 (take (Z.to_nat keylen) d)) x).
  { induction n as [|n IH]; intros x; [done |]. simpl. rewrite IH.
    by rewrite PyFacts.slice_to_nonneg. }
  rewrite Hiter. f_equal.
  destruct (bool_decide (4 ≤ rev) && negb metadata_encrypt);
    by rewrite <- ?app_assoc, ?app_nil_r.
Qed.

(** *** The properties on the sample handlers *)

Section witnesses.
#[local] Existing Instance toy_primitives.

Lemma auth_failed_flag_never_cleared_witness :
  authenticate demo_handler (CredBytes demo_wrong_pw) (Some demo_id1)
  = (Ok FAILED, demo_after_failure)
  ∧ authenticate demo_after_failure (CredBytes demo_user_pw) (Some demo_id1)
    = (Ok USER, demo_after_success)
  ∧ (∃ key, _shared_key demo_after_success = Some key
       ∧ get_file_encryption_key demo_after_success = Ok key)
  ∧ shared_key (Some demo_after_success) (mkCryptFilter None 0)
    = (Raise (PdfReadError AuthenticationFailed), mkCryptFilter None 0).
Proof.
  assert (Hfail : authenticate demo_handler (CredBytes demo_wrong_pw) (Some demo_id1)
                  = (Ok FAILED, demo_after_failure)) by (vm_compute; reflexivity).
  assert (Hok : authenticate demo_after_failure (CredBytes demo_user_pw) (Some demo_id1)
                = (Ok USER, demo_after_success)) by (vm_compute; reflexivity).
  split; [exact Hfail |]. split; [exact Hok |].
  destruct (@auth_failed_flag_never_cleared toy_primitives) as (Hsets & _ & Hstays).
  apply (Hstays demo_after_failure (CredBytes demo_user_pw) (Some demo_id1) USER).
  - exact (Hsets _ _ _ _ Hfail).
  - exact Hok.
  - discriminate.
  - reflexivity.
Defined.

Lemma shared_key_lazy_cache_witness :
  shared_key (Some demo_authenticated) (mkCryptFilter None 0)
  = (Ok demo_file_key, mkCryptFilter (Some demo_file_key) 1)
  ∧ shared_key (Some demo_after_failure) (mkCryptFilter (Some demo_file_key) 1)
    = (Ok demo_file_key, mkCryptFilter (Some demo_file_key) 1)
  ∧ shared_key (Some demo_after_failure) (mkCryptFilter None 0)
    = (Raise (PdfReadError AuthenticationFailed), mkCryptFilter None 0).
Proof.
  split; [| split].
  - destruct (shared_key_lazy_cache (Some demo_authenticated) (mkCryptFilter None 0))
      as (_ & _ & Hderive).
    destruct (Hderive demo_file_key) as (self' & Haccess & Hkey & Hcount & _);
      [reflexivity | vm_compute; reflexivity | vm_compute; reflexivity |].
    rewrite Haccess. f_equal. destruct self' as [k n]. simpl in *. congruence.
  - destruct (shared_key_lazy_cache (Some demo_after_failure)
                (mkCryptFilter (Some demo_file_key) 1)) as (Hcached & _).
    apply Hcached. reflexivity.
  - destruct (shared_key_lazy_cache (Some demo_after_failure) (mkCryptFilter None 0))
      as (_ & Hfailed & _).
    apply Hfailed; [reflexivity | vm_compute; reflexivity].
Defined.

Lemma r6_hash_terminates_witness :
  let pw_bytes := [x70; x61; x73; x73] in
  let salt := [x01; x02; x03; x04; x05; x06; x07; x08] in
  let k0 := sha256 (pw_bytes ++ salt ++ or_empty None) in
  ∃ (n : nat) k e_last,
    64 ≤ Z.of_nat n ≤ 287
    ∧ r6_rounds_from pw_bytes None n (k0, x00) = Ok (k, e_last)
    ∧ byte_val e_last ≤ Z.of_nat n - 32
    ∧ (∀ (i : nat) ki li, (i < n)%nat →
         r6_rounds_from pw_bytes None i (k0, x00) = Ok (ki, li) →
         Z.of_nat i < 64 ∨ byte_val li > Z.of_nat i - 32)
    ∧ _r6_hash_algo pw_bytes salt None = Ok (take 32 k).
Proof.
  exact (r6_hash_terminates (Laws := toy_primitive_laws)
           [x70; x61; x73; x73] [x01; x02; x03; x04; x05; x06; x07; x08] None
           eq_refl (or_introl eq_refl)).
Defined.

Lemma aes_filter_roundtrip_witness :
  let self := mkAESCryptFilter 32 CFM_AESV3 in
  let key := replicate 32 x2a in
  let iv := replicate 16 x07 in
  let plaintext := replicate 100 x41 in
  ∃ ciphertext,
    aes_filter_encrypt self iv key plaintext = Ok ciphertext
    ∧ aes_filter_decrypt self key ciphertext = Ok plaintext
    ∧ length ciphertext = (16 + length (pkcs7_pad plaintext))%nat
    ∧ take 16 ciphertext = iv.
Proof.
  exact (aes_filter_roundtrip (Laws := toy_primitive_laws) 32
           (mkAESCryptFilter 32 CFM_AESV3) (replicate 16 x07) (replicate 32 x2a)
           (replicate 100 x41) eq_refl eq_refl eq_refl).
Defined.

Lemma demo_r6_handler_wf : r6_handler_wf demo_r6_handler ∧ r6_handler_wf demo_r6_tampered.
Proof. vm_compute. repeat split. Qed.

(** On that handler the user password gives [USER], the owner password
    [OWNER], another password [FAILED]; with [/Perms] changed the user
    password raises the tamper error. *)
Example demo_r6_authentication :
  _authenticate_r6 demo_r6_handler (CredBytes demo_pass)
  = Ok (USER, Some (replicate 32 x5a))
  ∧ _authenticate_r6 demo_r6_handler (CredBytes demo_owner)
    = Ok (OWNER, Some (replicate 32 x5a))
  ∧ _authenticate_r6 demo_r6_handler (CredBytes [x6e; x6f]) = Ok (FAILED, None)
  ∧ _authenticate_r6 demo_r6_tampered (CredBytes demo_pass)
    = Raise (PdfError PermsTampered).
Proof. split; [| split; [| split]]; vm_compute; reflexivity. Qed.

Lemma authenticate_r6_spec_witness :
  let self := demo_r6_tampered in
  let pw_bytes := demo_pass in
  ∃ oe ue ep owner_hash user_hash owner_interm user_interm,
    let o := mkR6KeyEntry (take 32 (odata self)) (take 8 (drop 32 (odata self)))
               (take 8 (drop 40 (odata self))) in
    let u := mkR6KeyEntry (take 32 (udata self)) (take 8 (drop 32 (udata self)))
               (take 8 (drop 40 (udata self))) in
    let zeros := replicate 16 x00 in
    let owner_key := cbc_decrypt_blocks 2 owner_interm zeros oe in
    let user_key := cbc_decrypt_blocks 2 user_interm zeros ue in
    let d_owner := cbc_decrypt_blocks 1 owner_key zeros ep in
    let d_user := cbc_decrypt_blocks 1 user_key zeros ep in
    _R6KeyEntry_from_bytes (odata self) = Ok o
    ∧ _R6KeyEntry_from_bytes (udata self) = Ok u
    ∧ oeseed self = Some oe ∧ ueseed self = Some ue ∧ encrypted_perms self = Some ep
    ∧ _r6_hash_algo pw_bytes (validation_salt o) (Some (udata self)) = Ok owner_hash
    ∧ _r6_hash_algo pw_bytes (validation_salt u) None = Ok user_hash
    ∧ _r6_hash_algo pw_bytes (key_salt o) (Some (udata self)) = Ok owner_interm
    ∧ _r6_hash_algo pw_bytes (key_salt u) None = Ok user_interm
    ∧ _r6_derive_file_key pw_bytes o oe (Some (udata self)) = Ok owner_key
    ∧ _r6_derive_file_key pw_bytes u ue None = Ok user_key
    ∧ aes_cbc_no_padding_decrypt owner_key ep zeros = Ok d_owner
    ∧ aes_cbc_no_padding_decrypt user_key ep zeros = Ok d_user
    ∧ _authenticate_r6 self (CredBytes demo_pass)
      = if decide (owner_hash = hash_value o) then
          if perms_entry_valid self d_owner then Ok (OWNER, Some owner_key)
          else Raise (PdfError PermsTampered)
        else if decide (user_hash = hash_value u) then
          if perms_entry_valid self d_user then Ok (USER, Some user_key)
          else Raise (PdfError PermsTampered)
        else Ok (FAILED, None).
Proof.
  exact (authenticate_r6_spec (Laws := toy_primitive_laws) demo_r6_tampered
           (CredBytes demo_pass) demo_pass (proj2 demo_r6_handler_wf) eq_refl).
Defined.

(** The first scenario of the specification: revision 3, a key of 16
    bytes, permissions -44, on the stand-in primitives. *)
Lemma derive_legacy_file_key_spec_witness :
  let password := Py.slice_to ([x61; x62; x63; x64] ++ _encryption_padding) 32 in
  let id1 := [x00; x11; x22; x33; x44; x55; x66; x77;
              x88; x99; xaa; xbb; xcc; xdd; xee; xff] in
  _derive_legacy_file_key password 3 16 (replicate 32 x01) (-44) id1 true
  = Ok (legacy_file_key_spec password 3 16 (replicate 32 x01) (-44) id1 true).
Proof.
  apply (derive_legacy_file_key_spec (H := toy_primitives)
           (Py.slice_to ([x61; x62; x63; x64] ++ _encryption_padding) 32) 3 16
           (replicate 32 x01) (-44)
           [x00; x11; x22; x33; x44; x55; x66; x77;
            x88; x99; xaa; xbb; xcc; xdd; xee; xff] true).
  - reflexivity.
  - lia.
  - lia.
Defined.

End witnesses.

(** *** The residue modulo 3 *)

Lemma pow_256_mod_3 (n : nat) : 256 ^ Z.of_nat n mod 3 = 1.
Proof.
  induction n as [|n IH]; [done |].
  rewrite Nat2Z.inj_succ, Z.pow_succ_r by lia.
  rewrite Z.mul_mod, IH by lia. done.
Qed.

(** X17. [_bytes_mod_3] is the residue modulo 3 of the big-endian unsigned
    integer that the bytes denote, as the algorithm asks for: summing the
    residues of the bytes is enough, 256 being 1 modulo 3. *)
Theorem bytes_mod_3_is_big_endian_residue (input_bytes : bytes) :
  _bytes_mod_3 input_bytes = Reader.be_unsigned input_bytes mod 3.
Proof.
  unfold _bytes_mod_3.
  induction input_bytes as [|b d IH]; [done |].
  rewrite ReaderFacts.be_unsigned_cons. cbn [fold_right].
  rewrite <- Z.add_mod_idemp_r, IH, Z.add_mod_idemp_r by lia.
  rewrite (Z.add_mod (byte_val b * _)), Z.mul_mod, pow_256_mod_3 by lia.
  rewrite Z.mul_1_r, Z.mod_mod, <- Z.add_mod by lia.
  by rewrite Z.add_mod_idemp_l by lia.
Qed.

(** *** The keys of objects *)

Lemma struct_pack_i_le_out_of_range (p : Z) :
  ¬ (- 2 ^ 31 ≤ p < 2 ^ 31) → struct_pack_i_le p = Raise StructError.
Proof. intros Hp. unfold struct_pack_i_le. by rewrite bool_decide_eq_false_2. Qed.

(** A digit of [p] in base [b] below the position [a * b * k] only depends
    on the residue of [p] modulo [a * b * k]. *)
Lemma digit_of_residue (p a b k : Z) :
  0 < a → 0 < b → 0 < k → (p mod (a * b * k) / a) mod b = (p / a) mod b.
Proof.
  intros Ha Hb Hk.
  rewrite (Z.div_mod p (a * b * k)) at 2 by nia.
  replace (a * b * k * (p / (a * b * k)) + p mod (a * b * k))
    with (p mod (a * b * k) + (k * (p / (a * b * k)) * b) * a) by lia.
  rewrite Z.div_add by lia. by rewrite Z.mod_add by lia.
Qed.

Lemma byte_of_Z_digit (p p' a k : Z) :
  0 < a → 0 < k → p mod (a * 256 * k) = p' mod (a * 256 * k) →
  byte_of_Z (p / a) = byte_of_Z (p' / a).
Proof.
  intros Ha Hk Heq. unfold byte_of_Z. do 2 f_equal.
  rewrite <- (digit_of_residue p a 256 k), <- (digit_of_residue p' a 256 k) by lia.
  by rewrite Heq.
Qed.

Lemma le32_signed_low_3 (p p' : Z) :
  p mod 2 ^ 24 = p' mod 2 ^ 24 → take 3 (le32_signed p) = take 3 (le32_signed p').
Proof.
  intros Heq. unfold le32_signed. simpl. f_equal; [| f_equal; [| f_equal]].
  - rewrite <- (Z.div_1_r p), <- (Z.div_1_r p').
    by apply (byte_of_Z_digit p p' 1 (2 ^ 16)).
  - by apply (byte_of_Z_digit p p' (2 ^ 8) (2 ^ 8)).
  - by apply (byte_of_Z_digit p p' (2 ^ 16) 1).
Qed.

Lemma le32_signed_low_2 (p p' : Z) :
  p mod 2 ^ 16 = p' mod 2 ^ 16 → take 2 (le32_signed p) = take 2 (le32_signed p').
Proof.
  intros Heq. unfold le32_signed. simpl. f_equal; [| f_equal].
  - rewrite <- (Z.div_1_r p), <- (Z.div_1_r p').
    by apply (byte_of_Z_digit p p' 1 (2 ^ 8)).
  - by apply (byte_of_Z_digit p p' (2 ^ 8) 1).
Qed.

(** The key of an object whose number and generation [struct.pack] takes. *)
Lemma legacy_derive_object_key_Ok `{Primitives} shared_key idnum generation use_aes :
  - 2 ^ 31 ≤ idnum < 2 ^ 31 → - 2 ^ 31 ≤ generation < 2 ^ 31 →
  legacy_derive_object_key shared_key idnum generation use_aes
  = Ok (take (Z.to_nat (Z.min 16 (Z.of_nat (length shared_key) + 5)))
          (md5 ((shared_key ++ take 3 (le32_signed idnum) ++ take 2 (le32_signed generation))
                ++ (if use_aes then [x73; x41; x6c; x54] else [])))).
Proof.
  intros Hid Hgen. unfold legacy_derive_object_key.
  rewrite !struct_pack_i_le_spec by done. rewrite !result_bind_ret.
  rewrite !(slice_to_nonneg (le32_signed _)) by lia.
  change (Z.to_nat 3) with 3%nat. change (Z.to_nat 2) with 2%nat.
  rewrite bool_decide_eq_true_2 by (rewrite !length_app; simpl; lia).
  cbn [negb]. rewrite slice_to_nonneg by lia.
  destruct use_aes; [done |]. by rewrite app_nil_r.
Qed.

(** X18. [legacy_derive_object_key] packs the object number and the
    generation as signed 32-bit integers: outside that range it raises
    [struct.error]; inside, the key has [min(16, n + 5)] bytes for a file
    key of [n] bytes. *)
Theorem legacy_object_key_range_and_length `{Laws : PrimitiveLaws}
    (shared_key : bytes) (idnum generation : Z) (use_aes : bool) :
  (- 2 ^ 31 ≤ idnum < 2 ^ 31 ∧ - 2 ^ 31 ≤ generation < 2 ^ 31 →
     ∃ key, legacy_derive_object_key shared_key idnum generation use_aes = Ok key
       ∧ Z.of_nat (length key) = Z.min 16 (Z.of_nat (length shared_key) + 5))
  ∧ (¬ (- 2 ^ 31 ≤ idnum < 2 ^ 31 ∧ - 2 ^ 31 ≤ generation < 2 ^ 31) →
     legacy_derive_object_key shared_key idnum generation use_aes = Raise StructError).
Proof.
  split.
  - intros [Hid Hgen]. rewrite legacy_derive_object_key_Ok by done.
    eexists. split; [reflexivity |]. rewrite length_take, md5_length. lia.
  - intros Hout. unfold legacy_derive_object_key.
    destruct (decide (- 2 ^ 31 ≤ idnum < 2 ^ 31)) as [Hid | Hid].
    + rewrite (struct_pack_i_le_spec idnum) by done. rewrite result_bind_ret.
      rewrite (struct_pack_i_le_out_of_range generation); [done |].
      intros Hgen. by apply Hout.
    + by rewrite (struct_pack_i_le_out_of_range idnum) by done.
Qed.

(** X19. Only the three low-order bytes of the object number and the two
    low-order bytes of the generation enter the key: objects whose numbers
    agree modulo [2 ^ 24] and whose generations agree modulo [2 ^ 16] get
    the same key. *)
Theorem legacy_object_key_low_bytes `{Primitives}
    (shared_key : bytes) (idnum idnum' generation generation' : Z) (use_aes : bool) :
  - 2 ^ 31 ≤ idnum < 2 ^ 31 → - 2 ^ 31 ≤ idnum' < 2 ^ 31 →
  - 2 ^ 31 ≤ generation < 2 ^ 31 → - 2 ^ 31 ≤ generation' < 2 ^ 31 →
  idnum mod 2 ^ 24 = idnum' mod 2 ^ 24 →
  generation mod 2 ^ 16 = generation' mod 2 ^ 16 →
  legacy_derive_object_key shared_key idnum generation use_aes
  = legacy_derive_object_key shared_key idnum' generation' use_aes.
Proof.
  intros Hid Hid' Hgen Hgen' Heq_id Heq_gen.
  rewrite !legacy_derive_object_key_Ok by done.
  by rewrite (le32_signed_low_3 _ _ Heq_id), (le32_signed_low_2 _ _ Heq_gen).
Qed.

(** *** RC4 and the [/O] entry *)

Lemma byte_xor_0_r (b : byte) : byte_xor b x00 = b.
Proof. unfold byte_xor. change (Byte.to_N x00) with 0%N. rewrite N.lxor_0_r. apply byte_of_N_to_N. Qed.

Lemma xor_key_0 (key : bytes) : xor_key key 0 = key.
Proof.
  unfold xor_key. change (byte_of_Z 0) with x00.
  induction key as [|b key IH]; simpl; [done |]. by rewrite byte_xor_0_r, IH.
Qed.

Lemma length_xor_key (key : bytes) (i : Z) : length (xor_key key i) = length key.
Proof. apply length_map. Qed.

Lemma for_each_app {A S} (body : A → S → result S) (l1 l2 : list A) (s : S) :
  Reader.for_each body (l1 ++ l2) s
  = Reader.for_each body l1 s ≫= Reader.for_each body l2.
Proof.
  revert s. induction l1 as [|x l1 IH]; intros s; simpl; [done |].
  destruct (body x s) as [s'|e]; simpl; [apply IH | done].
Qed.

Section rc4_facts.
Context `{P : Primitives} {RC4 : RC4Laws P}.

Lemma symmetric_rc4_encrypt_Ok key data out :
  symmetric_rc4_encrypt key data = Ok out →
  (5 ≤ length key ≤ 16)%nat ∧ out = rc4_encrypt key data ∧ length out = length data.
Proof.
  unfold symmetric_rc4_encrypt. case_bool_decide as Hk; [| discriminate].
  intros [= <-]. split; [done |]. split; [done |]. by apply rc4_encrypt_length.
Qed.

Lemma symmetric_rc4_encrypt_key_ok key data :
  (5 ≤ length key ≤ 16)%nat → symmetric_rc4_encrypt key data = Ok (rc4_encrypt key data).
Proof. intros Hk. unfold symmetric_rc4_encrypt. by rewrite bool_decide_eq_true_2. Qed.

Lemma rc4_rounds_Ok key indices : ∀ val out,
  indices ≠ [] → rc4_rounds key indices val = Ok out →
  (5 ≤ length key ≤ 16)%nat ∧ length out = length val.
Proof.
  unfold rc4_rounds.
  induction indices as [|i indices IH]; intros val out Hne Hrun; [done |].
  simpl in Hrun. apply result_bind_Ok in Hrun as (v1 & H1 & H2).
  apply symmetric_rc4_encrypt_Ok in H1 as (Hk & _ & Hlen).
  rewrite length_xor_key in Hk. split; [done |].
  destruct indices as [|j indices].
  - simpl in H2. by simplify_eq.
  - destruct (IH v1 out ltac:(done) H2) as [_ Hout]. congruence.
Qed.

(** Running the rounds backwards undoes them. *)
Lemma rc4_rounds_reverse key indices : ∀ val out,
  rc4_rounds key indices val = Ok out → rc4_rounds key (reverse indices) out = Ok val.
Proof.
  unfold rc4_rounds.
  induction indices as [|i indices IH]; intros val out Hrun.
  - simpl in *. by simplify_eq.
  - simpl in Hrun. apply result_bind_Ok in Hrun as (v1 & H1 & H2).
    rewrite reverse_cons, for_each_app, (IH _ _ H2). simpl.
    apply symmetric_rc4_encrypt_Ok in H1 as (Hk & -> & _).
    rewrite symmetric_rc4_encrypt_key_ok by done. simpl.
    by rewrite rc4_encrypt_involutive.
Qed.

End rc4_facts.

Section legacy_facts.
Context `{P : Primitives} {Laws : PrimitiveLaws P} {RC4 : RC4Laws P}.

Lemma padded_password_length (password : bytes) :
  length (Py.slice_to (password ++ _encryption_padding) 32) = 32%nat.
Proof.
  rewrite slice_to_nonneg by lia. rewrite length_take, length_app.
  change (length _encryption_padding) with 32%nat. lia.
Qed.

Lemma padded_password_idempotent (password : bytes) :
  Py.slice_to (Py.slice_to (password ++ _encryption_padding) 32 ++ _encryption_padding) 32
  = Py.slice_to (password ++ _encryption_padding) 32.
Proof.
  pose proof (padded_password_length password) as Hlen.
  rewrite (slice_to_nonneg (_ ++ _encryption_padding)) by lia.
  change (Z.to_nat 32) with 32%nat. by rewrite take_app_length'.
Qed.

(** The rounds of [_compute_o_value_legacy] are those with the counters 0
    to 19, for revision 3 and up, and the single round 0 below. *)
Lemma _compute_o_value_legacy_rounds owner_pwd user_pwd rev keylen :
  _compute_o_value_legacy owner_pwd user_pwd rev keylen
  = rc4_rounds (_compute_o_value_legacy_prep owner_pwd rev keylen)
      (if bool_decide (rev >= 3) then seqZ 0 20 else [0])
      (Py.slice_to (user_pwd ++ _encryption_padding) 32).
Proof.
  unfold _compute_o_value_legacy, rc4_rounds.
  case_bool_decide.
  - change (seqZ 0 20) with (0 :: seqZ 1 19). simpl Reader.for_each at 2.
    by rewrite xor_key_0.
  - simpl. rewrite xor_key_0.
    by destruct (symmetric_rc4_encrypt _ _).
Qed.

Lemma owner_entry_decrypts
    (owner_pwd user_pwd : bytes) (rev : StandardSecuritySettingsRevision)
    (keylen : Z) (o_entry : bytes) :
  _compute_o_value_legacy owner_pwd user_pwd (revision_value rev) keylen = Ok o_entry →
  let key := _compute_o_value_legacy_prep owner_pwd (revision_value rev) keylen in
  length o_entry = 32%nat
  ∧ match rev with
    | RC4_BASIC => symmetric_rc4_encrypt key o_entry
    | _ => rc4_rounds key (reverse (seqZ 0 20)) o_entry
    end = Ok (Py.slice_to (user_pwd ++ _encryption_padding) 32).
Proof.
  intros Hcompute key. rewrite _compute_o_value_legacy_rounds in Hcompute. fold key in Hcompute.
  split.
  - apply rc4_rounds_Ok in Hcompute as [_ ->]; [apply padded_password_length |].
    by case_bool_decide.
  - apply rc4_rounds_reverse in Hcompute.
    destruct rev; simpl in Hcompute; try exact Hcompute.
    unfold rc4_rounds in Hcompute. simpl in Hcompute. rewrite xor_key_0 in Hcompute.
    by destruct (symmetric_rc4_encrypt key o_entry).
Qed.

(** X20. The [/O] entry is the padded user password under the key of the
    owner password: it has 32 bytes, and the decryption that
    [_authenticate_legacy] runs on it (one RC4 round for revision 2, the
    rounds 19 down to 0 otherwise) gives the padded user password back. *)
Theorem owner_entry_decrypts_to_user_password
    (owner_pwd user_pwd : bytes) (rev : StandardSecuritySettingsRevision)
    (keylen : Z) (o_entry : bytes) :
  _compute_o_value_legacy owner_pwd user_pwd (revision_value rev) keylen = Ok o_entry →
  let key := _compute_o_value_legacy_prep owner_pwd (revision_value rev) keylen in
  length o_entry = 32%nat
  ∧ match rev with
    | RC4_BASIC => symmetric_rc4_encrypt key o_entry
    | _ => rc4_rounds key (reverse (seqZ 0 20)) o_entry
    end = Ok (Py.slice_to (user_pwd ++ _encryption_padding) 32).
Proof. apply owner_entry_decrypts. Qed.

(** *** A legacy handler and its passwords *)

Lemma length_slice_to {A} (l l' : list A) (n : Z) :
  length l = length l' → length (Py.slice_to l n) = length (Py.slice_to l' n).
Proof.
  intros Hlen. unfold Py.slice_to. rewrite Hlen.
  destruct (0 <=? n); rewrite !length_take; lia.
Qed.

(** The file key only depends on the password through its padded form,
    and its length does not depend on the password. *)
Lemma _derive_legacy_file_key_padded password rev keylen o p id1 m :
  _derive_legacy_file_key (Py.slice_to (password ++ _encryption_padding) 32)
    rev keylen o p id1 m
  = _derive_legacy_file_key password rev keylen o p id1 m.
Proof. unfold _derive_legacy_file_key. by rewrite padded_password_idempotent. Qed.

Lemma _derive_legacy_file_key_length password password' rev keylen o p id1 m key :
  _derive_legacy_file_key password rev keylen o p id1 m = Ok key →
  ∃ key', _derive_legacy_file_key password' rev keylen o p id1 m = Ok key'
    ∧ length key' = length key.
Proof.
  unfold _derive_legacy_file_key. intros Hkey.
  apply result_bind_Ok in Hkey as (packed & -> & Hkey). rewrite result_bind_ret.
  injection Hkey as <-. eexists. split; [reflexivity |].
  apply length_slice_to.
  case_bool_decide; [| by rewrite !md5_length].
  rewrite !repeat_times_iter. simpl. by rewrite !md5_length.
Qed.

Lemma rc4_rounds_key_length key key' indices : ∀ val val' out,
  length key' = length key →
  rc4_rounds key indices val = Ok out → ∃ out', rc4_rounds key' indices val' = Ok out'.
Proof.
  unfold rc4_rounds.
  induction indices as [|i indices IH]; intros val val' out Hlen Hrun; simpl.
  - by eexists.
  - simpl in Hrun. apply result_bind_Ok in Hrun as (v1 & H1 & H2).
    apply symmetric_rc4_encrypt_Ok in H1 as (Hk & _ & _).
    rewrite symmetric_rc4_encrypt_key_ok by (rewrite !length_xor_key in *; lia).
    simpl. by eapply IH.
Qed.

Lemma user_token_padded self id1 password :
  user_token self id1 (Py.slice_to (password ++ _encryption_padding) 32)
  = user_token self id1 password.
Proof.
  unfold user_token, _compute_u_value_r2, _compute_u_value_r34.
  by rewrite !_derive_legacy_file_key_padded.
Qed.

Lemma user_token_total self id1 password password' tok :
  user_token self id1 password = Ok tok → is_Ok (user_token self id1 password').
Proof.
  unfold user_token, _compute_u_value_r2, _compute_u_value_r34. intros Htok.
  destruct (revision self);
    apply result_bind_Ok in Htok as (key & Hkey & Htok);
    destruct (_derive_legacy_file_key_length _ password' _ _ _ _ _ _ _ Hkey)
      as (key' & -> & Hlen);
    rewrite result_bind_ret;
    apply result_bind_Ok in Htok as (v0 & H0 & Htok);
    apply symmetric_rc4_encrypt_Ok in H0 as (Hk & _ & _);
    rewrite symmetric_rc4_encrypt_key_ok by lia; rewrite result_bind_ret;
    try (by eexists);
    apply result_bind_Ok in Htok as (v1 & H1 & _);
    (edestruct (rc4_rounds_key_length key key') as [out' ->]; [done | exact H1 |]);
    by eexists.
Qed.

Lemma _auth_user_password_legacy_token self id1 password :
  _auth_user_password_legacy self id1 password
  = '(tok, key) ← user_token self id1 password;
    Ok (match revision self with
        | RC4_BASIC => bool_decide (tok = udata self)
        | _ => bool_decide (Py.slice_to tok 16 = Py.slice_to (udata self) 16)
        end, key).
Proof.
  unfold _auth_user_password_legacy, user_token.
  destruct (revision self); try done.
Qed.
Lemma _authenticate_legacy_user self id1 password tok key :
  user_token self id1 password = Ok (tok, key) →
  match revision self with
  | RC4_BASIC => tok = udata self
  | _ => Py.slice_to tok 16 = Py.slice_to (udata self) 16
  end →
  _authenticate_legacy self id1 password = Ok (USER, Some key).
Proof.
  intros Htok Hmatch. unfold _authenticate_legacy.
  rewrite _auth_user_password_legacy_token, Htok. simpl.
  destruct (revision self); by rewrite bool_decide_eq_true_2.
Qed.

Lemma _authenticate_legacy_owner self id1 password tok' key' userpass tok key :
  user_token self id1 password = Ok (tok', key') →
  ¬ match revision self with
    | RC4_BASIC => tok' = udata self
    | _ => Py.slice_to tok' 16 = Py.slice_to (udata self) 16
    end →
  match revision self with
  | RC4_BASIC =>
      symmetric_rc4_encrypt
        (_compute_o_value_legacy_prep password (revision_value (revision self)) (keylen self))
        (odata self)
  | _ =>
      rc4_rounds
        (_compute_o_value_legacy_prep password (revision_value (revision self)) (keylen self))
        (reverse (seqZ 0 20)) (odata self)
  end = Ok userpass →
  user_token self id1 userpass = Ok (tok, key) →
  match revision self with
  | RC4_BASIC => tok = udata self
  | _ => Py.slice_to tok 16 = Py.slice_to (udata self) 16
  end →
  _authenticate_legacy self id1 password = Ok (OWNER, Some key).
Proof.
  intros Htok' Hmiss Hdecrypt Htok Hmatch. unfold _authenticate_legacy.
  rewrite _auth_user_password_legacy_token, Htok'. simpl.
  destruct (revision self) eqn:Hrev; rewrite bool_decide_eq_false_2 by done;
    rewrite Hdecrypt; simpl;
    rewrite _auth_user_password_legacy_token, Htok; simpl; rewrite Hrev;
    by rewrite bool_decide_eq_true_2.
Qed.

Lemma authenticate_legacy_Ok self cred id1 password res key :
  revision self ≠ AES256 → _legacy_normalise_pw cred = Ok password →
  _authenticate_legacy self id1 password = Ok (res, Some key) →
  authenticate self cred (Some id1) = (Ok res, set_shared_key (Some key) self).
Proof.
  intros Hrev Hnorm Hauth. unfold authenticate.
  destruct (revision self); try done; by rewrite Hnorm, result_bind_ret, Hauth.
Qed.

(** What [__init__] makes of the arguments of a legacy handler. *)
Lemma StandardSecurityHandler_init_legacy version rev legacy_keylen perm_flags odata udata
    encrypt_metadata has_config sh :
  rev ≠ AES256 →
  StandardSecurityHandler_init version rev legacy_keylen perm_flags odata udata
    None None None encrypt_metadata has_config = Ok sh →
  ∃ kl, sh = mkHandler version rev kl perm_flags odata udata None None None
               encrypt_metadata None false
    ∧ (version = V_RC4_40 → kl = 5)
    ∧ (version = V_RC4_LONGER_KEYS ∨ version = V_RC4_OR_AES128 → kl = legacy_keylen).
Proof.
  intros Hrev. unfold StandardSecurityHandler_init. intros Hinit.
  apply result_bind_Ok in Hinit as (kl & Hkl & Hinit).
  destruct (negb (has_config || _)); [discriminate |].
  exists kl. split.
  - destruct rev; try done;
      destruct (negb (bool_decide (length udata = 32%nat ∧ length odata = 32%nat)));
      by simplify_eq.
  - destruct version; simpl in Hkl; split; intros Hv; try done;
      try (by destruct Hv);
      first [by simplify_eq | destruct (negb _ && _); by simplify_eq].
Qed.

(** X21. A legacy handler that [build_from_pw_legacy] returns holds the
    file key, and accepts its passwords: a reader of the file (the same
    entries, no key yet) that authenticates with the user password gets
    [USER] and the handler as built, key included; with the owner password
    it gets [OWNER] and the same, unless the owner password passes as a user
    password as well, in which case the result is [USER]. *)
Theorem legacy_handler_accepts_its_passwords
    (rev : StandardSecuritySettingsRevision) (id1 : bytes)
    (desired_owner_pass : credential) (desired_user_pass : option credential)
    (keylen_bytes : Z) (use_aes128 crypt_filter_config : bool)
    (sh : StandardSecurityHandler) :
  build_from_pw_legacy rev id1 desired_owner_pass desired_user_pass keylen_bytes
    use_aes128 crypt_filter_config = Ok sh →
  let reader_sh := set_shared_key None sh in
  is_Ok (get_file_encryption_key sh)
  ∧ authenticate reader_sh (default desired_owner_pass desired_user_pass) (Some id1)
    = (Ok USER, sh)
  ∧ (authenticate reader_sh desired_owner_pass (Some id1) = (Ok OWNER, sh)
     ∨ ∃ key, authenticate reader_sh desired_owner_pass (Some id1)
              = (Ok USER, set_shared_key (Some key) sh)).
Proof.
  intros Hbuild reader_sh. unfold build_from_pw_legacy in Hbuild.
  apply result_bind_Ok in Hbuild as (owner_b & Hown & Hbuild).
  apply result_bind_Ok in Hbuild as (user_b & Huser & Hbuild).
  assert (Hrev : rev ≠ AES256) by (intros ->; discriminate).
  set (kl := match rev with
             | RC4_BASIC => 5
             | RC4_OR_AES128 => if use_aes128 then 16 else keylen_bytes
             | _ => keylen_bytes
             end) in *.
  assert (Hbuild' :
    _compute_o_value_legacy owner_b user_b (revision_value rev) kl
    ≫= (λ o_entry,
      match rev with
      | RC4_BASIC => _compute_u_value_r2 user_b o_entry ALL_PERMS id1
      | _ => _compute_u_value_r34 user_b (revision_value rev) kl o_entry ALL_PERMS id1
      end
      ≫= (λ '(u_entry, key),
        StandardSecurityHandler_init
          match rev with
          | RC4_OR_AES128 => V_RC4_OR_AES128
          | RC4_BASIC => V_RC4_40
          | _ => V_RC4_LONGER_KEYS
          end rev kl ALL_PERMS o_entry u_entry None None None true
          match rev with RC4_OR_AES128 => true | _ => crypt_filter_config end
        ≫= (λ sh0, Ok (set_shared_key (Some key) sh0)))) = Ok sh).
  { destruct rev; done. }
  clear Hbuild.
  apply result_bind_Ok in Hbuild' as (o_entry & Ho & Hbuild).
  apply result_bind_Ok in Hbuild as ([u_entry key] & Hu & Hbuild).
  apply result_bind_Ok in Hbuild as (sh0 & Hinit & Hsh). injection Hsh as <-.
  apply StandardSecurityHandler_init_legacy in Hinit as (kl' & -> & Hkl40 & Hkl); [| done].
  assert (kl' = kl) as ->.
  { destruct rev; [apply Hkl40 | rewrite Hkl | rewrite Hkl | done]; auto. }
  subst reader_sh. cbn [set_shared_key version revision keylen perms odata udata oeseed
    ueseed encrypted_perms encrypt_metadata _shared_key _auth_failed].
  set (ver := match rev with
              | RC4_OR_AES128 => V_RC4_OR_AES128
              | RC4_BASIC => V_RC4_40
              | _ => V_RC4_LONGER_KEYS
              end) in *.
  set (self := mkHandler ver rev kl ALL_PERMS o_entry u_entry None None None true None false).
  set (built := mkHandler ver rev kl ALL_PERMS o_entry u_entry None None None true
                  (Some key) false).
  assert (Hbuilt : set_shared_key (Some key) self = built) by done.
  assert (Htok : user_token self id1 user_b = Ok (u_entry, key)).
  { unfold user_token. simpl. by destruct rev. }
  assert (Hmatch : match revision self with
                   | RC4_BASIC => u_entry = udata self
                   | _ => Py.slice_to u_entry 16 = Py.slice_to (udata self) 16
                   end) by (simpl; by destruct rev).
  split; [by eexists |].
  change (set_shared_key None (set_shared_key (Some key) self)) with self.
  split.
  - apply (authenticate_legacy_Ok self _ id1 user_b); [exact Hrev | |].
    + destruct desired_user_pass; simpl; [exact Huser | congruence].
    + by eapply _authenticate_legacy_user.
  - destruct (user_token_total self id1 user_b owner_b _ Htok) as [[tok' key'] Htok'].
    assert (Hdec : let passes := match revision self with
                                 | RC4_BASIC => tok' = udata self
                                 | _ => Py.slice_to tok' 16 = Py.slice_to (udata self) 16
                                 end in passes ∨ ¬ passes).
    { simpl. destruct rev;
        match goal with |- ?a = ?b ∨ _ => destruct (decide (a = b)); auto end. }
    destruct Hdec as [Hpass | Hmiss].
    + right. exists key'.
      change (set_shared_key (Some key') (set_shared_key (Some key) self))
        with (set_shared_key (Some key') self).
      apply (authenticate_legacy_Ok self _ id1 owner_b); [exact Hrev | exact Hown |].
      by eapply _authenticate_legacy_user.
    + left.
      apply (authenticate_legacy_Ok self _ id1 owner_b); [exact Hrev | exact Hown |].
      destruct (owner_entry_decrypts _ _ _ _ _ Ho) as [_ Hdecrypt].
      eapply _authenticate_legacy_owner; [exact Htok' | exact Hmiss | | | exact Hmatch].
      * exact Hdecrypt.
      * by rewrite user_token_padded.
Qed.

End legacy_facts.

Section r6_build.
Context `{Laws : PrimitiveLaws}.

Lemma _R6KeyEntry_from_bytes_app (h vs ks : bytes) :
  length h = 32%nat → length vs = 8%nat → length ks = 8%nat →
  _R6KeyEntry_from_bytes (h ++ vs ++ ks) = Ok (mkR6KeyEntry h vs ks).
Proof.
  intros Hh Hvs Hks. unfold _R6KeyEntry_from_bytes.
  rewrite bool_decide_eq_true_2 by (rewrite !length_app; lia).
  f_equal. f_equal.
  - rewrite slice_to_nonneg by lia. change (Z.to_nat 32) with 32%nat.
    by rewrite take_app_length'.
  - unfold Py.slice. rewrite drop_app_length' by done.
    by rewrite take_app_length' by done.
  - unfold Py.slice. rewrite app_assoc, drop_app_length' by (rewrite length_app; lia).
    by rewrite take_ge by lia.
Qed.

Lemma aes_cbc_no_padding_decrypt_encrypt key data iv iv' e :
  aes_cbc_no_padding_encrypt key data iv = Ok (iv', e) →
  aes_cbc_no_padding_decrypt key e iv = Ok data.
Proof.
  unfold aes_cbc_no_padding_encrypt, aes_cbc_no_padding_decrypt.
  destruct (cbc_arguments_ok key data iv) eqn:Hargs; [| discriminate].
  intros Henc.
  assert (e = cbc_encrypt_blocks (length data / 16) key iv data) as -> by congruence.
  clear Henc.
  unfold cbc_arguments_ok in *.
  apply andb_true_iff in Hargs as [Hargs Hdata]. apply andb_true_iff in Hargs as [Hk Hiv].
  apply bool_decide_eq_true_1 in Hiv. apply bool_decide_eq_true_1 in Hdata.
  pose proof (Nat.div_mod_eq (length data) 16) as Hdiv.
  assert (Hlen : length (cbc_encrypt_blocks (length data / 16) key iv data) = length data).
  { rewrite length_cbc_encrypt_blocks; [lia | done | done | lia]. }
  rewrite Hlen, Hk, !bool_decide_eq_true_2 by done. cbn [andb].
  rewrite cbc_decrypt_encrypt_blocks by (done || lia).
  by rewrite take_ge by lia.
Qed.

(** The first block of a CBC ciphertext, decrypted alone, is the first
    block of the plaintext. *)
Lemma first_block_decrypts key data iv iv' e :
  (16 ≤ length data)%nat →
  aes_cbc_no_padding_encrypt key data iv = Ok (iv', e) →
  aes_cbc_no_padding_decrypt key (Py.slice_to e 16) iv = Ok (take 16 data).
Proof.
  intros Hlong.
  unfold aes_cbc_no_padding_encrypt, aes_cbc_no_padding_decrypt.
  destruct (cbc_arguments_ok key data iv) eqn:Hargs; [| discriminate].
  intros Henc.
  assert (e = cbc_encrypt_blocks (length data / 16) key iv data) as -> by congruence.
  clear Henc.
  unfold cbc_arguments_ok in *.
  apply andb_true_iff in Hargs as [Hargs Hdata]. apply andb_true_iff in Hargs as [Hk Hiv].
  apply bool_decide_eq_true_1 in Hiv. apply bool_decide_eq_true_1 in Hdata.
  pose proof (Nat.div_mod_eq (length data) 16) as Hdiv.
  destruct (length data / 16)%nat as [|n] eqn:Hn; [lia |].
  rewrite slice_to_nonneg by lia. change (Z.to_nat 16) with 16%nat.
  cbn [cbc_encrypt_blocks].
  assert (Hc : length (aes_encrypt_block key (xor_bytes (take 16 data) iv)) = 16%nat).
  { apply aes_encrypt_block_length; [done |]. rewrite length_xor_bytes, length_take; lia. }
  rewrite take_app_length' by done.
  rewrite Hc, Hk, !bool_decide_eq_true_2 by done. cbn [andb].
  change (16 / 16)%nat with 1%nat. f_equal.
  transitivity (take (16 * 1) data); [| done].
  rewrite <- (cbc_decrypt_encrypt_blocks 1 key iv data) by (done || lia).
  simpl. by rewrite !app_nil_r.
Qed.

Lemma StandardSecurityHandler_init_r6 legacy_keylen perm_flags odata udata oeseed ueseed
    encrypted_perms encrypt_metadata has_config sh :
  StandardSecurityHandler_init V_AES256 AES256 legacy_keylen perm_flags odata udata
    oeseed ueseed encrypted_perms encrypt_metadata has_config = Ok sh →
  sh = mkHandler V_AES256 AES256 32 perm_flags odata udata oeseed ueseed encrypted_perms
         encrypt_metadata None false.
Proof.
  unfold StandardSecurityHandler_init. rewrite andb_false_r, orb_true_r. simpl.
  repeat match goal with |- (if ?b then _ else _) = _ → _ => destruct b end;
    intros Hinit; by simplify_eq.
Qed.

(** The plaintext of [/Perms] that [build_from_pw] encrypts passes the
    check of [_authenticate_r6]. *)
Lemma built_perms_ok (self : StandardSecurityHandler) (tail : bytes) :
  perms self = -4 → encrypt_metadata self = true → length tail = 4%nat →
  perms_ok self ([xfc; xff; xff; xff] ++ replicate 4 xff ++ [x54; x61; x64; x62] ++ tail)
  = Ok true.
Proof.
  intros Hperms Hmeta Htail.
  rewrite perms_ok_spec by (rewrite !length_app, Htail; done).
  f_equal. unfold perms_entry_valid. apply bool_decide_eq_true_2.
  rewrite Hperms, Hmeta. repeat split.
Qed.

Lemma _authenticate_r6_owner self password pw_bytes o u oe key ep d :
  _r6_normalise_pw password = Ok pw_bytes →
  _R6KeyEntry_from_bytes (odata self) = Ok o →
  _R6KeyEntry_from_bytes (udata self) = Ok u →
  _r6_hash_algo pw_bytes (validation_salt o) (Some (udata self)) = Ok (hash_value o) →
  oeseed self = Some oe →
  _r6_derive_file_key pw_bytes o oe (Some (udata self)) = Ok key →
  encrypted_perms self = Some ep →
  aes_cbc_no_padding_decrypt key ep (replicate 16 x00) = Ok d →
  perms_ok self d = Ok true →
  _authenticate_r6 self password = Ok (OWNER, Some key).
Proof.
  intros Hnorm Ho Hu Hhash Hoe Hkey Hep Hd Hperms.
  unfold _authenticate_r6, _r6_password_authenticate.
  rewrite Hnorm, !result_bind_ret, Ho, !result_bind_ret, Hu, !result_bind_ret,
    Hhash, !result_bind_ret.
  rewrite bool_decide_eq_true_2 by done.
  rewrite Hoe. cbn [required]. rewrite !result_bind_ret, Hkey, !result_bind_ret.
  rewrite Hep. cbn [required]. by rewrite !result_bind_ret, Hd, !result_bind_ret, Hperms.
Qed.

Lemma _authenticate_r6_user self password pw_bytes o u owner_hash ue key ep d :
  _r6_normalise_pw password = Ok pw_bytes →
  _R6KeyEntry_from_bytes (odata self) = Ok o →
  _R6KeyEntry_from_bytes (udata self) = Ok u →
  _r6_hash_algo pw_bytes (validation_salt o) (Some (udata self)) = Ok owner_hash →
  owner_hash ≠ hash_value o →
  _r6_hash_algo pw_bytes (validation_salt u) None = Ok (hash_value u) →
  ueseed self = Some ue →
  _r6_derive_file_key pw_bytes u ue None = Ok key →
  encrypted_perms self = Some ep →
  aes_cbc_no_padding_decrypt key ep (replicate 16 x00) = Ok d →
  perms_ok self d = Ok true →
  _authenticate_r6 self password = Ok (USER, Some key).
Proof.
  intros Hnorm Ho Hu Hohash Hmiss Hhash Hue Hkey Hep Hd Hperms.
  unfold _authenticate_r6, _r6_password_authenticate.
  rewrite Hnorm, !result_bind_ret, Ho, !result_bind_ret, Hu, !result_bind_ret,
    Hohash, !result_bind_ret.
  rewrite bool_decide_eq_false_2 by done.
  rewrite Hhash, !result_bind_ret. rewrite bool_decide_eq_true_2 by done.
  rewrite Hue. cbn [required]. rewrite !result_bind_ret, Hkey, !result_bind_ret.
  rewrite Hep. cbn [required]. by rewrite !result_bind_ret, Hd, !result_bind_ret, Hperms.
Qed.

(** The key that [build_from_pw] wraps under a password comes back from
    [_r6_derive_file_key] under the same password. *)
Lemma _r6_derive_file_key_wrapped pw_bytes entry u_entry interm_key encryption_key iv seed :
  _r6_hash_algo pw_bytes (key_salt entry) u_entry = Ok interm_key →
  length encryption_key = 32%nat →
  aes_cbc_no_padding_encrypt interm_key encryption_key (replicate 16 x00) = Ok (iv, seed) →
  length seed = 32%nat →
  _r6_derive_file_key pw_bytes entry seed u_entry = Ok encryption_key.
Proof.
  intros Hinterm Hkey Henc Hseed. unfold _r6_derive_file_key.
  rewrite Hinterm, result_bind_ret. rewrite bool_decide_eq_true_2 by done.
  by eapply aes_cbc_no_padding_decrypt_encrypt.
Qed.

Lemma authenticate_r6_Ok self cred id1 res key :
  revision self = AES256 → _authenticate_r6 self cred = Ok (res, Some key) →
  authenticate self cred id1 = (Ok res, set_shared_key (Some key) self).
Proof. intros Hrev Hauth. unfold authenticate. by rewrite Hrev, Hauth. Qed.

(** X22. A revision 6 handler that [build_from_pw] returns, the tokens
    having the sizes asked of [secrets.token_bytes], holds the drawn key
    and accepts its passwords: a reader of the file (the same entries, no
    key yet) that authenticates with the owner password gets [OWNER] and
    the handler as built, key included; with the user password it gets
    [USER] and the same, provided the user password does not hash to the
    owner's value under the owner's validation salt. *)
Theorem r6_handler_accepts_its_passwords (tok : build_tokens)
    (desired_owner_pass : credential) (desired_user_pass : option credential)
    (id1 : option bytes) (sh : StandardSecurityHandler) :
  tokens_sized tok →
  build_from_pw tok desired_owner_pass desired_user_pass = Ok sh →
  let reader_sh := set_shared_key None sh in
  get_file_encryption_key sh = Ok (tok_encryption_key tok)
  ∧ authenticate reader_sh desired_owner_pass id1 = (Ok OWNER, sh)
  ∧ ∀ user_pass owner_bytes user_bytes,
      desired_user_pass = Some user_pass →
      _r6_normalise_pw desired_owner_pass = Ok owner_bytes →
      _r6_normalise_pw user_pass = Ok user_bytes →
      _r6_hash_algo user_bytes (tok_o_validation_salt tok) (Some (udata sh))
      ≠ _r6_hash_algo owner_bytes (tok_o_validation_salt tok) (Some (udata sh)) →
      authenticate reader_sh user_pass id1 = (Ok USER, sh).
Proof.
  intros (Hkey & Huvs & Huks & Hovs & Hoks & Htail) Hbuild reader_sh.
  unfold build_from_pw in Hbuild.
  apply result_bind_Ok in Hbuild as (owner_pw & Hown & Hbuild).
  apply result_bind_Ok in Hbuild as (user_pw & Huser & Hbuild).
  apply result_bind_Ok in Hbuild as (u_hash & Huh & Hbuild).
  apply result_bind_Ok in Hbuild as (u_interm & Hui & Hbuild).
  apply result_bind_Ok in Hbuild as ([iv_u ue_seed] & Hue & Hbuild).
  case_bool_decide as Huelen; [| discriminate]. cbn [negb] in Hbuild.
  apply result_bind_Ok in Hbuild as (o_hash & Hoh & Hbuild).
  apply result_bind_Ok in Hbuild as (o_interm & Hoi & Hbuild).
  apply result_bind_Ok in Hbuild as ([iv_o oe_seed] & Hoe & Hbuild).
  case_bool_decide as Hoelen; [| discriminate]. cbn [negb] in Hbuild.
  apply result_bind_Ok in Hbuild as (perms & Hperms & Hbuild).
  apply result_bind_Ok in Hbuild as ([iv_p ep] & Hep & Hbuild).
  apply result_bind_Ok in Hbuild as (sh0 & Hinit & Hsh). injection Hsh as <-.
  apply StandardSecurityHandler_init_r6 in Hinit as ->.
  injection Hperms as <-.
  set (u_entry := u_hash ++ tok_u_validation_salt tok ++ tok_u_key_salt tok) in *.
  set (o_entry := o_hash ++ tok_o_validation_salt tok ++ tok_o_key_salt tok) in *.
  set (extd := [xfc; xff; xff; xff] ++ replicate 4 xff ++ [x54; x61; x64; x62]
               ++ tok_perms_tail tok) in *.
  assert (Huhlen : length u_hash = 32%nat).
  { destruct (_r6_hash_algo_total user_pw (tok_u_validation_salt tok) None Huvs)
      as (h & Hh & Hlen); [by left | congruence]. }
  assert (Hulen : length u_entry = 48%nat) by (unfold u_entry; rewrite !length_app; lia).
  assert (Hohlen : length o_hash = 32%nat).
  { destruct (_r6_hash_algo_total owner_pw (tok_o_validation_salt tok) (Some u_entry) Hovs)
      as (h & Hh & Hlen); [right; eauto | congruence]. }
  assert (Hextd : length extd = 16%nat) by (unfold extd; rewrite !length_app, Htail; done).
  assert (Hd : aes_cbc_no_padding_decrypt (tok_encryption_key tok) (Py.slice_to ep 16)
                 (replicate 16 x00) = Ok extd).
  { unfold aes_cbc_pkcs7_encrypt in Hep.
    apply first_block_decrypts in Hep.
    - unfold pkcs7_pad in Hep. by rewrite take_app_length' in Hep.
    - unfold pkcs7_pad. rewrite length_app. lia. }
  set (self := mkHandler V_AES256 AES256 32 _ o_entry u_entry (Some oe_seed) (Some ue_seed)
                 (Some (Py.slice_to ep 16)) true None false).
  change reader_sh with self. clear reader_sh.
  change (set_shared_key (Some (tok_encryption_key tok)) _)
    with (set_shared_key (Some (tok_encryption_key tok)) self).
  assert (Ho : _R6KeyEntry_from_bytes (odata self)
               = Ok (mkR6KeyEntry o_hash (tok_o_validation_salt tok) (tok_o_key_salt tok)))
    by (by apply _R6KeyEntry_from_bytes_app).
  assert (Hu : _R6KeyEntry_from_bytes (udata self)
               = Ok (mkR6KeyEntry u_hash (tok_u_validation_salt tok) (tok_u_key_salt tok)))
    by (by apply _R6KeyEntry_from_bytes_app).
  assert (Hpermsok : perms_ok self extd = Ok true) by (by apply built_perms_ok).
  split; [done |]. split.
  - apply authenticate_r6_Ok; [done |].
    eapply _authenticate_r6_owner; try done.
    by eapply _r6_derive_file_key_wrapped.
  - intros user_pass owner_bytes user_bytes -> Hown' Huser' Hmiss.
    assert (owner_bytes = owner_pw) as -> by congruence.
    assert (user_bytes = user_pw) as -> by congruence.
    apply authenticate_r6_Ok; [done |].
    destruct (_r6_hash_algo_total user_pw (tok_o_validation_salt tok) (Some u_entry) Hovs)
      as (owner_hash & Hownhash & _); [right; eauto |].
    eapply _authenticate_r6_user; try done.
    + simpl. intros ->. apply Hmiss. simpl. fold u_entry. congruence.
    + by eapply _r6_derive_file_key_wrapped.
Qed.

End r6_build.

Section rc4_objects.
Context `{P : Primitives} {Laws : PrimitiveLaws P} {RC4 : RC4Laws P}.

(** X23. Whatever the length of the file key, the key that the RC4 crypt
    filter derives for an object is one that RC4 takes (it has 5 to 16
    bytes): [encrypt] under it returns as many bytes as the plaintext has,
    and [decrypt] gives the plaintext back. *)
Theorem rc4_filter_object_roundtrip (shared_key : bytes) (idnum generation : Z)
    (plaintext : bytes) :
  - 2 ^ 31 ≤ idnum < 2 ^ 31 → - 2 ^ 31 ≤ generation < 2 ^ 31 →
  ∃ key ciphertext,
    legacy_derive_object_key shared_key idnum generation false = Ok key
    ∧ rc4_filter_encrypt key plaintext = Ok ciphertext
    ∧ length ciphertext = length plaintext
    ∧ rc4_filter_decrypt key ciphertext = Ok plaintext.
Proof.
  intros Hid Hgen. rewrite legacy_derive_object_key_Ok by done.
  set (key := take _ _).
  assert (Hkey : (5 ≤ length key ≤ 16)%nat).
  { unfold key. rewrite length_take, md5_length. lia. }
  exists key, (rc4_encrypt key plaintext).
  unfold rc4_filter_encrypt, rc4_filter_decrypt.
  rewrite !symmetric_rc4_encrypt_key_ok by done.
  split; [done |]. split; [done |]. split; [by apply rc4_encrypt_length |].
  by rewrite rc4_encrypt_involutive.
Qed.

End rc4_objects.

(** X24. Authentication against a legacy handler (revisions 2 to 4) never
    reads [encrypt_metadata]: with the flag changed, the result, the key
    that is stored and the failure mark are the same. *)
Theorem legacy_authentication_ignores_encrypt_metadata `{Primitives}
    (self : StandardSecurityHandler) (flag : bool) (credential : credential)
    (id1 : option bytes) :
  revision self ≠ AES256 →
  authenticate (set_encrypt_metadata flag self) credential id1
  = ((authenticate self credential id1).1,
     set_encrypt_metadata flag (authenticate self credential id1).2).
Proof.
  intros Hrev. destruct self as [v rev kl p o u oe ue ep em key failed].
  simpl in Hrev. unfold authenticate, set_encrypt_metadata. cbn [revision].
  destruct rev; try done;
    (destruct id1 as [id1|]; [| done]);
    (destruct (_legacy_normalise_pw credential) as [password|e]; [| done]);
    rewrite !result_bind_ret;
    match goal with
    | |- match ?a with _ => _ end = (match ?b with _ => _ end.1, _) =>
        change a with b; destruct b as [[res [k|]]|]; reflexivity
    end.
Qed.

Section more_witnesses.
#[local] Existing Instance toy_primitives.

Lemma toy_rc4_laws : RC4Laws toy_primitives.
Proof.
  split; intros key data _; simpl.
  - apply length_map.
  - induction data as [|b data IH]; simpl; [done |].
    by rewrite byte_xor_involutive, IH.
Qed.

Lemma legacy_object_key_range_and_length_witness :
  (∃ key, legacy_derive_object_key demo_file_key 7 0 false = Ok key
     ∧ Z.of_nat (length key) = Z.min 16 (Z.of_nat (length demo_file_key) + 5))
  ∧ legacy_derive_object_key demo_file_key (2 ^ 31) 0 false = Raise StructError.
Proof.
  split.
  - apply (legacy_object_key_range_and_length (Laws := toy_primitive_laws)
             demo_file_key 7 0 false). lia.
  - apply (legacy_object_key_range_and_length (Laws := toy_primitive_laws)
             demo_file_key (2 ^ 31) 0 false). lia.
Defined.

Lemma legacy_object_key_low_bytes_witness :
  legacy_derive_object_key demo_file_key 7 1 true
  = legacy_derive_object_key demo_file_key (7 + 2 ^ 24) (1 - 2 ^ 16) true.
Proof.
  apply (legacy_object_key_low_bytes (H := toy_primitives) demo_file_key
           7 (7 + 2 ^ 24) 1 (1 - 2 ^ 16) true); vm_compute; (split; congruence) || reflexivity.
Defined.

Lemma owner_entry_decrypts_to_user_password_witness :
  let key := _compute_o_value_legacy_prep demo_owner 3 16 in
  length (odata demo_legacy_handler) = 32%nat
  ∧ rc4_rounds key (reverse (seqZ 0 20)) (odata demo_legacy_handler)
    = Ok (Py.slice_to (demo_pass ++ _encryption_padding) 32).
Proof.
  apply (owner_entry_decrypts_to_user_password (P := toy_primitives)
           (RC4 := toy_rc4_laws) demo_owner demo_pass RC4_EXTENDED 16
           (odata demo_legacy_handler)).
  vm_compute. reflexivity.
Defined.

Lemma legacy_handler_accepts_its_passwords_witness :
  let sh := demo_legacy_handler in
  let reader_sh := set_shared_key None sh in
  is_Ok (get_file_encryption_key sh)
  ∧ authenticate reader_sh (CredBytes demo_pass) (Some demo_id1) = (Ok USER, sh)
  ∧ (authenticate reader_sh (CredBytes demo_owner) (Some demo_id1) = (Ok OWNER, sh)
     ∨ ∃ key, authenticate reader_sh (CredBytes demo_owner) (Some demo_id1)
              = (Ok USER, set_shared_key (Some key) sh)).
Proof.
  apply (legacy_handler_accepts_its_passwords (P := toy_primitives)
           (Laws := toy_primitive_laws) (RC4 := toy_rc4_laws)
           RC4_EXTENDED demo_id1 (CredBytes demo_owner) (Some (CredBytes demo_pass))
           16 false false demo_legacy_handler).
  vm_compute. reflexivity.
Defined.

Lemma r6_handler_accepts_its_passwords_witness :
  let sh := demo_r6_handler in
  let reader_sh := set_shared_key None sh in
  get_file_encryption_key sh = Ok (tok_encryption_key demo_tokens)
  ∧ authenticate reader_sh (CredBytes demo_owner) None = (Ok OWNER, sh)
  ∧ authenticate reader_sh (CredBytes demo_pass) None = (Ok USER, sh).
Proof.
  destruct (r6_handler_accepts_its_passwords (Laws := toy_primitive_laws) demo_tokens
              (CredBytes demo_owner) (Some (CredBytes demo_pass)) None demo_r6_handler)
    as (Hkey & Howner & Huser);
    [vm_compute; repeat split | vm_compute; reflexivity |].
  split; [exact Hkey |]. split; [exact Howner |].
  apply (Huser (CredBytes demo_pass) demo_owner demo_pass);
    [reflexivity | vm_compute; reflexivity | vm_compute; reflexivity |].
  vm_compute. discriminate.
Defined.

Lemma rc4_filter_object_roundtrip_witness :
  ∃ key ciphertext,
    legacy_derive_object_key demo_file_key 7 0 false = Ok key
    ∧ rc4_filter_encrypt key demo_pass = Ok ciphertext
    ∧ length ciphertext = length demo_pass
    ∧ rc4_filter_decrypt key ciphertext = Ok demo_pass.
Proof.
  apply (rc4_filter_object_roundtrip (Laws := toy_primitive_laws) (RC4 := toy_rc4_laws)
           demo_file_key 7 0 demo_pass); lia.
Defined.

Lemma legacy_authentication_ignores_encrypt_metadata_witness :
  authenticate (set_encrypt_metadata false demo_handler) (CredBytes demo_user_pw)
    (Some demo_id1)
  = ((authenticate demo_handler (CredBytes demo_user_pw) (Some demo_id1)).1,
     set_encrypt_metadata false
       (authenticate demo_handler (CredBytes demo_user_pw) (Some demo_id1)).2).
Proof.
  apply (legacy_authentication_ignores_encrypt_metadata (H := toy_primitives)
           demo_handler false (CredBytes demo_user_pw) (Some demo_id1)).
  discriminate.
Defined.

End more_witnesses.

End CryptFacts.
